(** * The copyright-header checker of [ci/checks/copyright.py]

    A shallow embedding of the checker and of the part of Python's [re]
    module it relies on, followed by the properties of the checker.

    Text is a list of characters.  A character of the model is one of the
    256 code points U+0000..U+00FF; on this alphabet the classes used by
    the two header patterns are exact: the only decimal digits ([\d]) are
    ['0'..'9'].  File contents are kept as decoded text: every read and
    every write of the script uses the same codec (UTF-8), which is
    recorded in the trace of the run. *)

From Stdlib Require Import ZArith Ascii String List Lia Bool Sorted.
From stdpp Require Import gmap strings list fin_maps.

Open Scope Z_scope.

(** ** Text *)

Abbreviation text := (list ascii).

Definition txt (s : string) : text := list_ascii_of_string s.

Definition nl : ascii := "010"%char.
Definition cr : ascii := "013"%char.
Definition sp : ascii := " "%char.

(** ** Regular expressions: the fragment of [re] used by the script *)

Module Re.

(** The syntax.  [(?:r)] is [r] itself; [r{4}] is [rep 4 r]; a literal
    string is [lit]. *)
Inductive regex : Type :=
| Chr (c : ascii)            (* a literal character *)
| AnyChar                    (* [.]: any character except a newline *)
| Digit                      (* [\d] *)
| Eos                        (* [$] *)
| Eps                        (* the empty pattern *)
| Seq (r1 r2 : regex)        (* r1 r2 *)
| Alt (r1 r2 : regex)        (* r1|r2, r1 is tried first *)
| Opt (r : regex)            (* r?, greedy *)
| Star (r : regex)           (* r*, greedy *)
| Group (n : nat) (r : regex). (* the n-th capturing group *)

Fixpoint lit_chars (l : text) : regex :=
  match l with
  | [] => Eps
  | c :: l' => Seq (Chr c) (lit_chars l')
  end.

Definition lit (s : string) : regex := lit_chars (txt s).

Fixpoint rep (n : nat) (r : regex) : regex :=
  match n with
  | O => Eps
  | S n' => Seq r (rep n' r)
  end.

Fixpoint seqs (rs : list regex) : regex :=
  match rs with
  | [] => Eps
  | r :: rs' => Seq r (seqs rs')
  end.

Fixpoint alts (r : regex) (rs : list regex) : regex :=
  match rs with
  | [] => r
  | r' :: rs' => Alt r (alts r' rs')
  end.

Definition is_digit (c : ascii) : bool :=
  (48 <=? nat_of_ascii c)%nat && (nat_of_ascii c <=? 57)%nat.

(** Captured groups, most recent first. *)
Definition caps := list (nat * text).

Fixpoint group (g : caps) (n : nat) : option text :=
  match g with
  | [] => None
  | (m, t) :: g' => if Nat.eqb m n then Some t else group g' n
  end.

(** The backtracking matcher, in continuation-passing style: [run r s g k]
    matches [r] at the head of [s] and hands what is left of the input,
    with the groups, to [k]; when [k] fails the next alternative of [r] is
    tried, a greedy operator giving up one repetition at a time. *)
Fixpoint run {A : Type} (r : regex) (s : text) (g : caps)
    (k : text -> caps -> option A) {struct r} : option A :=
  match r with
  | Chr c =>
      match s with
      | x :: s' => if Ascii.eqb x c then k s' g else None
      | [] => None
      end
  | AnyChar =>
      match s with
      | x :: s' => if Ascii.eqb x nl then None else k s' g
      | [] => None
      end
  | Digit =>
      match s with
      | x :: s' => if is_digit x then k s' g else None
      | [] => None
      end
  | Eos =>
      match s with
      | [] => k s g
      | [x] => if Ascii.eqb x nl then k s g else None
      | _ => None
      end
  | Eps => k s g
  | Seq r1 r2 => run r1 s g (fun s' g' => run r2 s' g' k)
  | Alt r1 r2 =>
      match run r1 s g k with
      | Some a => Some a
      | None => run r2 s g k
      end
  | Opt r1 =>
      match run r1 s g k with
      | Some a => Some a
      | None => k s g
      end
  | Star r1 =>
      (fix loop (fuel : nat) (s : text) (g : caps) {struct fuel} : option A :=
         match fuel with
         | O => k s g
         | S fuel' =>
             match run r1 s g (fun s' g' =>
                     if (length s' <? length s)%nat then loop fuel' s' g'
                     else None) with
             | Some a => Some a
             | None => k s g
             end
         end) (length s) s g
  | Group n r1 =>
      run r1 s g (fun s' g' =>
        k s' ((n, take (length s - length s') s) :: g'))
  end.

(** [pattern.match]: the groups and the text after the match. *)
Definition match_at (r : regex) (s : text) : option (caps * text) :=
  run r s [] (fun s' g => Some (g, s')).

(** [pattern.search]: the leftmost position where the pattern matches;
    the result is the text before the match, the groups, the text after. *)
Fixpoint search (r : regex) (s : text) : option (text * caps * text) :=
  match match_at r s with
  | Some (g, rest) => Some ([], g, rest)
  | None =>
      match s with
      | [] => None
      | c :: s' =>
          match search r s' with
          | Some (pre, g, rest) => Some (c :: pre, g, rest)
          | None => None
          end
      end
  end.

(** Replacement templates: literal text and references [\n]. *)
Inductive titem : Type :=
| TLit (t : text)
| TRef (n : nat).

Definition expand_item (g : caps) (i : titem) : text :=
  match i with
  | TLit t => t
  | TRef n => default [] (group g n)
  end.

Definition expand (tpl : list titem) (g : caps) : text :=
  concat (map (expand_item g) tpl).

(** [pattern.sub]: every leftmost non-overlapping match is replaced.  The
    fuel is the number of characters left, plus one.  A match of the empty
    string is replaced and the scan moves on by one character; neither
    header pattern matches the empty string ([spanning_shorter]). *)
Fixpoint sub_fuel (fuel : nat) (r : regex) (tpl : list titem) (s : text) : text :=
  match fuel with
  | O => s
  | S fuel' =>
      match match_at r s with
      | Some (g, rest) =>
          if (length rest <? length s)%nat
          then expand tpl g ++ sub_fuel fuel' r tpl rest
          else expand tpl g ++
               match s with
               | [] => []
               | c :: s' => c :: sub_fuel fuel' r tpl s'
               end
      | None =>
          match s with
          | [] => []
          | c :: s' => c :: sub_fuel fuel' r tpl s'
          end
      end
  end.

Definition sub (r : regex) (tpl : list titem) (s : text) : text :=
  sub_fuel (S (length s)) r tpl s.

End Re.

Import Re.

(** ** The two header patterns *)

(** [Copyright *(?:\(c\))? *(\d{4}),? *NVIDIA C(?:ORPORATION|orporation)] *)
Definition CheckSimple : regex :=
  seqs [ lit "Copyright"; Star (Chr sp); Opt (lit "(c)"); Star (Chr sp);
         Group 1 (rep 4 Digit); Opt (Chr ","); Star (Chr sp);
         lit "NVIDIA C"; Alt (lit "ORPORATION") (lit "orporation") ].

(** [Copyright *(?:\(c\))? *(\d{4})-(\d{4}),? *NVIDIA C(?:ORPORATION|orporation)] *)
Definition CheckDouble : regex :=
  seqs [ lit "Copyright"; Star (Chr sp); Opt (lit "(c)"); Star (Chr sp);
         Group 1 (rep 4 Digit); Chr "-"; Group 2 (rep 4 Digit);
         Opt (Chr ","); Star (Chr sp);
         lit "NVIDIA C"; Alt (lit "ORPORATION") (lit "orporation") ].


(** ** Years *)

(** [int(res.group(n))] on a group of decimal digits. *)
Definition digit_value (c : ascii) : Z := Z.of_nat (nat_of_ascii c) - 48.

Definition int_of (t : text) : Z :=
  fold_left (fun acc c => 10 * acc + digit_value c) t 0.

Definition digit_char (d : Z) : ascii := ascii_of_nat (Z.to_nat (48 + d)).

(** [str(n)] for [0 <= n]: the decimal digits, most significant first. *)
Fixpoint dec_digits (fuel : nat) (n : Z) (acc : text) : text :=
  match fuel with
  | O => acc
  | S fuel' =>
      let acc' := digit_char (n mod 10) :: acc in
      if n / 10 =? 0 then acc' else dec_digits fuel' (n / 10) acc'
  end.

Definition str_of_nonneg (n : Z) : text :=
  dec_digits (S (Z.to_nat (Z.log2 n))) n [].

Definition zfill (w : nat) (t : text) : text :=
  repeat "0"%char (w - length t) ++ t.

(** The format specification [:04d]: sign first, then zeros up to a total
    width of four. *)
Definition format_04d (n : Z) : text :=
  if n <? 0 then "-"%char :: zfill 3 (str_of_nonneg (- n))
  else zfill 4 (str_of_nonneg n).

(** [getCopyrightYears]: [None] stands for the pair [(None, None)]. *)
Definition getCopyrightYears (line : text) : option (Z * Z) :=
  match search CheckSimple line with
  | Some (_, g, _) =>
      Some (int_of (default [] (group g 1)), int_of (default [] (group g 1)))
  | None =>
      match search CheckDouble line with
      | Some (_, g, _) =>
          Some (int_of (default [] (group g 1)), int_of (default [] (group g 2)))
      | None => None
      end
  end.

(** The template [Copyright (c) \1-\1, NVIDIA CORPORATION]. *)
Definition simple_to_double : list titem :=
  [ TLit (txt "Copyright (c) "); TRef 1; TLit (txt "-"); TRef 1;
    TLit (txt ", NVIDIA CORPORATION") ].

(** The text [Copyright (c) {start:04d}-{end:04d}, NVIDIA CORPORATION]. *)
Definition canonical (start end_ : Z) : text :=
  txt "Copyright (c) " ++ format_04d start ++ txt "-" ++ format_04d end_
  ++ txt ", NVIDIA CORPORATION".

Definition replaceCurrentYear (line : text) (start end_ : Z) : text :=
  let res := sub CheckSimple simple_to_double line in
  sub CheckDouble [ TLit (canonical start end_) ] res.

(** ** Issues *)

(** An issue is the list [[path, lineNum, message, replacement]]. *)
Record issue : Type := Issue {
  i_path : string;
  i_line : nat;
  i_msg : string;
  i_fix : option text
}.

Definition msg_inverted : string :=
  "First year after second year in the copyright header (manual fix required)".
Definition msg_not_current : string :=
  "Current year not included in the copyright header".
Definition msg_missing : string :=
  "Copyright header missing or formatted incorrectly (manual fix required)".

(** ** The scan of the lines of one file *)

Record scan_state : Type := ScanState {
  lineNum : nat;
  errs : list issue;
  crFound : bool;
  yearMatched : bool
}.

Definition scan_init : scan_state :=
  {| lineNum := 0; errs := []; crFound := false; yearMatched := false |}.

(** One turn of [for line in lines]. *)
Definition scan_line (thisYear : Z) (path : string)
    (st : scan_state) (line : text) : scan_state :=
  let n := S (lineNum st) in
  match getCopyrightYears line with
  | None =>
      {| lineNum := n; errs := errs st; crFound := crFound st;
         yearMatched := yearMatched st |}
  | Some (start, end_) =>
      let errs1 :=
        if end_ <? start
        then errs st ++ [ Issue path n msg_inverted None ]
        else errs st in
      if (thisYear <? start) || (end_ <? thisYear) then
        let fix0 : option text := None in
        let fix1 :=
          if thisYear <? start
          then Some (replaceCurrentYear line thisYear end_) else fix0 in
        let fix2 :=
          if end_ <? thisYear
          then Some (replaceCurrentYear line start thisYear) else fix1 in
        {| lineNum := n;
           errs := errs1 ++ [ Issue path n msg_not_current fix2 ];
           crFound := true; yearMatched := yearMatched st |}
      else
        {| lineNum := n; errs := errs1; crFound := true;
           yearMatched := true |}
  end.

Definition scan_lines (thisYear : Z) (path : string) (lines : list text)
  : scan_state :=
  fold_left (scan_line thisYear path) lines scan_init.

(** The issues of a file once the loop is over. *)
Definition issues_of (thisYear : Z) (path : string) (lines : list text)
  : list issue :=
  let st := scan_lines thisYear path lines in
  let errs1 :=
    if crFound st then errs st
    else errs st ++ [ Issue path 0 msg_missing None ] in
  if yearMatched st then [] else errs1.

(** ** Lines of text *)

(** Reading in text mode with [newline=None]: the terminators [\r\n] and
    [\r] are handed to the program as [\n]. *)
Fixpoint universal_newlines (s : text) : text :=
  match s with
  | [] => []
  | c :: s' =>
      if Ascii.eqb c cr then
        nl :: match s' with
              | c' :: s'' =>
                  if Ascii.eqb c' nl then universal_newlines s''
                  else universal_newlines s'
              | [] => []
              end
      else c :: universal_newlines s'
  end.

(** Lines with their terminator kept, a line ending after each [\n]. *)
Fixpoint lines_keepends (s : text) : list text :=
  match s with
  | [] => []
  | c :: s' =>
      if Ascii.eqb c nl then [c] :: lines_keepends s'
      else match lines_keepends s' with
           | [] => [[c]]
           | l :: ls => (c :: l) :: ls
           end
  end.

(** [fp.readlines()] on a file opened for reading as text. *)
Definition readlines (content : text) : list text :=
  lines_keepends (universal_newlines content).

(** The line boundaries of [str.splitlines] below U+0100, [\r] apart:
    [\n], [\v], [\f], [\x1c], [\x1d], [\x1e], [\x85]. *)
Definition is_linebreak (c : ascii) : bool :=
  let n := nat_of_ascii c in
  (Nat.eqb n 10 || Nat.eqb n 11 || Nat.eqb n 12 || Nat.eqb n 28
   || Nat.eqb n 29 || Nat.eqb n 30 || Nat.eqb n 133)%bool.

(** [s.splitlines(keepends=True)]. *)
Fixpoint splitlines (s : text) : list text :=
  match s with
  | [] => []
  | c :: s' =>
      if Ascii.eqb c cr then
        match s' with
        | c' :: s'' =>
            if Ascii.eqb c' nl then [c; c'] :: splitlines s''
            else [c] :: splitlines s'
        | [] => [[c]]
        end
      else if is_linebreak c then [c] :: splitlines s'
      else match splitlines s' with
           | [] => [[c]]
           | l :: ls => (c :: l) :: ls
           end
  end.

(** [l[i] = x] on a Python list: a negative index counts from the end,
    an index out of range raises [IndexError] ([None]). *)
Definition list_setitem {A : Type} (l : list A) (i : Z) (x : A)
  : option (list A) :=
  let n := Z.of_nat (length l) in
  if (0 <=? i) && (i <? n) then Some (<[ Z.to_nat i := x ]> l)
  else if (- n <=? i) && (i <? 0) then Some (<[ Z.to_nat (n + i) := x ]> l)
  else None.

(** ** The world: files, and what the run did *)

Inductive codec : Type := utf_8 | locale_default.

(** A file to check: a path, or a [git.Diff] with its staged blob. *)
Inductive file_arg : Type :=
| Path (p : string)
| Diff (b_path : string) (b_blob : text).

Definition path_of (f : file_arg) : string :=
  match f with
  | Path p => p
  | Diff p _ => p
  end.

Inductive printed : Type :=
| PChanging (path : string) (lineNums : list nat)
| PRegexError
| PGitInfo
| PChecking (files : list file_arg)
| PIncomplete
| PIssue (path : string) (line : nat) (msg : string)
| PBlank
| PHint (n_fixable : nat).

Inductive event : Type :=
| EvRead (path : string) (enc : codec)
| EvBlob (path : string) (enc : codec)
| EvWrite (path : string) (enc : codec)
| EvWalk (dir : string)
| EvPrint (p : printed).

Record world : Type := World {
  fs : gmap string text;
  log : list event
}.

Inductive exn : Type :=
| FileNotFoundError (path : string)
| IndexError
| ValueError (what : string).

Inductive result (A : Type) : Type :=
| Ok (a : A)
| Raise (e : exn).
Arguments Ok {A} a.
Arguments Raise {A} e.

(** Computations that change the world and may raise. *)
Definition io (A : Type) : Type := world -> result A * world.

Definition ret {A : Type} (a : A) : io A := fun w => (Ok a, w).
Definition raise {A : Type} (e : exn) : io A := fun w => (Raise e, w).
Definition bind {A B : Type} (m : io A) (k : A -> io B) : io B :=
  fun w =>
    match m w with
    | (Ok a, w') => k a w'
    | (Raise e, w') => (Raise e, w')
    end.

Notation "'let*' x ':=' m 'in' k" := (bind m (fun x => k))
  (at level 10, x name, m at level 100, k at level 200).
Notation "m ;;; k" := (bind m (fun _ => k))
  (at level 100, k at level 200, right associativity).

Definition emit (e : event) : io unit :=
  fun w => (Ok tt, {| fs := fs w; log := log w ++ [e] |}).

Definition print (p : printed) : io unit := emit (EvPrint p).

(** [open(path, encoding=enc)] and [readlines].  The store holds the
    files that can be opened, as the text their bytes decode to: of the
    errors of [open] and of the codec only [FileNotFoundError] is
    described; a file without permission or with bytes that are not
    UTF-8 ([PermissionError], [UnicodeDecodeError]) is not in the
    model. *)
Definition read_lines (path : string) (enc : codec) : io (list text) :=
  fun w =>
    match fs w !! path with
    | Some content =>
        (Ok (readlines content),
         {| fs := fs w; log := log w ++ [EvRead path enc] |})
    | None => (Raise (FileNotFoundError path), w)
    end.

(** [open(path, "w", encoding=enc)] and the writes of the lines; where
    [os.linesep] is [\n] the characters are stored as they are given.
    The write is one that succeeds: the errors of [open] for writing are
    not described. *)
Definition write_lines (path : string) (enc : codec) (lines : list text)
  : io unit :=
  fun w =>
    (Ok tt, {| fs := <[ path := concat lines ]> (fs w);
               log := log w ++ [EvWrite path enc] |}).

(** The lines of the file to check, with its path.  The blob of a
    [git.Diff] is given as the text it decodes to. *)
Definition load (f : file_arg) : io (string * list text) :=
  match f with
  | Diff b_path b_blob =>
      emit (EvBlob b_path utf_8) ;;;
      ret (b_path, splitlines b_blob)
  | Path p =>
      let* lines := read_lines p utf_8 in
      ret (p, lines)
  end.

(** [for _, lineNum, __, replacement in errs_update:
       lines[lineNum - 1] = replacement] *)
Fixpoint patch (lines : list text) (errs_update : list issue)
  : option (list text) :=
  match errs_update with
  | [] => Some lines
  | e :: rest =>
      match list_setitem lines (Z.of_nat (i_line e) - 1)
              (default [] (i_fix e)) with
      | Some lines' => patch lines' rest
      | None => None
      end
  end.

Definition fixable (e : issue) : Prop := is_Some (i_fix e).

#[local] Instance fixable_dec (e : issue) : Decision (fixable e).
Proof. unfold fixable. apply _. Defined.

Definition checkCopyright (thisYear : Z) (f : file_arg)
    (update_current_year : bool) : io (list issue) :=
  let* pl := load f in
  let path := fst pl in
  let lines := snd pl in
  let errs := issues_of thisYear path lines in
  if update_current_year then
    let errs_update := filter fixable errs in
    if (0 <? length errs_update)%nat then
      print (PChanging path (map i_line errs_update)) ;;;
      match patch lines errs_update with
      | None => raise IndexError
      | Some lines' =>
          write_lines path utf_8 lines' ;;;
          ret errs
      end
    else ret errs
  else ret errs.

(** ** The selection of files and the main function *)

(** [FilesToCheck] *)
Definition FilesToCheck : list regex :=
  [ seqs [ Chr "."; Group 1 (alts (lit "cmake")
             [ lit "cpp"; lit "cu"; lit "cuh"; lit "h"; lit "hpp"; lit "sh";
               lit "pxd"; lit "py"; lit "pyx" ]); Eos ];
    seqs [ lit "CMakeLists"; Chr "."; lit "txt"; Eos ];
    seqs [ lit "CMakeLists_standalone"; Chr "."; lit "txt"; Eos ];
    seqs [ lit "setup"; Chr "."; lit "cfg"; Eos ];
    seqs [ Chr "."; lit "flake8"; Chr "."; lit "cython"; Eos ];
    seqs [ lit "meta"; Chr "."; lit "yaml"; Eos ] ].

Definition searches (r : regex) (s : string) : bool :=
  match search r (txt s) with
  | Some _ => true
  | None => false
  end.

(** [checkThisFile], with the compiled exemption patterns. *)
Definition checkThisFile (exempt : list regex) (w : world) (f : file_arg)
  : bool :=
  let p := path_of f in
  match fs w !! p with
  | None => false
  | Some content =>
      if (length content =? 0)%nat then false
      else if existsb (fun r => searches r p) exempt then false
      else existsb (fun r => searches r p) FilesToCheck
  end.

(** What the run takes from its environment. *)
Record env : Type := Env {
  re_compile : string -> option regex;   (* [None]: [re.error] *)
  ExemptFiles : list string;             (* the global, as patterns *)
  modifiedFiles : list file_arg;         (* the result of [modifiedFiles()],
                                            when its git queries succeed *)
  abspath : string -> string;
  isdir : string -> bool;
  walk : string -> list string;          (* the files [os.walk] meets *)
  now_year : Z                           (* [datetime.datetime.now().year] *)
}.

Record arguments : Type := Arguments_ {
  update_current_year : bool;
  git_modified_only : bool
}.

(** [[re.compile(file) for file in ExemptFiles]] *)
Fixpoint compile_all (E : env) (ps : list string) : option (list regex) :=
  match ps with
  | [] => Some []
  | p :: ps' =>
      match re_compile E p with
      | None => None
      | Some r =>
          match compile_all E ps' with
          | None => None
          | Some rs => Some (r :: rs)
          end
      end
  end.

(** [getAllFilesUnderDir(root, pathFilter=checkThisFile)] *)
Definition getAllFilesUnderDir (E : env) (exempt : list regex) (root : string)
  : io (list file_arg) :=
  emit (EvWalk root) ;;;
  fun w =>
    (Ok (List.filter (checkThisFile exempt w) (map Path (walk E root))), w).

(** The loop over the directories given on the command line. *)
Fixpoint collect_dirs (E : env) (exempt : list regex) (ds : list string)
    (files : list file_arg) : io (list file_arg) :=
  match ds with
  | [] => ret files
  | d :: ds' =>
      if isdir E d then
        let* more := getAllFilesUnderDir E exempt d in
        collect_dirs E exempt ds' (files ++ more)
      else raise (ValueError d)
  end.

(** [for f in files: errors += checkCopyright(f, args.update_current_year)] *)
Fixpoint check_all (E : env) (update : bool) (files : list file_arg)
    (errors : list issue) : io (list issue) :=
  match files with
  | [] => ret errors
  | f :: files' =>
      let* es := checkCopyright (now_year E) f update in
      check_all E update files' (errors ++ es)
  end.

Fixpoint print_issues (errors : list issue) : io unit :=
  match errors with
  | [] => ret tt
  | e :: rest =>
      print (PIssue (i_path e) (i_line e) (i_msg e)) ;;;
      print_issues rest
  end.

(** The files to check: what git sees as modified, or what is under the
    directories given. *)
Definition select_files (E : env) (args : arguments) (exempt : list regex)
    (dirs : list string) : io (list file_arg) :=
  if git_modified_only args then
    print PGitInfo ;;;
    fun w =>
      let files :=
        List.filter (checkThisFile exempt w) (modifiedFiles E) in
      (print (PChecking files) ;;; ret files) w
  else collect_dirs E exempt (map (abspath E) dirs) [].

(** The end of the main function: the issues are printed, and the value
    to return is 1 when there is one, 0 otherwise.  The script lives in
    [ci/checks], so that [path_parts.index("ci")] finds its index; the
    hint is printed with the number of fixable issues. *)
Definition report (errors : list issue) : io Z :=
  if (0 <? length errors)%nat then
    (if existsb (fun e => negb (bool_decide (fixable e))) errors
     then print PIncomplete else ret tt) ;;;
    print_issues errors ;;;
    print PBlank ;;;
    let n_fixable := length (filter fixable errors) in
    (if (0 <? n_fixable)%nat then print (PHint n_fixable) else ret tt) ;;;
    ret 1
  else ret 0.

Definition checkCopyright_main (E : env) (args : arguments)
    (dirs : list string) : io Z :=
  match compile_all E (ExemptFiles E) with
  | None => print PRegexError ;;; ret 1
  | Some exempt =>
      let* files := select_files E args exempt dirs in
      let* errors := check_all E (update_current_year args) files [] in
      report errors
  end.

(** [sys.exit(checkCopyright_main())]: the status of the process; an
    exception that nothing catches ends it with status 1. *)
Definition exit_status (r : result Z) : Z :=
  match r with
  | Ok v => v
  | Raise _ => 1
  end.


(** ** Devices of the proofs *)

(** *** The two patterns as deterministic scanners

    The backtracking of the matcher never pays on the two header
    patterns: each of them is equal to a scanner that takes every greedy
    step once and for all.  The scanners are only used in proofs. *)

Fixpoint strip_lit (l s : text) : option text :=
  match l with
  | [] => Some s
  | c :: l' =>
      match s with
      | x :: s' => if Ascii.eqb x c then strip_lit l' s' else None
      | [] => None
      end
  end.

Fixpoint skip_sp (s : text) : text :=
  match s with
  | x :: s' => if Ascii.eqb x sp then skip_sp s' else s
  | [] => []
  end.

Definition opt_lit (l s : text) : text :=
  match strip_lit l s with
  | Some r => r
  | None => s
  end.

Definition digits4 (s : text) : option (text * text) :=
  match s with
  | d1 :: d2 :: d3 :: d4 :: r =>
      if is_digit d1 && is_digit d2 && is_digit d3 && is_digit d4
      then Some ([d1; d2; d3; d4], r) else None
  | _ => None
  end.

Definition d_corp (s : text) : option text :=
  match strip_lit (txt "ORPORATION") s with
  | Some r => Some r
  | None => strip_lit (txt "orporation") s
  end.

Definition d_tail (s : text) : option text :=
  match strip_lit (txt "NVIDIA C") (skip_sp (opt_lit (txt ",") s)) with
  | Some r => d_corp r
  | None => None
  end.

Definition d_head (s : text) : option (text * text) :=
  match strip_lit (txt "Copyright") s with
  | Some s1 => digits4 (skip_sp (opt_lit (txt "(c)") (skip_sp s1)))
  | None => None
  end.

Definition direct_simple (s : text) : option (caps * text) :=
  match d_head s with
  | Some (d, s5) =>
      match d_tail s5 with
      | Some r => Some ([(1%nat, d)], r)
      | None => None
      end
  | None => None
  end.

Definition direct_double (s : text) : option (caps * text) :=
  match d_head s with
  | Some (d1, s5) =>
      match strip_lit (txt "-") s5 with
      | Some s6 =>
          match digits4 s6 with
          | Some (d2, s7) =>
              match d_tail s7 with
              | Some r => Some ([(2%nat, d2); (1%nat, d1)], r)
              | None => None
              end
          | None => None
          end
      | None => None
      end
  | None => None
  end.


(** The common parts of the two patterns: what follows the years,
    [,? *NVIDIA C(?:ORPORATION|orporation)], and what comes before,
    [Copyright *(?:\(c\))? *(\d{4})], followed by [r]. *)
Definition re_tail : regex :=
  seqs [ Opt (Chr ","); Star (Chr sp); lit "NVIDIA C";
         Alt (lit "ORPORATION") (lit "orporation") ].

Definition re_head_then (r : regex) : regex :=
  Seq (lit "Copyright") (Seq (Star (Chr sp)) (Seq (Opt (lit "(c)"))
    (Seq (Star (Chr sp)) (Seq (Group 1 (rep 4 Digit)) r)))).


(** *** The spans of text the patterns match *)

Definition spaces (n : nat) : text := repeat sp n.

Definition opt_text (b : bool) (l : text) : text := if b then l else [].

Definition corp (up : bool) : text :=
  if up then txt "ORPORATION" else txt "orporation".

Definition head_text (n1 : nat) (c : bool) (n2 : nat) : text :=
  txt "Copyright" ++ spaces n1 ++ opt_text c (txt "(c)") ++ spaces n2.

Definition tail_text (comma : bool) (n3 : nat) (up : bool) : text :=
  opt_text comma (txt ",") ++ spaces n3 ++ txt "NVIDIA C" ++ corp up.

Definition four_digits (d : text) : Prop :=
  length d = 4%nat /\ forallb is_digit d = true.

(** [M] is a single-year header with the year [d]. *)
Definition simple_span (M d : text) : Prop :=
  exists n1 c n2 comma n3 up,
    four_digits d /\
    M = head_text n1 c n2 ++ d ++ tail_text comma n3 up.

(** [M] is a year-range header with the years [d1] and [d2]. *)
Definition double_span (M d1 d2 : text) : Prop :=
  exists n1 c n2 comma n3 up,
    four_digits d1 /\ four_digits d2 /\
    M = head_text n1 c n2 ++ d1 ++ txt "-" ++ d2 ++ tail_text comma n3 up.

(** [B], followed by something, could be the start of [Cop...]. *)
Definition like_cop (B : text) : bool :=
  match B with
  | [] => false
  | a :: B1 =>
      Ascii.eqb a "C" &&
      match B1 with
      | [] => true
      | b :: B2 =>
          Ascii.eqb b "o" &&
          match B2 with
          | [] => true
          | c :: _ => Ascii.eqb c "p"
          end
      end
  end.

(** No suffix of [u], empty one apart, could be the start of [Cop...]. *)
Fixpoint quiet (u : text) : bool :=
  match u with
  | [] => true
  | _ :: u' => negb (like_cop u) && quiet u'
  end.

Definition not_C (c : ascii) : bool := negb (Ascii.eqb c "C").
Definition not_nl (c : ascii) : bool := negb (Ascii.eqb c nl).
Definition not_cr (c : ascii) : bool := negb (Ascii.eqb c cr).
Definition not_brk (c : ascii) : bool := not_nl c && not_cr c.
Definition plain (c : ascii) : bool := not_C c && not_brk c.

(** What the proofs need to know of a matched span. *)
Definition header_span (M : text) : Prop :=
  strip_lit (txt "Cop") M <> None /\
  quiet (tail M) = true /\
  forallb not_brk M = true.

(** A matcher whose matches are header spans, and which reads nothing
    beyond the span it matches. *)
Definition spanning (p : text -> option (caps * text)) : Prop :=
  forall s g r, p s = Some (g, r) ->
    exists M, s = M ++ r /\ header_span M /\
              forall X, p (M ++ X) = Some (g, X).


(** Two texts that are equal, or equal up to a place where both go on
    with [Cop]. *)
Definition same_until_cop (x y : text) : Prop :=
  x = y \/
  exists P X Y, x = P ++ txt "Cop" ++ X /\ y = P ++ txt "Cop" ++ Y.

(** *** What [replaceCurrentYear] is meant to do

    [Rewritten c line out]: reading [line] from left to right, every
    occurrence of one of the two patterns has been replaced by [c] and
    every other character has been kept. *)
Inductive Rewritten (c : text) : text -> text -> Prop :=
| Rw_end : Rewritten c [] []
| Rw_occ (M rest out : text) (g : caps) :
    M <> [] ->
    match_at CheckSimple (M ++ rest) = Some (g, rest) \/
    match_at CheckDouble (M ++ rest) = Some (g, rest) ->
    Rewritten c rest out ->
    Rewritten c (M ++ rest) (c ++ out)
| Rw_keep (x : ascii) (s out : text) :
    match_at CheckSimple (x :: s) = None ->
    match_at CheckDouble (x :: s) = None ->
    Rewritten c s out ->
    Rewritten c (x :: s) (x :: out).


(** The four decimal digits of a year between 0 and 9999. *)
Definition four_digit_text (n : Z) : text :=
  [ digit_char (n / 1000); digit_char (n / 100 mod 10);
    digit_char (n / 10 mod 10); digit_char (n mod 10) ].

Fixpoint text_eqb (a b : text) : bool :=
  match a, b with
  | [], [] => true
  | x :: a', y :: b' => Ascii.eqb x y && text_eqb a' b'
  | _, _ => false
  end.

Definition format_checked (n : Z) : bool :=
  text_eqb (format_04d n) (four_digit_text n)
  && forallb is_digit (four_digit_text n)
  && (int_of (four_digit_text n) =? n).

Definition ten : list Z := [0; 1; 2; 3; 4; 5; 6; 7; 8; 9].



(** *** The scan, line by line *)

(** The line carries a header the patterns recognise. *)
Definition matched (line : text) : bool :=
  match getCopyrightYears line with
  | Some _ => true
  | None => false
  end.

(** The years of the line include the current year. *)
Definition valid (thisYear : Z) (line : text) : bool :=
  match getCopyrightYears line with
  | Some (s, e) => (s <=? thisYear) && (thisYear <=? e)
  | None => false
  end.

(** The replacement the scan computes for a line, if any. *)
Definition fix_of (thisYear : Z) (line : text) : option text :=
  match getCopyrightYears line with
  | Some (s, e) =>
      if e <? thisYear then Some (replaceCurrentYear line s thisYear)
      else if thisYear <? s then Some (replaceCurrentYear line thisYear e)
      else None
  | None => None
  end.

(** The issues the scan collects at line number [n]. *)
Definition line_issues (thisYear : Z) (path : string) (n : nat) (line : text)
  : list issue :=
  match getCopyrightYears line with
  | None => []
  | Some (s, e) =>
      (if e <? s then [ Issue path n msg_inverted None ] else []) ++
      (if (thisYear <? s) || (e <? thisYear)
       then [ Issue path n msg_not_current (fix_of thisYear line) ]
       else [])
  end.

(** The issues collected on [lines], the first of which has number
    [n + 1]. *)
Fixpoint issues_from (thisYear : Z) (path : string) (n : nat)
    (lines : list text) : list issue :=
  match lines with
  | [] => []
  | l :: ls =>
      line_issues thisYear path (S n) l ++ issues_from thisYear path (S n) ls
  end.

(** A line as the fix leaves it. *)
Definition patch_line (thisYear : Z) (line : text) : text :=
  default line (fix_of thisYear line).


(** The world after the fix of a file has been written. *)
Definition patched_world (thisYear : Z) (path : string) (lines : list text)
    (w : world) : world :=
  {| fs := <[ path := concat (map (patch_line thisYear) lines) ]> (fs w);
     log := log w ++
       [ EvPrint (PChanging path
           (map i_line (filter fixable (issues_of thisYear path lines))));
         EvWrite path utf_8 ] |}.

(** The fix is written: asked for, no valid line, and a header found. *)
Definition writes (thisYear : Z) (update : bool) (lines : list text) : bool :=
  update && negb (existsb (valid thisYear) lines) && existsb matched lines.


(** A world with one file and nothing done yet. *)
Definition one_file (p : string) (content : text) : world :=
  {| fs := {[ p := content ]}; log := [] |}.


(** The years of the line are in the wrong order. *)
Definition inverted (line : text) : bool :=
  match getCopyrightYears line with
  | Some (s, e) => e <? s
  | None => false
  end.

Definition is_inverted_issue (x : issue) : Prop := i_msg x = msg_inverted.

#[local] Instance is_inverted_issue_dec (x : issue) :
  Decision (is_inverted_issue x).
Proof. unfold is_inverted_issue. apply _. Defined.

(** One inverted-range issue, without a replacement, for each line whose
    years are in the wrong order; the first line has number [n + 1]. *)
Fixpoint inverted_issues (path : string) (n : nat) (lines : list text)
  : list issue :=
  match lines with
  | [] => []
  | l :: ls =>
      (if inverted l then [ Issue path (S n) msg_inverted None ] else [])
      ++ inverted_issues path (S n) ls
  end.


(** *** Lines as [readlines] gives them *)

(** A line that ends with its only newline. *)
Definition terminated (l : text) : Prop :=
  exists body, l = body ++ [nl] /\ forallb not_nl body = true.

(** A last line without a newline. *)
Definition unterminated (l : text) : Prop :=
  l <> [] /\ forallb not_nl l = true.

(** Every line is terminated, but possibly the last. *)
Fixpoint wf_lines (L : list text) : Prop :=
  match L with
  | [] => True
  | l :: L' => (terminated l /\ wf_lines L') \/ (L' = [] /\ unterminated l)
  end.


(** *** Runs of the main function *)

(** Events of directory walks only. *)
Definition walk_events (l : list event) : Prop :=
  Forall (fun ev => exists d, ev = EvWalk d) l.

(** A stand-in for [re.compile], for examples: patterns made of plain
    characters and dots; a pattern with a parenthesis, a bracket or a
    repetition is refused, as [re.compile] refuses the pattern [(]. *)
Definition plain_pattern_char (c : ascii) : bool :=
  negb (existsb (Ascii.eqb c) (txt "()[]{}*+?|\^$")).

Definition re_compile_plain (s : string) : option regex :=
  if forallb plain_pattern_char (txt s)
  then Some (seqs (map (fun c => if Ascii.eqb c "." then AnyChar else Chr c)
                       (txt s)))
  else None.

(** The environment of the examples: the exemption of the repository, one
    directory [src] with one file, nothing modified in git, in 2024. *)
Definition example_env : env :=
  {| re_compile := re_compile_plain;
     ExemptFiles := [ "cpp/include/cudf_test/cxxopts.hpp"%string ];
     modifiedFiles := [];
     abspath := fun d => d;
     isdir := fun d => String.eqb d "src";
     walk := fun d => [ "src/a.py"%string ];
     now_year := 2024 |}.

Definition broken_env : env :=
  {| re_compile := re_compile_plain;
     ExemptFiles := [ "("%string ];
     modifiedFiles := [];
     abspath := fun d => d;
     isdir := fun d => String.eqb d "src";
     walk := fun d => [ "src/a.py"%string ];
     now_year := 2024 |}.


(** ** Devices for the patterns of [FilesToCheck] *)

(** The ends of a name that [FilesToCheck] accepts. *)
Definition checked_endings : list string :=
  [ ".cmake"; ".cpp"; ".cu"; ".cuh"; ".h"; ".hpp"; ".sh"; ".pxd"; ".py";
    ".pyx"; "CMakeLists.txt"; "CMakeLists_standalone.txt"; "setup.cfg";
    ".flake8.cython"; "meta.yaml" ]%string.

(** The texts a pattern made of characters, sequences, alternatives and
    groups matches. *)
Fixpoint words (r : regex) : option (list text) :=
  match r with
  | Chr c => Some [[c]]
  | Eps => Some [[]]
  | Seq r1 r2 =>
      match words r1, words r2 with
      | Some L1, Some L2 =>
          Some (flat_map (fun a => map (fun b => a ++ b) L2) L1)
      | _, _ => None
      end
  | Alt r1 r2 =>
      match words r1, words r2 with
      | Some L1, Some L2 => Some (L1 ++ L2)
      | _, _ => None
      end
  | Group _ r1 => words r1
  | _ => None
  end.

(** The same for such a pattern followed by [$]. *)
Fixpoint words_eos (r : regex) : option (list text) :=
  match r with
  | Seq Eos Eps => Some [[]]
  | Seq r1 r2 =>
      match words r1, words_eos r2 with
      | Some L1, Some L2 =>
          Some (flat_map (fun a => map (fun b => a ++ b) L2) L1)
      | _, _ => None
      end
  | _ => None
  end.

(** ** The two ways of reading a file *)

(** A text whose only line boundary is [\n]: no [\r] and none of the
    other boundaries of [str.splitlines]. *)
Definition newline_only (s : text) : bool :=
  forallb (fun c => Ascii.eqb c nl
                    || negb (Ascii.eqb c cr || is_linebreak c)) s.

(** ** The target branch of [modifiedFiles] *)

(** [s.lstrip(chars)]: the leading characters that are in [chars] are
    removed. *)
Fixpoint lstrip (chars s : text) : text :=
  match s with
  | [] => []
  | c :: s' => if existsb (Ascii.eqb c) chars then lstrip chars s' else s
  end.

(** [target_branch] in [modifiedFiles]: the variable [TARGET_BRANCH] of
    the environment, or else what [git describe] prints, stripped. *)
Definition target_branch (TARGET_BRANCH : option text) (described : text)
  : text :=
  match TARGET_BRANCH with
  | Some b => b
  | None => lstrip (txt "heads/") described
  end.

(** ** The documentation build: [docs/cudf/source/conf.py] *)

Module Conf.

Definition rubric_attributes : string := ".. rubric:: Attributes".

(** The names of the set literal, as written: the last one twice. *)
Definition index_classes : list string :=
  [ "cudf.RangeIndex"; "cudf.Int64Index"; "cudf.UInt64Index";
    "cudf.Float64Index"; "cudf.CategoricalIndex"; "cudf.IntervalIndex";
    "cudf.MultiIndex"; "cudf.DatetimeIndex"; "cudf.TimedeltaIndex";
    "cudf.TimedeltaIndex" ]%string.

(** [l.index(x)]: the first position of [x]; [None] stands for
    [ValueError]. *)
Fixpoint list_index (x : string) (l : list string) : option nat :=
  match l with
  | [] => None
  | y :: l' =>
      if String.eqb y x then Some O
      else match list_index x l' with
           | Some i => Some (S i)
           | None => None
           end
  end.

(** [process_class_docstrings]: the result is the list [lines] as the
    handler leaves it. *)
Definition process_class_docstrings (what name : string)
    (lines : list string) : result (list string) :=
  if String.eqb what "class" then
    if existsb (String.eqb name) index_classes then
      match list_index rubric_attributes lines with
      | Some cut_index => Ok (take cut_index lines)
      | None => Raise (ValueError rubric_attributes)
      end
    else Ok lines
  else Ok lines.

End Conf.

(** ** The files of a run *)

(** The files [checkCopyright_main] selects in the world [w]: the files
    that pass [checkThisFile] among the modified files, or among the
    files met under the directories, in the order of the arguments. *)
Definition selected (E : env) (args : arguments) (exempt : list regex)
    (dirs : list string) (w : world) : list file_arg :=
  if git_modified_only args then
    List.filter (checkThisFile exempt w) (modifiedFiles E)
  else
    flat_map (fun d => List.filter (checkThisFile exempt w)
                         (map Path (walk E d)))
      (map (abspath E) dirs).

(** ** The lines of a file to check *)

(** The lines [checkCopyright] reads for [f] in the world [w]. *)
Definition lines_of (w : world) (f : file_arg) : list text :=
  match f with
  | Path p =>
      match fs w !! p with
      | Some content => readlines content
      | None => []
      end
  | Diff _ blob => splitlines blob
  end.

(** * Proofs *)

(** ** The matcher on the building blocks of the patterns *)

Lemma run_lit_chars {A : Type} (l s : text) (g : caps)
    (k : text -> caps -> option A) :
  run (lit_chars l) s g k =
  match strip_lit l s with
  | Some r => k r g
  | None => None
  end.
Proof.
  revert s. induction l as [|c l IH]; intros s; simpl; [reflexivity|].
  destruct s as [|x s]; [reflexivity|].
  destruct (Ascii.eqb x c); [apply IH | reflexivity].
Qed.

Lemma skip_sp_idem (s : text) : skip_sp (skip_sp s) = skip_sp s.
Proof.
  induction s as [|x s IH]; simpl; [reflexivity|].
  destruct (Ascii.eqb x sp) eqn:E; [exact IH|].
  simpl. rewrite E. reflexivity.
Qed.

Lemma skip_sp_length (s : text) : (length (skip_sp s) <= length s)%nat.
Proof.
  induction s as [|x s IH]; simpl; [lia|].
  destruct (Ascii.eqb x sp); simpl; lia.
Qed.

(** A greedy run of spaces never has to give a space back, as long as
    what follows cannot do better with a space in front of it. *)
Lemma run_star_sp {A : Type} (s : text) (g : caps)
    (k : text -> caps -> option A) :
  (forall s', k (sp :: s') g = None \/ k (sp :: s') g = k (skip_sp s') g) ->
  run (Star (Chr sp)) s g k = k (skip_sp s) g.
Proof.
  intros Hk. simpl.
  generalize (Nat.le_refl (length s)).
  generalize (length s) at 2 3 as fuel.
  intros fuel. revert s.
  induction fuel as [|fuel IH]; intros s Hlen.
  - destruct s; [reflexivity | simpl in Hlen; lia].
  - destruct s as [|x s]; [reflexivity|].
    simpl. destruct (Ascii.eqb x sp) eqn:E.
    + apply Ascii.eqb_eq in E. subst x.
      replace (length s <? S (length s))%nat with true
        by (symmetry; apply Nat.ltb_lt; lia).
      rewrite IH by (simpl in Hlen; lia).
      destruct (k (skip_sp s) g) eqn:Ek; [reflexivity|].
      destruct (Hk s) as [H|H]; rewrite H; [reflexivity | exact Ek].
    + reflexivity.
Qed.

Lemma run_opt_lit {A : Type} (l s : text) (g : caps)
    (k : text -> caps -> option A) :
  (forall r, strip_lit l s = Some r -> k s g = None) ->
  run (Opt (lit_chars l)) s g k = k (opt_lit l s) g.
Proof.
  intros Hk. simpl. rewrite run_lit_chars. unfold opt_lit.
  destruct (strip_lit l s) as [r|] eqn:E; [|reflexivity].
  destruct (k r g); [reflexivity|]. eapply Hk; reflexivity.
Qed.

Lemma run_group_digits4 {A : Type} (n : nat) (s : text) (g : caps)
    (k : text -> caps -> option A) :
  run (Group n (rep 4 Digit)) s g k =
  match digits4 s with
  | Some (d, r) => k r ((n, d) :: g)
  | None => None
  end.
Proof.
  destruct s as [|d1 [|d2 [|d3 [|d4 r]]]]; simpl;
    try reflexivity;
    repeat match goal with
           | |- context [is_digit ?d] => destruct (is_digit d); simpl
           end; try reflexivity.
  replace (S (S (S (S (length r)))) - length r)%nat with 4%nat by lia.
  reflexivity.
Qed.

Lemma strip_upper_not_lower (s r : text) :
  strip_lit (txt "ORPORATION") s = Some r ->
  strip_lit (txt "orporation") s = None.
Proof.
  destruct s as [|x s]; simpl; [discriminate|].
  destruct (Ascii.eqb x "O") eqn:E; [|discriminate].
  apply Ascii.eqb_eq in E. subst x. reflexivity.
Qed.

Lemma run_alt_corp {A : Type} (s : text) (g : caps)
    (k : text -> caps -> option A) :
  run (Alt (lit "ORPORATION") (lit "orporation")) s g k =
  match d_corp s with
  | Some r => k r g
  | None => None
  end.
Proof.
  unfold lit. cbn [run]. rewrite !run_lit_chars. unfold d_corp.
  destruct (strip_lit (txt "ORPORATION") s) as [r|] eqn:E; [|reflexivity].
  rewrite (strip_upper_not_lower _ _ E). destruct (k r g); reflexivity.
Qed.


Lemma run_opt_chr {A : Type} (c : ascii) (s : text) (g : caps)
    (k : text -> caps -> option A) :
  (forall r, strip_lit [c] s = Some r -> k s g = None) ->
  run (Opt (Chr c)) s g k = k (opt_lit [c] s) g.
Proof.
  intros Hk. unfold opt_lit. simpl.
  destruct s as [|x s]; [reflexivity|].
  destruct (Ascii.eqb x c) eqn:E; [|reflexivity].
  destruct (k s g); [reflexivity|].
  eapply Hk. simpl. rewrite E. reflexivity.
Qed.

Lemma run_Seq {A : Type} (r1 r2 : regex) (s : text) (g : caps)
    (k : text -> caps -> option A) :
  run (Seq r1 r2) s g k = run r1 s g (fun s' g' => run r2 s' g' k).
Proof. reflexivity. Qed.

Lemma run_Chr {A : Type} (c : ascii) (s : text) (g : caps)
    (k : text -> caps -> option A) :
  run (Chr c) s g k =
  match s with
  | x :: s' => if Ascii.eqb x c then k s' g else None
  | [] => None
  end.
Proof. reflexivity. Qed.

Lemma digits4_sp (s : text) : digits4 (sp :: s) = None.
Proof. destruct s as [|? [|? [|? ?]]]; reflexivity. Qed.

Lemma digits4_paren (s : text) : digits4 ("("%char :: s) = None.
Proof. destruct s as [|? [|? [|? ?]]]; reflexivity. Qed.

Lemma run_re_tail {A : Type} (s : text) (g : caps)
    (k : text -> caps -> option A) :
  run re_tail s g k =
  match d_tail s with
  | Some r => k r g
  | None => None
  end.
Proof.
  assert (Hstar : forall s0 g0,
    run (seqs [ Star (Chr sp); lit "NVIDIA C";
                Alt (lit "ORPORATION") (lit "orporation") ]) s0 g0 k =
    match strip_lit (txt "NVIDIA C") (skip_sp s0) with
    | Some r => match d_corp r with Some r' => k r' g0 | None => None end
    | None => None
    end).
  { intros s0 g0. unfold seqs. rewrite run_Seq, run_star_sp.
    - rewrite run_Seq. unfold lit at 1. rewrite run_lit_chars.
      destruct (strip_lit _ _); [|reflexivity].
      rewrite run_Seq, run_alt_corp. reflexivity.
    - intros s'. left. reflexivity. }
  change re_tail with
    (Seq (Opt (Chr ",")) (seqs [ Star (Chr sp); lit "NVIDIA C";
                Alt (lit "ORPORATION") (lit "orporation") ])).
  rewrite run_Seq, run_opt_chr.
  - rewrite Hstar. unfold d_tail.
    change (txt ",") with [","%char].
    destruct (strip_lit _ _); reflexivity.
  - intros r Hr. rewrite Hstar.
    destruct s as [|x s]; [discriminate|]. simpl in Hr.
    destruct (Ascii.eqb x ",") eqn:E; [|discriminate].
    apply Ascii.eqb_eq in E. subst x. reflexivity.
Qed.

Lemma run_re_head_then {A : Type} (r : regex) (s : text) (g : caps)
    (k : text -> caps -> option A) :
  run (re_head_then r) s g k =
  match d_head s with
  | Some (d, s5) => run r s5 ((1%nat, d) :: g) k
  | None => None
  end.
Proof.
  (* the second run of spaces, then the first year *)
  assert (H2 : forall s0 g0,
    run (Seq (Star (Chr sp)) (Seq (Group 1 (rep 4 Digit)) r)) s0 g0 k =
    match digits4 (skip_sp s0) with
    | Some (d, s5) => run r s5 ((1%nat, d) :: g0) k
    | None => None
    end).
  { intros s0 g0. rewrite run_Seq, run_star_sp.
    - rewrite run_Seq. apply run_group_digits4.
    - intros s'. left.
      rewrite run_Seq, run_group_digits4, digits4_sp. reflexivity. }
  (* the optional (c) *)
  assert (H3 : forall s0 g0,
    run (Seq (Opt (lit "(c)"))
           (Seq (Star (Chr sp)) (Seq (Group 1 (rep 4 Digit)) r))) s0 g0 k =
    match digits4 (skip_sp (opt_lit (txt "(c)") s0)) with
    | Some (d, s5) => run r s5 ((1%nat, d) :: g0) k
    | None => None
    end).
  { intros s0 g0. rewrite run_Seq. unfold lit. rewrite run_opt_lit.
    - apply H2.
    - intros r0 Hr0. rewrite H2.
      destruct s0 as [|x s0]; [discriminate|]. simpl in Hr0.
      destruct (Ascii.eqb x "(") eqn:E; [|discriminate].
      apply Ascii.eqb_eq in E. subst x. simpl skip_sp.
      rewrite digits4_paren. reflexivity. }
  unfold re_head_then. rewrite run_Seq. unfold lit at 1.
  rewrite run_lit_chars.
  unfold d_head. destruct (strip_lit (txt "Copyright") s) as [s1|]; [|reflexivity].
  rewrite run_Seq, run_star_sp.
  - apply H3.
  - intros s'. rewrite !H3.
    change (opt_lit (txt "(c)") (sp :: s')) with (sp :: s').
    change (skip_sp (sp :: s')) with (skip_sp s').
    destruct (strip_lit (txt "(c)") (skip_sp s')) as [r0|] eqn:E.
    + left. destruct (skip_sp s') as [|x t]; [discriminate|].
      simpl in E. destruct (Ascii.eqb x "(") eqn:Ex; [|discriminate].
      apply Ascii.eqb_eq in Ex. subst x. rewrite digits4_paren. reflexivity.
    + right. unfold opt_lit. rewrite E, skip_sp_idem. reflexivity.
Qed.

(** The two patterns are their scanners. *)
Lemma match_at_CheckSimple (s : text) :
  match_at CheckSimple s = direct_simple s.
Proof.
  unfold match_at.
  change CheckSimple with (re_head_then re_tail).
  rewrite run_re_head_then. unfold direct_simple.
  destruct (d_head s) as [[d s5]|]; [|reflexivity].
  rewrite run_re_tail. reflexivity.
Qed.

Lemma match_at_CheckDouble (s : text) :
  match_at CheckDouble s = direct_double s.
Proof.
  unfold match_at.
  change CheckDouble with
    (re_head_then (Seq (Chr "-") (Seq (Group 2 (rep 4 Digit)) re_tail))).
  rewrite run_re_head_then. unfold direct_double.
  destruct (d_head s) as [[d1 s5]|]; [|reflexivity].
  rewrite run_Seq, run_Chr. destruct s5 as [|x s6]; [reflexivity|].
  change (strip_lit (txt "-") (x :: s6))
    with (if Ascii.eqb x "-" then Some s6 else None).
  destruct (Ascii.eqb x "-"); [|reflexivity].
  rewrite run_Seq, run_group_digits4.
  destruct (digits4 s6) as [[d2 s7]|]; [|reflexivity].
  rewrite run_re_tail. reflexivity.
Qed.

(** ** The spans matched by the scanners *)

Lemma strip_lit_Some (l s r : text) :
  strip_lit l s = Some r <-> s = l ++ r.
Proof.
  revert s. induction l as [|c l IH]; intros s; simpl.
  - split; [intros [= ->]; reflexivity | intros ->; reflexivity].
  - destruct s as [|x s]; [split; discriminate|].
    destruct (Ascii.eqb x c) eqn:E.
    + apply Ascii.eqb_eq in E. subst x. rewrite IH.
      split; [intros ->; reflexivity | intros [= ->]; reflexivity].
    + split; [discriminate|]. intros [= -> _].
      rewrite Ascii.eqb_refl in E. discriminate.
Qed.

Lemma strip_lit_app (l X : text) : strip_lit l (l ++ X) = Some X.
Proof. apply strip_lit_Some. reflexivity. Qed.

Lemma skip_sp_spaces (n : nat) (t : text) :
  skip_sp (spaces n ++ t) = skip_sp t.
Proof. induction n as [|n IH]; simpl; [reflexivity | exact IH]. Qed.

Lemma skip_sp_spec (s : text) : exists n, s = spaces n ++ skip_sp s.
Proof.
  induction s as [|x s [n IH]]; simpl.
  - exists 0%nat. reflexivity.
  - destruct (Ascii.eqb x sp) eqn:E.
    + apply Ascii.eqb_eq in E. subst x. exists (S n). simpl. f_equal. exact IH.
    + exists 0%nat. reflexivity.
Qed.

Lemma opt_lit_spec (l s : text) :
  exists b, s = opt_text b l ++ opt_lit l s.
Proof.
  unfold opt_lit. destruct (strip_lit l s) as [r|] eqn:E.
  - exists true. apply strip_lit_Some in E. exact E.
  - exists false. reflexivity.
Qed.

Lemma digit_not_sp (x : ascii) : is_digit x = true -> Ascii.eqb x sp = false.
Proof.
  intros H. destruct (Ascii.eqb x sp) eqn:E; [|reflexivity].
  apply Ascii.eqb_eq in E. subst x. discriminate.
Qed.

Lemma digit_not_paren (x : ascii) :
  is_digit x = true -> Ascii.eqb x "(" = false.
Proof.
  intros H. destruct (Ascii.eqb x "(") eqn:E; [|reflexivity].
  apply Ascii.eqb_eq in E. subst x. discriminate.
Qed.

Lemma digit_plain (x : ascii) : is_digit x = true -> plain x = true.
Proof.
  intros H. unfold plain, not_brk, not_C, not_nl, not_cr.
  destruct (Ascii.eqb x "C") eqn:E1.
  { apply Ascii.eqb_eq in E1. subst x. discriminate. }
  destruct (Ascii.eqb x nl) eqn:E2.
  { apply Ascii.eqb_eq in E2. subst x. discriminate. }
  destruct (Ascii.eqb x cr) eqn:E3.
  { apply Ascii.eqb_eq in E3. subst x. discriminate. }
  reflexivity.
Qed.

Lemma four_digits_inv (d : text) :
  four_digits d ->
  exists d1 d2 d3 d4, d = [d1; d2; d3; d4] /\
    is_digit d1 = true /\ is_digit d2 = true /\
    is_digit d3 = true /\ is_digit d4 = true.
Proof.
  intros [Hl Hd].
  destruct d as [|d1 [|d2 [|d3 [|d4 [|? ?]]]]]; try discriminate.
  simpl in Hd. repeat (apply andb_true_iff in Hd; destruct Hd as [? Hd]).
  exists d1, d2, d3, d4. repeat split; assumption.
Qed.

Lemma digits4_Some (s d r : text) :
  digits4 s = Some (d, r) -> s = d ++ r /\ four_digits d.
Proof.
  unfold digits4.
  destruct s as [|d1 [|d2 [|d3 [|d4 t]]]]; try discriminate.
  destruct (is_digit d1 && is_digit d2 && is_digit d3 && is_digit d4) eqn:E;
    [|discriminate].
  intros [= <- <-]. split; [reflexivity|]. split; [reflexivity|].
  simpl. rewrite andb_true_r, !andb_assoc. exact E.
Qed.

Lemma digits4_app (d X : text) :
  four_digits d -> digits4 (d ++ X) = Some (d, X).
Proof.
  intros H. destruct (four_digits_inv d H)
    as (d1 & d2 & d3 & d4 & -> & H1 & H2 & H3 & H4).
  simpl. rewrite H1, H2, H3, H4. reflexivity.
Qed.

Lemma d_head_inv (s d s5 : text) :
  d_head s = Some (d, s5) ->
  exists n1 c n2, s = head_text n1 c n2 ++ d ++ s5 /\ four_digits d.
Proof.
  unfold d_head. destruct (strip_lit (txt "Copyright") s) as [s1|] eqn:E1;
    [|discriminate].
  apply strip_lit_Some in E1. intros H.
  apply digits4_Some in H. destruct H as [H Hd].
  destruct (skip_sp_spec s1) as [n1 Hn1].
  destruct (opt_lit_spec (txt "(c)") (skip_sp s1)) as [c Hc].
  destruct (skip_sp_spec (opt_lit (txt "(c)") (skip_sp s1))) as [n2 Hn2].
  exists n1, c, n2. split; [|exact Hd].
  unfold head_text. rewrite <- !app_assoc.
  rewrite <- H, <- Hn2, <- Hc, <- Hn1. exact E1.
Qed.

Lemma skip_sp_digits (d X : text) :
  four_digits d -> skip_sp (d ++ X) = d ++ X.
Proof.
  intros H. destruct (four_digits_inv d H)
    as (d1 & d2 & d3 & d4 & -> & H1 & _).
  simpl. rewrite (digit_not_sp _ H1). reflexivity.
Qed.

Lemma opt_lit_c_digits (d X : text) :
  four_digits d -> opt_lit (txt "(c)") (d ++ X) = d ++ X.
Proof.
  intros H. destruct (four_digits_inv d H)
    as (d1 & d2 & d3 & d4 & -> & H1 & _).
  unfold opt_lit. simpl. rewrite (digit_not_paren _ H1). reflexivity.
Qed.

Lemma d_head_intro (n1 : nat) (c : bool) (n2 : nat) (d X : text) :
  four_digits d ->
  d_head (head_text n1 c n2 ++ d ++ X) = Some (d, X).
Proof.
  intros Hd. unfold d_head, head_text. rewrite <- !app_assoc.
  rewrite strip_lit_app, skip_sp_spaces.
  destruct c; unfold opt_text.
  - change (skip_sp (txt "(c)" ++ spaces n2 ++ d ++ X))
      with (txt "(c)" ++ spaces n2 ++ d ++ X).
    unfold opt_lit. rewrite strip_lit_app.
    rewrite skip_sp_spaces, skip_sp_digits by exact Hd.
    apply digits4_app, Hd.
  - rewrite app_nil_l, skip_sp_spaces, skip_sp_digits by exact Hd.
    rewrite opt_lit_c_digits, skip_sp_digits by exact Hd.
    apply digits4_app, Hd.
Qed.

Lemma d_corp_inv (s r : text) :
  d_corp s = Some r -> exists up, s = corp up ++ r.
Proof.
  unfold d_corp. destruct (strip_lit (txt "ORPORATION") s) as [r'|] eqn:E.
  - intros [= ->]. exists true. apply strip_lit_Some, E.
  - intros H. exists false. apply strip_lit_Some, H.
Qed.

Lemma d_corp_intro (up : bool) (X : text) : d_corp (corp up ++ X) = Some X.
Proof. destruct up; reflexivity. Qed.

Lemma d_tail_inv (s r : text) :
  d_tail s = Some r -> exists comma n3 up, s = tail_text comma n3 up ++ r.
Proof.
  unfold d_tail.
  destruct (strip_lit (txt "NVIDIA C") (skip_sp (opt_lit (txt ",") s)))
    as [t|] eqn:E; [|discriminate].
  apply strip_lit_Some in E. intros H. apply d_corp_inv in H.
  destruct H as [up ->].
  destruct (opt_lit_spec (txt ",") s) as [comma Hc].
  destruct (skip_sp_spec (opt_lit (txt ",") s)) as [n3 Hn3].
  exists comma, n3, up. unfold tail_text. rewrite <- !app_assoc.
  rewrite <- E, <- Hn3. exact Hc.
Qed.

Lemma d_tail_intro (comma : bool) (n3 : nat) (up : bool) (X : text) :
  d_tail (tail_text comma n3 up ++ X) = Some X.
Proof.
  unfold d_tail, tail_text. rewrite <- !app_assoc.
  assert (H : skip_sp (opt_lit (txt ",")
                (opt_text comma (txt ",") ++ spaces n3 ++
                 txt "NVIDIA C" ++ corp up ++ X)) =
              txt "NVIDIA C" ++ corp up ++ X).
  { destruct comma; unfold opt_text.
    - unfold opt_lit. rewrite strip_lit_app. rewrite skip_sp_spaces.
      reflexivity.
    - destruct n3 as [|n3].
      + reflexivity.
      + change (opt_lit (txt ",") ([] ++ spaces (S n3) ++
                  txt "NVIDIA C" ++ corp up ++ X))
          with (spaces (S n3) ++ txt "NVIDIA C" ++ corp up ++ X).
        rewrite skip_sp_spaces. reflexivity. }
  rewrite H, strip_lit_app. apply d_corp_intro.
Qed.

Lemma direct_simple_inv (s : text) (g : caps) (r : text) :
  direct_simple s = Some (g, r) ->
  exists M d, s = M ++ r /\ g = [(1%nat, d)] /\ simple_span M d.
Proof.
  unfold direct_simple.
  destruct (d_head s) as [[d s5]|] eqn:E1; [|discriminate].
  destruct (d_tail s5) as [r'|] eqn:E2; [|discriminate].
  intros [= <- <-].
  apply d_head_inv in E1. destruct E1 as (n1 & c & n2 & -> & Hd).
  apply d_tail_inv in E2. destruct E2 as (comma & n3 & up & ->).
  exists (head_text n1 c n2 ++ d ++ tail_text comma n3 up), d.
  split; [rewrite <- !app_assoc; reflexivity|].
  split; [reflexivity|].
  exists n1, c, n2, comma, n3, up. split; [exact Hd | reflexivity].
Qed.

Lemma direct_simple_intro (M d X : text) :
  simple_span M d -> direct_simple (M ++ X) = Some ([(1%nat, d)], X).
Proof.
  intros (n1 & c & n2 & comma & n3 & up & Hd & ->).
  unfold direct_simple. rewrite <- !app_assoc.
  rewrite d_head_intro by exact Hd. rewrite d_tail_intro. reflexivity.
Qed.

Lemma direct_double_inv (s : text) (g : caps) (r : text) :
  direct_double s = Some (g, r) ->
  exists M d1 d2, s = M ++ r /\ g = [(2%nat, d2); (1%nat, d1)] /\
                  double_span M d1 d2.
Proof.
  unfold direct_double.
  destruct (d_head s) as [[d1 s5]|] eqn:E1; [|discriminate].
  destruct (strip_lit (txt "-") s5) as [s6|] eqn:E2; [|discriminate].
  destruct (digits4 s6) as [[d2 s7]|] eqn:E3; [|discriminate].
  destruct (d_tail s7) as [r'|] eqn:E4; [|discriminate].
  intros [= <- <-].
  apply d_head_inv in E1. destruct E1 as (n1 & c & n2 & -> & Hd1).
  apply strip_lit_Some in E2. subst s5.
  apply digits4_Some in E3. destruct E3 as [-> Hd2].
  apply d_tail_inv in E4. destruct E4 as (comma & n3 & up & ->).
  exists (head_text n1 c n2 ++ d1 ++ txt "-" ++ d2 ++ tail_text comma n3 up),
    d1, d2.
  split; [rewrite <- !app_assoc; reflexivity|].
  split; [reflexivity|].
  exists n1, c, n2, comma, n3, up.
  split; [exact Hd1|]. split; [exact Hd2 | reflexivity].
Qed.

Lemma direct_double_intro (M d1 d2 X : text) :
  double_span M d1 d2 ->
  direct_double (M ++ X) = Some ([(2%nat, d2); (1%nat, d1)], X).
Proof.
  intros (n1 & c & n2 & comma & n3 & up & Hd1 & Hd2 & ->).
  unfold direct_double. rewrite <- !app_assoc.
  rewrite d_head_intro by exact Hd1. rewrite strip_lit_app.
  rewrite digits4_app by exact Hd2. rewrite d_tail_intro. reflexivity.
Qed.

(** ** Matched spans are header spans *)

Lemma like_cop_not_C (x : ascii) (u : text) :
  not_C x = true -> like_cop (x :: u) = false.
Proof.
  unfold not_C. intros H. simpl.
  destruct (Ascii.eqb x "C"); [discriminate | reflexivity].
Qed.

Lemma quiet_app_plain (u v : text) :
  forallb plain u = true -> quiet v = true -> quiet (u ++ v) = true.
Proof.
  intros Hu Hv. induction u as [|x u IH]; [exact Hv|].
  simpl in Hu. apply andb_true_iff in Hu. destruct Hu as [Hx Hu].
  apply andb_true_iff in Hx. destruct Hx as [Hx _].
  change ((x :: u) ++ v) with (x :: (u ++ v)).
  cbn [quiet]. rewrite (like_cop_not_C _ _ Hx). simpl. apply IH, Hu.
Qed.

Lemma quiet_suffix (u A B : text) :
  quiet u = true -> u = A ++ B -> B <> [] -> like_cop B = false.
Proof.
  revert u. induction A as [|a A IH]; intros u Hq -> HB.
  - destruct B as [|b B]; [congruence|].
    cbn [app quiet] in Hq. apply andb_true_iff in Hq. destruct Hq as [Hq _].
    apply negb_true_iff in Hq. exact Hq.
  - cbn [app quiet] in Hq. apply andb_true_iff in Hq. destruct Hq as [_ Hq].
    eapply IH; [exact Hq | reflexivity | exact HB].
Qed.

Lemma like_cop_start (B X : text) :
  B <> [] -> strip_lit (txt "Cop") (B ++ X) <> None -> like_cop B = true.
Proof.
  intros HB H. destruct B as [|a [|b [|c B]]]; [congruence| | |];
    cbn in H |- *.
  - destruct (Ascii.eqb a "C"); [reflexivity | destruct X; congruence].
  - destruct (Ascii.eqb a "C"); [|congruence].
    destruct (Ascii.eqb b "o"); [reflexivity | destruct X; congruence].
  - destruct (Ascii.eqb a "C"); [|congruence].
    destruct (Ascii.eqb b "o"); [|congruence].
    destruct (Ascii.eqb c "p"); [reflexivity | congruence].
Qed.

Lemma forallb_spaces (P : ascii -> bool) (n : nat) :
  P sp = true -> forallb P (spaces n) = true.
Proof.
  intros H. induction n as [|n IH]; simpl; [reflexivity|].
  rewrite H. exact IH.
Qed.

Lemma forallb_digits_plain (d : text) :
  four_digits d -> forallb plain d = true.
Proof.
  intros [_ H]. induction d as [|x d IH]; [reflexivity|].
  simpl in H |- *. apply andb_true_iff in H. destruct H as [Hx H].
  rewrite (digit_plain _ Hx). apply IH, H.
Qed.

Lemma forallb_opt_text (P : ascii -> bool) (b : bool) (l : text) :
  forallb P l = true -> forallb P (opt_text b l) = true.
Proof. destruct b; [trivial | reflexivity]. Qed.

Lemma plain_not_brk (u : text) :
  forallb plain u = true -> forallb not_brk u = true.
Proof.
  induction u as [|x u IH]; [reflexivity|]. simpl. intros H.
  apply andb_true_iff in H. destruct H as [Hx H].
  apply andb_true_iff in Hx. destruct Hx as [_ Hx].
  rewrite Hx. apply IH, H.
Qed.

(** The common form of both kinds of span: a [C], characters that are
    neither [C] nor a newline, and [CORPORATION] or [Corporation]. *)
Lemma header_span_form (U : text) (up : bool) :
  strip_lit (txt "op") U <> None ->
  forallb plain U = true ->
  header_span ("C"%char :: U ++ "C"%char :: corp up).
Proof.
  intros Hop HU. split; [|split].
  - destruct U as [|a [|b U]]; cbn in Hop |- *; try congruence.
    destruct (Ascii.eqb a "o"); [|congruence].
    destruct (Ascii.eqb b "p"); congruence.
  - cbn [tail]. apply quiet_app_plain; [exact HU|]. destruct up; reflexivity.
  - cbn [forallb]. rewrite forallb_app, (plain_not_brk _ HU).
    destruct up; reflexivity.
Qed.

Ltac plain_parts :=
  rewrite ?forallb_app;
  repeat (apply andb_true_iff; split);
  first [ reflexivity
        | apply forallb_spaces; reflexivity
        | apply forallb_opt_text; reflexivity
        | apply forallb_digits_plain; assumption ].

Lemma simple_span_header (M d : text) : simple_span M d -> header_span M.
Proof.
  intros (n1 & c & n2 & comma & n3 & up & Hd & ->).
  set (U := txt "opyright" ++ spaces n1 ++ opt_text c (txt "(c)") ++
            spaces n2 ++ d ++ opt_text comma (txt ",") ++ spaces n3 ++
            txt "NVIDIA ").
  assert (E : head_text n1 c n2 ++ d ++ tail_text comma n3 up =
              "C"%char :: U ++ "C"%char :: corp up).
  { unfold head_text, tail_text, U. rewrite <- !app_assoc. reflexivity. }
  rewrite E. apply header_span_form.
  - unfold U. cbn. discriminate.
  - unfold U. plain_parts.
Qed.

Lemma double_span_header (M d1 d2 : text) :
  double_span M d1 d2 -> header_span M.
Proof.
  intros (n1 & c & n2 & comma & n3 & up & Hd1 & Hd2 & ->).
  set (U := txt "opyright" ++ spaces n1 ++ opt_text c (txt "(c)") ++
            spaces n2 ++ d1 ++ txt "-" ++ d2 ++ opt_text comma (txt ",") ++
            spaces n3 ++ txt "NVIDIA ").
  assert (E : head_text n1 c n2 ++ d1 ++ txt "-" ++ d2 ++
                tail_text comma n3 up =
              "C"%char :: U ++ "C"%char :: corp up).
  { unfold head_text, tail_text, U. rewrite <- !app_assoc. reflexivity. }
  rewrite E. apply header_span_form.
  - unfold U. cbn. discriminate.
  - unfold U. plain_parts.
Qed.

Lemma header_span_nonempty (M : text) : header_span M -> M <> [].
Proof. intros [H _] ->. apply H. reflexivity. Qed.

Lemma spanning_simple : spanning direct_simple.
Proof.
  intros s g r H. apply direct_simple_inv in H.
  destruct H as (M & d & -> & -> & HM). exists M.
  split; [reflexivity|]. split; [eapply simple_span_header, HM|].
  intros X. apply direct_simple_intro, HM.
Qed.

Lemma spanning_double : spanning direct_double.
Proof.
  intros s g r H. apply direct_double_inv in H.
  destruct H as (M & d1 & d2 & -> & -> & HM). exists M.
  split; [reflexivity|]. split; [eapply double_span_header, HM|].
  intros X. apply direct_double_intro, HM.
Qed.

(** No text starts both a single-year and a year-range header. *)
Lemma double_not_simple (s : text) (g : caps) (r : text) :
  direct_double s = Some (g, r) -> direct_simple s = None.
Proof.
  unfold direct_double, direct_simple.
  destruct (d_head s) as [[d1 s5]|]; [|reflexivity].
  destruct s5 as [|x s6]; [discriminate|].
  cbn [strip_lit txt list_ascii_of_string].
  destruct (Ascii.eqb x "-") eqn:E; [|discriminate].
  apply Ascii.eqb_eq in E. subst x. intros _. reflexivity.
Qed.

Lemma simple_not_double (s : text) (g : caps) (r : text) :
  direct_simple s = Some (g, r) -> direct_double s = None.
Proof.
  intros H. destruct (direct_double s) as [[g' r']|] eqn:E; [|reflexivity].
  apply double_not_simple in E. congruence.
Qed.

(** ** The equations of [sub] *)

Lemma sub_fuel_irrelevant (r : regex) (tpl : list titem) (f1 f2 : nat)
    (s : text) :
  (length s < f1)%nat -> (length s < f2)%nat ->
  sub_fuel f1 r tpl s = sub_fuel f2 r tpl s.
Proof.
  revert f2 s. induction f1 as [|f1 IH]; intros f2 s H1 H2; [lia|].
  destruct f2 as [|f2]; [lia|]. simpl.
  destruct (match_at r s) as [[g rest]|].
  - destruct (length rest <? length s)%nat eqn:E.
    + apply Nat.ltb_lt in E. f_equal. apply IH; lia.
    + f_equal. destruct s as [|c s]; [reflexivity|]. f_equal.
      apply IH; simpl in *; lia.
  - destruct s as [|c s]; [reflexivity|]. f_equal.
    apply IH; simpl in *; lia.
Qed.

Lemma sub_match (r : regex) (tpl : list titem) (s : text) (g : caps)
    (rest : text) :
  match_at r s = Some (g, rest) -> (length rest < length s)%nat ->
  sub r tpl s = expand tpl g ++ sub r tpl rest.
Proof.
  intros H Hl. unfold sub at 1. cbn [sub_fuel]. rewrite H.
  replace (length rest <? length s)%nat with true
    by (symmetry; apply Nat.ltb_lt; exact Hl).
  f_equal. apply sub_fuel_irrelevant; lia.
Qed.

Lemma sub_skip (r : regex) (tpl : list titem) (c : ascii) (s : text) :
  match_at r (c :: s) = None -> sub r tpl (c :: s) = c :: sub r tpl s.
Proof.
  intros H. unfold sub at 1. cbn [sub_fuel]. rewrite H. reflexivity.
Qed.

Lemma sub_nil (r : regex) (tpl : list titem) :
  match_at r [] = None -> sub r tpl [] = [].
Proof. intros H. unfold sub. cbn. rewrite H. reflexivity. Qed.

(** ** Matches do not overlap, and do not appear by rewriting *)

Lemma same_until_cop_cons (x : ascii) (t t' : text) :
  same_until_cop t t' -> same_until_cop (x :: t) (x :: t').
Proof.
  intros [->|(P & X & Y & -> & ->)]; [left; reflexivity|].
  right. exists (x :: P), X, Y. split; reflexivity.
Qed.

Lemma spanning_start (p : text -> option (caps * text)) (s : text)
    (g : caps) (r : text) :
  spanning p -> p s = Some (g, r) -> strip_lit (txt "Cop") s <> None.
Proof.
  intros Hp H. destruct (Hp _ _ _ H) as (M & -> & (HM & _) & _).
  destruct (strip_lit (txt "Cop") M) as [M'|] eqn:E; [|congruence].
  apply strip_lit_Some in E. subst M.
  rewrite <- app_assoc, strip_lit_app. discriminate.
Qed.

(** Inside a header span no header starts. *)
Lemma spanning_inside (q : text -> option (caps * text)) (M A B X : text) :
  spanning q -> header_span M -> M = A ++ B -> A <> [] -> B <> [] ->
  q (B ++ X) = None.
Proof.
  intros Hq (_ & HM & _) -> HA HB.
  destruct (q (B ++ X)) as [[g r]|] eqn:E; [|reflexivity].
  apply (spanning_start q _ _ _ Hq) in E.
  apply like_cop_start in E; [|exact HB].
  destruct A as [|a A]; [congruence|]. cbn [app tail] in HM.
  rewrite (quiet_suffix _ A B HM eq_refl HB) in E. discriminate.
Qed.

(** A text in which no header starts at the first character does not
    get one there when it is changed from a [Cop] on. *)
Lemma spanning_stable (p : text -> option (caps * text)) (x : ascii)
    (t t' : text) :
  spanning p -> same_until_cop t t' ->
  p (x :: t) = None -> p (x :: t') = None.
Proof.
  intros Hp [->|(P & X0 & Y0 & -> & ->)] Hnone; [exact Hnone|].
  destruct (p (x :: P ++ txt "Cop" ++ Y0)) as [[g r]|] eqn:E; [|reflexivity].
  exfalso. destruct (Hp _ _ _ E) as (M & HM & Hspan & Hloc).
  change (x :: P ++ txt "Cop" ++ Y0) with ((x :: P) ++ txt "Cop" ++ Y0) in HM.
  apply app_eq_app in HM. destruct HM as [l [[H1 H2]|[H1 H2]]].
  - change (x :: P ++ txt "Cop" ++ X0) with ((x :: P) ++ txt "Cop" ++ X0)
      in Hnone.
    rewrite H1, <- app_assoc, Hloc in Hnone. discriminate.
  - destruct l as [|c l].
    + rewrite app_nil_r in H1. subst M.
      change (x :: P ++ txt "Cop" ++ X0) with ((x :: P) ++ txt "Cop" ++ X0)
        in Hnone.
      rewrite Hloc in Hnone. discriminate.
    + assert (Hl : like_cop (c :: l) = true).
      { apply (like_cop_start _ r); [discriminate|].
        rewrite <- H2, strip_lit_app. discriminate. }
      destruct Hspan as (_ & Hq & _). subst M. cbn [app tail] in Hq.
      rewrite (quiet_suffix _ P (c :: l) Hq eq_refl) in Hl; discriminate.
Qed.

Lemma spanning_shorter (p : text -> option (caps * text)) (s : text)
    (g : caps) (r : text) :
  spanning p -> p s = Some (g, r) -> (length r < length s)%nat.
Proof.
  intros Hp H. destruct (Hp _ _ _ H) as (M & -> & HM & _).
  apply header_span_nonempty in HM. rewrite length_app.
  destruct M; [congruence | simpl; lia].
Qed.

(** [sub] copies a header span that its pattern does not match. *)
Lemma sub_keeps_span (r : regex) (q : text -> option (caps * text))
    (tpl : list titem) (M X : text) :
  (forall s, match_at r s = q s) -> spanning q ->
  header_span M -> q (M ++ X) = None ->
  sub r tpl (M ++ X) = M ++ sub r tpl X.
Proof.
  intros Hrq Hq HM Hnone.
  assert (H : forall B A, M = A ++ B ->
            sub r tpl (B ++ X) = B ++ sub r tpl X).
  { induction B as [|b B IH]; intros A HA; [reflexivity|].
    cbn [app]. rewrite sub_skip.
    - f_equal. apply (IH (A ++ [b])). rewrite <- app_assoc. exact HA.
    - rewrite Hrq. destruct A as [|a A].
      + cbn [app] in HA. rewrite HA in Hnone. exact Hnone.
      + apply (spanning_inside q M (a :: A) (b :: B) X Hq HM HA);
          discriminate. }
  apply (H M []). reflexivity.
Qed.

(** [sub] changes a text from a [Cop] on, if at all. *)
Lemma sub_same_until_cop (r : regex) (q : text -> option (caps * text))
    (tpl : list titem) (t : text) :
  (forall s, match_at r s = q s) -> spanning q ->
  (forall g, strip_lit (txt "Cop") (expand tpl g) <> None) ->
  same_until_cop t (sub r tpl t).
Proof.
  intros Hrq Hq Htpl. induction t as [|x t IH].
  - destruct (q []) as [[g rest]|] eqn:E.
    + apply (spanning_shorter q _ _ _ Hq) in E. simpl in E. lia.
    + rewrite sub_nil by (rewrite Hrq; exact E). left. reflexivity.
  - destruct (q (x :: t)) as [[g rest]|] eqn:E.
    + rewrite (sub_match r tpl (x :: t) g rest)
        by (rewrite ?Hrq; eauto using spanning_shorter).
      right. destruct (Hq _ _ _ E) as (M & HM & (Hcop & _) & _).
      specialize (Htpl g).
      destruct (strip_lit (txt "Cop") M) as [M'|] eqn:E1; [|congruence].
      destruct (strip_lit (txt "Cop") (expand tpl g)) as [E'|] eqn:E2;
        [|congruence].
      apply strip_lit_Some in E1, E2.
      exists [], (M' ++ rest), (E' ++ sub r tpl rest).
      rewrite HM, E1, E2, <- !app_assoc. split; reflexivity.
    + rewrite sub_skip by (rewrite Hrq; exact E).
      apply same_until_cop_cons, IH.
Qed.

(** The text written for a single-year header is a year-range header. *)
Lemma expand_simple_to_double (d : text) :
  four_digits d ->
  double_span (expand simple_to_double [(1%nat, d)]) d d.
Proof.
  intros Hd. exists 1%nat, true, 1%nat, true, 1%nat, true.
  split; [exact Hd|]. split; [exact Hd|].
  unfold expand, simple_to_double, head_text, tail_text. cbn.
  rewrite <- ?app_assoc. reflexivity.
Qed.

Lemma expand_lit (c : text) (g : caps) : expand [TLit c] g = c.
Proof. unfold expand. cbn. apply app_nil_r. Qed.

Lemma canonical_cop (a b : Z) :
  strip_lit (txt "Cop") (canonical a b) <> None.
Proof. unfold canonical. cbn. discriminate. Qed.

Lemma canonical_cop_nonempty (a b : Z) : canonical a b <> [].
Proof. unfold canonical. cbn. discriminate. Qed.

(** ** [replaceCurrentYear] rewrites every header, and nothing else *)

Lemma replaceCurrentYear_Rewritten (line : text) (a b : Z) :
  Rewritten (canonical a b) line (replaceCurrentYear line a b).
Proof.
  unfold replaceCurrentYear.
  set (c := canonical a b).
  remember (length line) as n eqn:Hn.
  revert line Hn. induction n as [n IH] using lt_wf_ind. intros line Hn.
  destruct (direct_simple line) as [[g rest]|] eqn:ES.
  - (* a single-year header starts here *)
    pose proof (spanning_shorter _ _ _ _ spanning_simple ES) as Hlen.
    destruct (direct_simple_inv _ _ _ ES) as (M & d & -> & -> & HM).
    rewrite (sub_match CheckSimple _ _ _ rest)
      by (rewrite ?match_at_CheckSimple; eauto).
    pose proof (expand_simple_to_double d) as HD.
    assert (Hd : four_digits d).
    { destruct HM as (? & ? & ? & ? & ? & ? & Hd & _). exact Hd. }
    specialize (HD Hd).
    rewrite (sub_match CheckDouble _ _
               [(2%nat, d); (1%nat, d)] (sub CheckSimple simple_to_double rest)).
    + rewrite expand_lit. eapply Rw_occ.
      * eapply header_span_nonempty, simple_span_header, HM.
      * left. rewrite match_at_CheckSimple. exact ES.
      * eapply IH; [|reflexivity]. lia.
    + rewrite match_at_CheckDouble. apply direct_double_intro, HD.
    + rewrite length_app.
      apply double_span_header, header_span_nonempty in HD.
      destruct (expand _ _); [congruence | simpl; lia].
  - destruct (direct_double line) as [[g rest]|] eqn:ED.
    + (* a year-range header starts here *)
      pose proof (spanning_shorter _ _ _ _ spanning_double ED) as Hlen.
      destruct (spanning_double _ _ _ ED) as (M & -> & HM & Hloc).
      rewrite (sub_keeps_span CheckSimple direct_simple)
        by (auto using match_at_CheckSimple, spanning_simple).
      rewrite (sub_match CheckDouble _ _ g
                 (sub CheckSimple simple_to_double rest)).
      * rewrite expand_lit. eapply Rw_occ.
        -- apply header_span_nonempty, HM.
        -- right. rewrite match_at_CheckDouble. exact ED.
        -- eapply IH; [|reflexivity]. lia.
      * rewrite match_at_CheckDouble. apply Hloc.
      * rewrite length_app. apply header_span_nonempty in HM.
        destruct M; [congruence | simpl; lia].
    + (* no header starts here *)
      destruct line as [|x t].
      * rewrite (sub_nil CheckSimple)
          by (rewrite match_at_CheckSimple; exact ES).
        rewrite (sub_nil CheckDouble)
          by (rewrite match_at_CheckDouble; exact ED).
        apply Rw_end.
      * rewrite (sub_skip CheckSimple)
          by (rewrite match_at_CheckSimple; exact ES).
        rewrite (sub_skip CheckDouble).
        -- apply Rw_keep;
             [rewrite match_at_CheckSimple; exact ES
             |rewrite match_at_CheckDouble; exact ED|].
           eapply IH; [|reflexivity]. simpl in Hn. lia.
        -- rewrite match_at_CheckDouble.
           eapply (spanning_stable direct_double x t);
             [apply spanning_double | | exact ED].
           apply (sub_same_until_cop CheckSimple direct_simple);
             [apply match_at_CheckSimple | apply spanning_simple |].
           intros g. unfold expand, simple_to_double. cbn. discriminate.
Qed.

(** ** Years between 0 and 9999 and their four digits *)

Lemma text_eqb_eq (a b : text) : text_eqb a b = true -> a = b.
Proof.
  revert b. induction a as [|x a IH]; intros [|y b]; simpl;
    try discriminate; [reflexivity|].
  intros H. apply andb_true_iff in H. destruct H as [H1 H2].
  apply Ascii.eqb_eq in H1. subst y. f_equal. apply IH, H2.
Qed.

Lemma format_checked_all :
  forallb (fun a => forallb (fun b => forallb (fun c => forallb (fun d =>
    format_checked (1000 * a + 100 * b + 10 * c + d)) ten) ten) ten) ten
  = true.
Proof. vm_compute. reflexivity. Qed.

Lemma In_ten (d : Z) : 0 <= d <= 9 -> In d ten.
Proof.
  intros H. unfold ten.
  assert (E : d = 0 \/ d = 1 \/ d = 2 \/ d = 3 \/ d = 4 \/ d = 5 \/
              d = 6 \/ d = 7 \/ d = 8 \/ d = 9) by lia.
  simpl. intuition (subst; auto 11).
Qed.

Lemma format_checked_at (n : Z) :
  0 <= n <= 9999 -> format_checked n = true.
Proof.
  intros H. pose proof format_checked_all as Hall.
  assert (Ha : In (n / 1000) ten).
  { apply In_ten. split; [apply Z.div_pos; lia|].
    apply Z.lt_succ_r, Z.div_lt_upper_bound; lia. }
  assert (Hb : In (n / 100 mod 10) ten).
  { apply In_ten. pose proof (Z.mod_pos_bound (n / 100) 10). lia. }
  assert (Hc : In (n / 10 mod 10) ten).
  { apply In_ten. pose proof (Z.mod_pos_bound (n / 10) 10). lia. }
  assert (Hd : In (n mod 10) ten).
  { apply In_ten. pose proof (Z.mod_pos_bound n 10). lia. }
  pose proof (proj1 (forallb_forall _ _) Hall _ Ha) as H1. cbv beta in H1.
  pose proof (proj1 (forallb_forall _ _) H1 _ Hb) as H2. cbv beta in H2.
  pose proof (proj1 (forallb_forall _ _) H2 _ Hc) as H3. cbv beta in H3.
  pose proof (proj1 (forallb_forall _ _) H3 _ Hd) as H4. cbv beta in H4.
  replace (1000 * (n / 1000) + 100 * (n / 100 mod 10) +
           10 * (n / 10 mod 10) + n mod 10) with n in H4; [exact H4|].
  pose proof (Z.div_mod n 10). pose proof (Z.div_mod (n / 10) 10).
  pose proof (Z.div_mod (n / 100) 10).
  replace (n / 100) with (n / 10 / 10) in *
    by (rewrite Z.div_div by lia; reflexivity).
  replace (n / 1000) with (n / 10 / 10 / 10)
    by (rewrite !Z.div_div by lia; reflexivity).
  lia.
Qed.

Lemma format_04d_four (n : Z) :
  0 <= n <= 9999 -> format_04d n = four_digit_text n.
Proof.
  intros H. pose proof (format_checked_at n H) as Hc.
  unfold format_checked in Hc.
  apply andb_true_iff in Hc. destruct Hc as [Hc _].
  apply andb_true_iff in Hc. destruct Hc as [Hc _].
  apply text_eqb_eq, Hc.
Qed.

Lemma four_digit_text_digits (n : Z) :
  0 <= n <= 9999 -> four_digits (four_digit_text n).
Proof.
  intros H. pose proof (format_checked_at n H) as Hc.
  unfold format_checked in Hc.
  apply andb_true_iff in Hc. destruct Hc as [Hc _].
  apply andb_true_iff in Hc. destruct Hc as [_ Hc].
  split; [reflexivity | exact Hc].
Qed.

Lemma int_of_four_digit_text (n : Z) :
  0 <= n <= 9999 -> int_of (four_digit_text n) = n.
Proof.
  intros H. pose proof (format_checked_at n H) as Hc.
  unfold format_checked in Hc.
  apply andb_true_iff in Hc. destruct Hc as [_ Hc].
  apply Z.eqb_eq in Hc. exact Hc.
Qed.

(** ** [search] and the rewritten line *)

Lemma search_Some (r : regex) (s pre : text) (g : caps) (rest : text) :
  search r s = Some (pre, g, rest) ->
  exists t, s = pre ++ t /\ match_at r t = Some (g, rest).
Proof.
  revert pre. induction s as [|x s IH]; intros pre; cbn [search].
  - destruct (match_at r []) as [[g' r']|] eqn:E; [|discriminate].
    intros [= <- <- <-]. exists []. split; [reflexivity | exact E].
  - destruct (match_at r (x :: s)) as [[g' r']|] eqn:E.
    + intros [= <- <- <-]. exists (x :: s). split; [reflexivity | exact E].
    + destruct (search r s) as [[[pre' g'] r']|]; [|discriminate].
      intros [= <- <- <-]. destruct (IH pre' eq_refl) as (t & -> & Ht).
      exists t. split; [reflexivity | exact Ht].
Qed.

Lemma search_None_cons (r : regex) (x : ascii) (s : text) :
  search r (x :: s) = None ->
  match_at r (x :: s) = None /\ search r s = None.
Proof.
  cbn [search]. destruct (match_at r (x :: s)) as [[g r']|]; [discriminate|].
  destruct (search r s) as [[[pre g] r']|]; [discriminate|]. auto.
Qed.

Lemma search_skip_None (r : regex) (x : ascii) (s : text) :
  match_at r (x :: s) = None -> search r s = None ->
  search r (x :: s) = None.
Proof. intros H1 H2. cbn [search]. rewrite H1, H2. reflexivity. Qed.

Lemma search_skip_Some (r : regex) (x : ascii) (s pre : text) (g : caps)
    (rest : text) :
  match_at r (x :: s) = None -> search r s = Some (pre, g, rest) ->
  search r (x :: s) = Some (x :: pre, g, rest).
Proof. intros H1 H2. cbn [search]. rewrite H1, H2. reflexivity. Qed.

Lemma search_here (r : regex) (s : text) (g : caps) (rest : text) :
  match_at r s = Some (g, rest) -> search r s = Some ([], g, rest).
Proof. intros H. destruct s; cbn [search]; rewrite H; reflexivity. Qed.

(** A line without a match is left as it is. *)
Lemma sub_no_match (r : regex) (tpl : list titem) (s : text) :
  search r s = None -> sub r tpl s = s.
Proof.
  induction s as [|x s IH]; intros H.
  - apply sub_nil. cbn [search] in H.
    destruct (match_at r []) as [[? ?]|]; [discriminate | reflexivity].
  - apply search_None_cons in H. destruct H as [H1 H2].
    rewrite sub_skip by exact H1. f_equal. apply IH, H2.
Qed.

Lemma replaceCurrentYear_no_match (line : text) (a b : Z) :
  search CheckSimple line = None -> search CheckDouble line = None ->
  replaceCurrentYear line a b = line.
Proof.
  intros H1 H2. unfold replaceCurrentYear.
  rewrite (sub_no_match CheckSimple) by exact H1.
  apply sub_no_match, H2.
Qed.

(** [search] finds nothing inside a span its pattern does not match. *)
Lemma search_over_span (r : regex) (q : text -> option (caps * text))
    (M X : text) :
  (forall s, match_at r s = q s) -> spanning q ->
  header_span M -> q (M ++ X) = None -> search r X = None ->
  search r (M ++ X) = None.
Proof.
  intros Hrq Hq HM Hnone HX.
  assert (H : forall B A, M = A ++ B -> search r (B ++ X) = None).
  { induction B as [|b B IH]; intros A HA; [exact HX|].
    cbn [app]. apply search_skip_None.
    - rewrite Hrq. destruct A as [|a A].
      + cbn [app] in HA. rewrite HA in Hnone. exact Hnone.
      + apply (spanning_inside q M (a :: A) (b :: B) X Hq HM HA);
          discriminate.
    - apply (IH (A ++ [b])). rewrite <- app_assoc. exact HA. }
  apply (H M []). reflexivity.
Qed.

(** An occurrence of one of the patterns is a header span. *)
Lemma occurrence_span (M rest : text) (g : caps) :
  match_at CheckSimple (M ++ rest) = Some (g, rest) \/
  match_at CheckDouble (M ++ rest) = Some (g, rest) ->
  header_span M /\
  forall X, match_at CheckSimple (M ++ X) = Some (g, X) \/
            match_at CheckDouble (M ++ X) = Some (g, X).
Proof.
  rewrite match_at_CheckSimple, match_at_CheckDouble. intros [H|H].
  - destruct (spanning_simple _ _ _ H) as (M' & HM' & Hspan & Hloc).
    apply app_inv_tail in HM'. subst M'. split; [exact Hspan|].
    intros X. left. rewrite match_at_CheckSimple. apply Hloc.
  - destruct (spanning_double _ _ _ H) as (M' & HM' & Hspan & Hloc).
    apply app_inv_tail in HM'. subst M'. split; [exact Hspan|].
    intros X. right. rewrite match_at_CheckDouble. apply Hloc.
Qed.

Lemma Rewritten_same_until_cop (c s out : text) :
  strip_lit (txt "Cop") c <> None ->
  Rewritten c s out -> same_until_cop s out.
Proof.
  intros Hc H. induction H as [|M rest out g HM Hocc H IH|x s out H1 H2 H IH].
  - left. reflexivity.
  - right. apply occurrence_span in Hocc. destruct Hocc as [(Hcop & _) _].
    destruct (strip_lit (txt "Cop") M) as [M'|] eqn:E1; [|congruence].
    destruct (strip_lit (txt "Cop") c) as [c'|] eqn:E2; [|congruence].
    apply strip_lit_Some in E1, E2. subst M c.
    exists [], (M' ++ rest), (c' ++ out). rewrite <- !app_assoc.
    split; reflexivity.
  - apply same_until_cop_cons, IH.
Qed.

(** In the rewritten line the single-year pattern matches nowhere, and
    the first match of the year-range pattern is the new text. *)
Lemma Rewritten_search (c d1 d2 s out : text) :
  double_span c d1 d2 -> Rewritten c s out ->
  search CheckSimple out = None /\
  (search CheckSimple s <> None \/ search CheckDouble s <> None ->
   exists pre rest,
     search CheckDouble out = Some (pre, [(2%nat, d2); (1%nat, d1)], rest)).
Proof.
  intros Hc H.
  assert (Hcop : strip_lit (txt "Cop") c <> None).
  { apply double_span_header in Hc. apply Hc. }
  induction H as [|M rest out g HM Hocc H IH|x s out H1 H2 H IH].
  - split; [reflexivity|]. intros [E|E]; exfalso; apply E; reflexivity.
  - destruct IH as [IH1 IH2]. split.
    + apply (search_over_span CheckSimple direct_simple);
        [apply match_at_CheckSimple | apply spanning_simple
        | eapply double_span_header, Hc | | exact IH1].
      eapply double_not_simple, direct_double_intro, Hc.
    + intros _. exists [], out. apply search_here.
      rewrite match_at_CheckDouble. apply direct_double_intro, Hc.
  - destruct IH as [IH1 IH2].
    pose proof (Rewritten_same_until_cop c s out Hcop H) as Hsame.
    assert (N1 : match_at CheckSimple (x :: out) = None).
    { rewrite match_at_CheckSimple in *.
      eapply spanning_stable; eauto using spanning_simple. }
    assert (N2 : match_at CheckDouble (x :: out) = None).
    { rewrite match_at_CheckDouble in *.
      eapply spanning_stable; eauto using spanning_double. }
    split; [apply search_skip_None; assumption|].
    intros Hs. destruct IH2 as (pre & rest & E).
    + destruct Hs as [Hs|Hs]; [left|right]; intros E; apply Hs;
        apply search_skip_None; assumption.
    + exists (x :: pre), rest. apply search_skip_Some; assumption.
Qed.

Lemma canonical_double_span (a b : Z) :
  0 <= a <= 9999 -> 0 <= b <= 9999 ->
  double_span (canonical a b) (four_digit_text a) (four_digit_text b).
Proof.
  intros Ha Hb. exists 1%nat, true, 1%nat, true, 1%nat, true.
  split; [apply four_digit_text_digits, Ha|].
  split; [apply four_digit_text_digits, Hb|].
  unfold canonical. rewrite !format_04d_four by assumption. reflexivity.
Qed.

(** The years of the rewritten line are the years it was rewritten with. *)
Lemma getCopyrightYears_replaceCurrentYear (line : text) (a b : Z) :
  getCopyrightYears line <> None ->
  0 <= a <= 9999 -> 0 <= b <= 9999 ->
  getCopyrightYears (replaceCurrentYear line a b) = Some (a, b).
Proof.
  intros Hline Ha Hb.
  destruct (Rewritten_search _ _ _ _ _ (canonical_double_span a b Ha Hb)
              (replaceCurrentYear_Rewritten line a b)) as [H1 H2].
  destruct H2 as (pre & rest & H2).
  { unfold getCopyrightYears in Hline.
    destruct (search CheckSimple line); [left; discriminate|].
    destruct (search CheckDouble line); [right; discriminate|].
    congruence. }
  unfold getCopyrightYears. rewrite H1, H2. cbn [group Nat.eqb default].
  unfold id. rewrite !int_of_four_digit_text by assumption. reflexivity.
Qed.

(** ** The years a line yields *)

Lemma digit_value_range (x : ascii) :
  is_digit x = true -> 0 <= digit_value x <= 9.
Proof.
  unfold is_digit, digit_value. intros H.
  apply andb_true_iff in H. destruct H as [H1 H2].
  apply Nat.leb_le in H1, H2. lia.
Qed.

Lemma int_of_four_digits (d : text) :
  four_digits d -> 0 <= int_of d <= 9999.
Proof.
  intros H. destruct (four_digits_inv d H)
    as (d1 & d2 & d3 & d4 & -> & H1 & H2 & H3 & H4).
  apply digit_value_range in H1, H2, H3, H4.
  unfold int_of. cbn [fold_left]. lia.
Qed.

Lemma getCopyrightYears_range (line : text) (s e : Z) :
  getCopyrightYears line = Some (s, e) ->
  0 <= s <= 9999 /\ 0 <= e <= 9999.
Proof.
  unfold getCopyrightYears.
  destruct (search CheckSimple line) as [[[pre g] rest]|] eqn:E1.
  - apply search_Some in E1. destruct E1 as (t & _ & E1).
    rewrite match_at_CheckSimple in E1. apply direct_simple_inv in E1.
    destruct E1 as (M & d & _ & -> & (? & ? & ? & ? & ? & ? & Hd & _)).
    cbn [group Nat.eqb default]. unfold id. intros [= <- <-].
    split; apply int_of_four_digits, Hd.
  - destruct (search CheckDouble line) as [[[pre g] rest]|] eqn:E2;
      [|discriminate].
    apply search_Some in E2. destruct E2 as (t & _ & E2).
    rewrite match_at_CheckDouble in E2. apply direct_double_inv in E2.
    destruct E2 as (M & d1 & d2 & _ & -> &
                    (? & ? & ? & ? & ? & ? & Hd1 & Hd2 & _)).
    cbn [group Nat.eqb default]. unfold id. intros [= <- <-].
    split; apply int_of_four_digits; assumption.
Qed.

(** ** The scan of a file, line by line *)

Lemma scan_line_eq (thisYear : Z) (path : string) (st : scan_state)
    (line : text) :
  scan_line thisYear path st line =
  {| lineNum := S (lineNum st);
     errs := errs st ++ line_issues thisYear path (S (lineNum st)) line;
     crFound := crFound st || matched line;
     yearMatched := yearMatched st || valid thisYear line |}.
Proof.
  unfold scan_line, line_issues, matched, valid, fix_of.
  destruct (getCopyrightYears line) as [[s e]|].
  - rewrite (Z.leb_antisym thisYear s), (Z.leb_antisym e thisYear).
    destruct (e <? s), (thisYear <? s), (e <? thisYear);
      cbn [orb negb andb];
      rewrite <- ?app_assoc, ?app_nil_r, ?orb_true_r, ?orb_false_r;
      reflexivity.
  - rewrite app_nil_r, !orb_false_r. reflexivity.
Qed.

Lemma scan_fold (thisYear : Z) (path : string) (lines : list text)
    (st : scan_state) :
  fold_left (scan_line thisYear path) lines st =
  {| lineNum := lineNum st + length lines;
     errs := errs st ++ issues_from thisYear path (lineNum st) lines;
     crFound := crFound st || existsb matched lines;
     yearMatched := yearMatched st || existsb (valid thisYear) lines |}.
Proof.
  revert st. induction lines as [|l ls IH]; intros st.
  - destruct st. cbn. rewrite Nat.add_0_r, app_nil_r, !orb_false_r.
    reflexivity.
  - cbn [fold_left]. rewrite IH, scan_line_eq. cbn.
    rewrite <- app_assoc, !orb_assoc. f_equal. lia.
Qed.

Lemma issues_from_unmatched (thisYear : Z) (path : string) (n : nat)
    (lines : list text) :
  existsb matched lines = false -> issues_from thisYear path n lines = [].
Proof.
  revert n. induction lines as [|l ls IH]; intros n; [reflexivity|].
  cbn. intros H. apply orb_false_iff in H. destruct H as [H1 H2].
  rewrite (IH _ H2), app_nil_r. unfold line_issues.
  unfold matched in H1. destruct (getCopyrightYears l); [discriminate|].
  reflexivity.
Qed.

(** The issues of a file: none when a line is valid, the missing header
    when no line has a header, what the lines gave otherwise. *)
Lemma issues_of_eq (thisYear : Z) (path : string) (lines : list text) :
  issues_of thisYear path lines =
  if existsb (valid thisYear) lines then []
  else if existsb matched lines then issues_from thisYear path 0 lines
  else [ Issue path 0 msg_missing None ].
Proof.
  unfold issues_of, scan_lines. rewrite scan_fold. cbn.
  destruct (existsb (valid thisYear) lines); [reflexivity|].
  destruct (existsb matched lines) eqn:E; [reflexivity|].
  rewrite issues_from_unmatched by exact E. reflexivity.
Qed.

Arguments getCopyrightYears : simpl never.
Arguments replaceCurrentYear : simpl never.

(** ** The fixable issues and the patch *)

Lemma fixable_Some (p : string) (n : nat) (m : string) (r : text) :
  fixable (Issue p n m (Some r)).
Proof. unfold fixable. cbn. eauto. Qed.

Lemma not_fixable_None (p : string) (n : nat) (m : string) :
  ~ fixable (Issue p n m None).
Proof. unfold fixable. cbn. intros [x H]. discriminate. Qed.

Lemma fixable_line_issues (thisYear : Z) (path : string) (n : nat)
    (line : text) :
  filter fixable (line_issues thisYear path n line) =
  match fix_of thisYear line with
  | Some r => [ Issue path n msg_not_current (Some r) ]
  | None => []
  end.
Proof.
  unfold line_issues, fix_of.
  destruct (getCopyrightYears line) as [[s e]|]; [|reflexivity].
  rewrite filter_app.
  assert (E1 : filter fixable
    (if e <? s then [ Issue path n msg_inverted None ] else []) = []).
  { destruct (e <? s); [|reflexivity].
    rewrite filter_cons_False by apply not_fixable_None. reflexivity. }
  rewrite E1, app_nil_l.
  destruct (e <? thisYear); [|destruct (thisYear <? s)];
    rewrite ?orb_true_r; cbn [orb];
    rewrite ?filter_cons_True by apply fixable_Some; reflexivity.
Qed.

Lemma list_setitem_nat {A : Type} (l : list A) (i : nat) (x : A) :
  (i < length l)%nat ->
  list_setitem l (Z.of_nat (S i) - 1) x = Some (<[ i := x ]> l).
Proof.
  intros H. unfold list_setitem.
  replace (Z.of_nat (S i) - 1) with (Z.of_nat i) by lia.
  replace (0 <=? Z.of_nat i) with true by (symmetry; apply Z.leb_le; lia).
  replace (Z.of_nat i <? Z.of_nat (length l)) with true
    by (symmetry; apply Z.ltb_lt; lia).
  cbn [andb]. rewrite Nat2Z.id. reflexivity.
Qed.

(** Patching with the fixable issues of a scan never fails, and rewrites
    each line to its fix. *)
Lemma patch_issues_from (thisYear : Z) (path : string) (lines pre : list text) :
  patch (pre ++ lines)
    (filter fixable (issues_from thisYear path (length pre) lines)) =
  Some (pre ++ map (patch_line thisYear) lines).
Proof.
  revert pre. induction lines as [|l ls IH]; intros pre; [reflexivity|].
  cbn [issues_from map]. rewrite filter_app, fixable_line_issues.
  unfold patch_line at 1.
  assert (Hnext : forall x,
    patch (pre ++ x :: ls)
      (filter fixable (issues_from thisYear path (S (length pre)) ls)) =
    Some (pre ++ x :: map (patch_line thisYear) ls)).
  { intros x. specialize (IH (pre ++ [x])).
    rewrite length_app, Nat.add_1_r, <- !app_assoc in IH. exact IH. }
  destruct (fix_of thisYear l) as [r|].
  - cbn [app patch i_line i_fix default].
    rewrite list_setitem_nat by (rewrite length_app; simpl; lia).
    replace (length pre) with (length pre + 0)%nat at 1 by lia.
    rewrite insert_app_r. cbn [default]. apply Hnext.
  - cbn [app default]. apply Hnext.
Qed.

Lemma fixable_issues_of_nonempty (thisYear : Z) (path : string)
    (lines : list text) :
  existsb (valid thisYear) lines = false ->
  existsb matched lines = true ->
  filter fixable (issues_of thisYear path lines) <> [].
Proof.
  intros Hv Hm. rewrite issues_of_eq, Hv, Hm.
  generalize 0%nat as n.
  induction lines as [|l ls IH]; intros n; [discriminate|].
  cbn [issues_from]. rewrite filter_app, fixable_line_issues.
  cbn [existsb] in Hv, Hm. apply orb_false_iff in Hv. destruct Hv as [Hv1 Hv2].
  unfold fix_of. unfold valid in Hv1. unfold matched in Hm.
  destruct (getCopyrightYears l) as [[s e]|].
  - destruct (e <? thisYear) eqn:E1; [discriminate|].
    destruct (thisYear <? s) eqn:E2; [discriminate|].
    apply Z.ltb_ge in E1, E2.
    apply andb_false_iff in Hv1.
    destruct Hv1 as [H|H]; apply Z.leb_gt in H; lia.
  - cbn [orb app] in Hm |- *. apply IH; assumption.
Qed.

(** ** What [checkCopyright] does to the world *)

Lemma checkCopyright_loaded (thisYear : Z) (f : file_arg) (update : bool)
    (w w1 : world) (path : string) (lines : list text) :
  load f w = (Ok (path, lines), w1) ->
  checkCopyright thisYear f update w =
  (Ok (issues_of thisYear path lines),
   if writes thisYear update lines
   then patched_world thisYear path lines w1 else w1).
Proof.
  intros Hload. unfold checkCopyright, bind at 1. rewrite Hload.
  cbn [fst snd]. unfold writes.
  destruct update; [|reflexivity]. cbn [andb].
  destruct (existsb (valid thisYear) lines) eqn:Hv.
  { rewrite issues_of_eq, Hv. reflexivity. }
  destruct (existsb matched lines) eqn:Hm.
  - pose proof (fixable_issues_of_nonempty thisYear path lines Hv Hm) as Hne.
    destruct (filter fixable (issues_of thisYear path lines)) as [|e es] eqn:Ef;
      [congruence|].
    cbn [length Nat.ltb Nat.leb negb andb].
    unfold bind, print, emit. cbn [negb andb].
    rewrite <- Ef.
    assert (Hp : patch lines (filter fixable (issues_of thisYear path lines)) =
                 Some (map (patch_line thisYear) lines)).
    { rewrite issues_of_eq, Hv, Hm.
      apply (patch_issues_from thisYear path lines []). }
    rewrite Hp. unfold write_lines, ret, patched_world. cbn [fs log].
    rewrite <- app_assoc. reflexivity.
  - rewrite issues_of_eq, Hv, Hm.
    rewrite filter_cons_False by apply not_fixable_None. reflexivity.
Qed.

Lemma existsb_valid_In (thisYear : Z) (lines : list text) (line : text)
    (s e : Z) :
  In line lines -> getCopyrightYears line = Some (s, e) ->
  s <= thisYear <= e -> existsb (valid thisYear) lines = true.
Proof.
  intros HIn Hy Hr. apply existsb_exists. exists line. split; [exact HIn|].
  unfold valid. rewrite Hy. apply andb_true_iff.
  split; apply Z.leb_le; lia.
Qed.

Lemma existsb_matched_false (lines : list text) :
  (forall line, In line lines ->
     search CheckSimple line = None /\ search CheckDouble line = None) ->
  existsb matched lines = false.
Proof.
  intros H. induction lines as [|l ls IH]; [reflexivity|].
  cbn [existsb]. rewrite IH by (intros; apply H; right; assumption).
  destruct (H l (or_introl eq_refl)) as [H1 H2].
  unfold matched, getCopyrightYears. rewrite H1, H2. reflexivity.
Qed.

Lemma existsb_valid_matched (thisYear : Z) (lines : list text) :
  existsb matched lines = false -> existsb (valid thisYear) lines = false.
Proof.
  induction lines as [|l ls IH]; [reflexivity|]. cbn [existsb].
  intros H. apply orb_false_iff in H. destruct H as [H1 H2].
  rewrite (IH H2), orb_false_r. unfold matched in H1. unfold valid.
  destruct (getCopyrightYears l); [discriminate | reflexivity].
Qed.

Lemma In_issues_from (thisYear : Z) (path : string) (lines : list text)
    (n i : nat) (line : text) (x : issue) :
  lines !! i = Some line ->
  In x (line_issues thisYear path (S (n + i)) line) ->
  In x (issues_from thisYear path n lines).
Proof.
  revert n i. induction lines as [|l ls IH]; intros n i Hl Hx;
    [discriminate|].
  cbn [issues_from]. apply in_or_app. destruct i as [|i].
  - left. injection Hl as ->. rewrite Nat.add_0_r in Hx. exact Hx.
  - right. apply (IH (S n) i); [exact Hl|].
    replace (S (S n + i)) with (S (n + S i)) by lia. exact Hx.
Qed.

(** ** The claims *)

(** C1.  A file one of whose lines carries years that include the
    current year has no issue at all, whatever the other lines gave; the
    file is read and left as it is. *)
Theorem C1_valid_line_clears_issues
    (thisYear : Z) (f : file_arg) (update : bool) (w w1 : world)
    (path : string) (lines : list text) (line : text) (s e : Z) :
  load f w = (Ok (path, lines), w1) ->
  In line lines ->
  getCopyrightYears line = Some (s, e) ->
  s <= thisYear <= e ->
  checkCopyright thisYear f update w = (Ok [], w1).
Proof.
  intros Hload HIn Hy Hr.
  pose proof (existsb_valid_In thisYear lines line s e HIn Hy Hr) as Hv.
  rewrite (checkCopyright_loaded _ _ _ _ _ _ _ Hload).
  rewrite issues_of_eq, Hv. unfold writes. rewrite Hv.
  rewrite andb_false_r. reflexivity.
Qed.

(** A file with an inverted range on its first line and a valid header
    on the second, in 2023. *)
Lemma C1_witness :
  let content := txt "# Copyright (c) 2022-2019, NVIDIA CORPORATION
# Copyright (c) 2020-2023, NVIDIA CORPORATION
" in
  let w := one_file "a.py" content in
  let w1 := {| fs := fs w; log := [EvRead "a.py" utf_8] |} in
  let line := txt "# Copyright (c) 2020-2023, NVIDIA CORPORATION
" in
  load (Path "a.py") w = (Ok ("a.py"%string, readlines content), w1) /\
  In line (readlines content) /\
  getCopyrightYears line = Some (2020, 2023) /\
  2020 <= 2023 <= 2023 /\
  checkCopyright 2023 (Path "a.py") true w = (Ok [], w1).
Proof.
  intros content w w1 line.
  assert (H1 : load (Path "a.py") w =
               (Ok ("a.py"%string, readlines content), w1))
    by (vm_compute; reflexivity).
  assert (H2 : In line (readlines content))
    by (vm_compute; right; left; reflexivity).
  assert (H3 : getCopyrightYears line = Some (2020, 2023))
    by (vm_compute; reflexivity).
  assert (H4 : 2020 <= 2023 <= 2023) by lia.
  refine (conj H1 (conj H2 (conj H3 (conj H4 _)))).
  exact (C1_valid_line_clears_issues 2023 (Path "a.py") true w w1
           "a.py" (readlines content) line 2020 2023 H1 H2 H3 H4).
Defined.

(** C6.  A file none of whose lines matches either pattern has exactly
    one issue: the missing header, at line 0, without a replacement; the
    file is left as it is, with or without the fix asked for. *)
Theorem C6_no_header_one_missing_issue
    (thisYear : Z) (f : file_arg) (update : bool) (w w1 : world)
    (path : string) (lines : list text) :
  load f w = (Ok (path, lines), w1) ->
  (forall line, In line lines ->
     search CheckSimple line = None /\ search CheckDouble line = None) ->
  checkCopyright thisYear f update w =
  (Ok [ Issue path 0 msg_missing None ], w1).
Proof.
  intros Hload Hnone.
  pose proof (existsb_matched_false lines Hnone) as Hm.
  pose proof (existsb_valid_matched thisYear lines Hm) as Hv.
  rewrite (checkCopyright_loaded _ _ _ _ _ _ _ Hload).
  rewrite issues_of_eq, Hv, Hm. unfold writes. rewrite Hm.
  rewrite andb_false_r. reflexivity.
Qed.

Lemma C6_witness :
  let content := txt "import os
print(os.sep)
" in
  let w := one_file "a.py" content in
  let w1 := {| fs := fs w; log := [EvRead "a.py" utf_8] |} in
  load (Path "a.py") w = (Ok ("a.py"%string, readlines content), w1) /\
  (forall line, In line (readlines content) ->
     search CheckSimple line = None /\ search CheckDouble line = None) /\
  checkCopyright 2024 (Path "a.py") true w =
  (Ok [ Issue "a.py" 0 msg_missing None ], w1).
Proof.
  intros content w w1.
  assert (H1 : load (Path "a.py") w =
               (Ok ("a.py"%string, readlines content), w1))
    by (vm_compute; reflexivity).
  assert (H2 : forall line, In line (readlines content) ->
     search CheckSimple line = None /\ search CheckDouble line = None).
  { intros line HIn. vm_compute in HIn.
    destruct HIn as [<-|[<-|[]]]; split; vm_compute; reflexivity. }
  refine (conj H1 (conj H2 _)).
  exact (C6_no_header_one_missing_issue 2024 (Path "a.py") true w w1
           "a.py" (readlines content) H1 H2).
Defined.

Lemma inverted_line_issues (thisYear : Z) (path : string) (n : nat)
    (line : text) :
  filter is_inverted_issue (line_issues thisYear path n line) =
  if inverted line then [ Issue path n msg_inverted None ] else [].
Proof.
  unfold line_issues, inverted.
  destruct (getCopyrightYears line) as [[s e]|]; [|reflexivity].
  rewrite filter_app.
  assert (E : filter is_inverted_issue
    (if (thisYear <? s) || (e <? thisYear)
     then [ Issue path n msg_not_current (fix_of thisYear line) ] else [])
    = []).
  { destruct ((thisYear <? s) || (e <? thisYear)); [|reflexivity].
    rewrite filter_cons_False; [reflexivity|].
    unfold is_inverted_issue. cbn. discriminate. }
  rewrite E, app_nil_r. destruct (e <? s); [|reflexivity].
  rewrite filter_cons_True; [reflexivity|]. reflexivity.
Qed.

Lemma inverted_issues_from (thisYear : Z) (path : string) (n : nat)
    (lines : list text) :
  filter is_inverted_issue (issues_from thisYear path n lines) =
  inverted_issues path n lines.
Proof.
  revert n. induction lines as [|l ls IH]; intros n; [reflexivity|].
  cbn [issues_from inverted_issues].
  rewrite filter_app, inverted_line_issues, IH. reflexivity.
Qed.

Lemma inverted_issues_unmatched (path : string) (n : nat)
    (lines : list text) :
  existsb inverted lines = false -> inverted_issues path n lines = [].
Proof.
  revert n. induction lines as [|l ls IH]; intros n; [reflexivity|].
  cbn. intros H. apply orb_false_iff in H. destruct H as [H1 H2].
  rewrite H1, (IH _ H2). reflexivity.
Qed.

Lemma inverted_matched (lines : list text) :
  existsb matched lines = false -> existsb inverted lines = false.
Proof.
  induction lines as [|l ls IH]; [reflexivity|]. cbn [existsb].
  intros H. apply orb_false_iff in H. destruct H as [H1 H2].
  rewrite (IH H2), orb_false_r. unfold matched in H1. unfold inverted.
  destruct (getCopyrightYears l); [discriminate | reflexivity].
Qed.

Lemma inverted_issues_single (path : string) (lines : list text)
    (n i : nat) (line : text) :
  lines !! i = Some line -> inverted line = true ->
  (forall j l, lines !! j = Some l -> inverted l = true -> j = i) ->
  inverted_issues path n lines = [ Issue path (S (n + i)) msg_inverted None ].
Proof.
  revert n i. induction lines as [|l ls IH]; intros n i Hl Hinv Huniq;
    [discriminate|].
  cbn [inverted_issues]. destruct i as [|i].
  - injection Hl as ->. rewrite Hinv, Nat.add_0_r.
    rewrite inverted_issues_unmatched; [reflexivity|].
    destruct (existsb inverted ls) eqn:E; [|reflexivity].
    apply existsb_exists in E. destruct E as (l' & HIn & Hl').
    apply list_elem_of_In, list_elem_of_lookup in HIn.
    destruct HIn as [j Hj].
    specialize (Huniq (S j) l' Hj Hl'). discriminate.
  - destruct (inverted l) eqn:E.
    + specialize (Huniq 0%nat l eq_refl E). discriminate.
    + cbn [app]. rewrite (IH (S n) i Hl Hinv).
      * f_equal. f_equal. lia.
      * intros j l' Hj Hl'. specialize (Huniq (S j) l' Hj Hl'). lia.
Qed.

Lemma issues_from_inverted_no_fix (thisYear : Z) (path : string) (n : nat)
    (lines : list text) (x : issue) :
  In x (issues_from thisYear path n lines) -> is_inverted_issue x ->
  i_fix x = None.
Proof.
  intros HIn Hx.
  assert (H : In x (filter is_inverted_issue
                      (issues_from thisYear path n lines))).
  { apply list_elem_of_In, list_elem_of_filter.
    split; [exact Hx | apply list_elem_of_In, HIn]. }
  rewrite inverted_issues_from in H. clear HIn Hx.
  revert n H. induction lines as [|l ls IH]; intros n H; [destruct H|].
  cbn [inverted_issues] in H. apply in_app_or in H. destruct H as [H|H].
  - destruct (inverted l); [|destruct H].
    destruct H as [<-|[]]. reflexivity.
  - apply (IH _ H).
Qed.

(** C2, as the code has it.  In a file none of whose lines is valid,
    every line whose years are in the wrong order gives exactly one
    inverted-range issue, at its line number and without a replacement,
    and no other line gives one: a file with one such line has exactly
    one inverted-range issue. *)
Theorem C2_one_inverted_issue_per_inverted_line
    (thisYear : Z) (f : file_arg) (update : bool) (w w1 : world)
    (path : string) (lines : list text) :
  load f w = (Ok (path, lines), w1) ->
  existsb (valid thisYear) lines = false ->
  exists es w',
    checkCopyright thisYear f update w = (Ok es, w') /\
    filter is_inverted_issue es = inverted_issues path 0 lines /\
    (forall x, In x es -> is_inverted_issue x -> i_fix x = None) /\
    (forall i line,
       lines !! i = Some line -> inverted line = true ->
       (forall j l, lines !! j = Some l -> inverted l = true -> j = i) ->
       filter is_inverted_issue es = [ Issue path (S i) msg_inverted None ]).
Proof.
  intros Hload Hv.
  rewrite (checkCopyright_loaded _ _ _ _ _ _ _ Hload).
  eexists _, _. split; [reflexivity|].
  rewrite issues_of_eq, Hv.
  assert (E : filter is_inverted_issue
                (if existsb matched lines
                 then issues_from thisYear path 0 lines
                 else [ Issue path 0 msg_missing None ]) =
              inverted_issues path 0 lines).
  { destruct (existsb matched lines) eqn:Hm.
    - apply inverted_issues_from.
    - rewrite inverted_issues_unmatched by (apply inverted_matched, Hm).
      rewrite filter_cons_False; [reflexivity|].
      unfold is_inverted_issue. cbn. discriminate. }
  split; [exact E|]. split.
  - destruct (existsb matched lines).
    + apply issues_from_inverted_no_fix.
    + intros x [<-|[]] _. reflexivity.
  - intros i line Hl Hinv Huniq. rewrite E.
    apply (inverted_issues_single path lines 0 i line Hl Hinv Huniq).
Qed.

Lemma C2_witness :
  let content := txt "# Copyright (c) 2022-2019, NVIDIA CORPORATION
import os
" in
  let w := one_file "a.py" content in
  let w1 := {| fs := fs w; log := [EvRead "a.py" utf_8] |} in
  load (Path "a.py") w = (Ok ("a.py"%string, readlines content), w1) /\
  existsb (valid 2024) (readlines content) = false /\
  exists es w',
    checkCopyright 2024 (Path "a.py") false w = (Ok es, w') /\
    filter is_inverted_issue es = inverted_issues "a.py" 0 (readlines content) /\
    (forall x, In x es -> is_inverted_issue x -> i_fix x = None) /\
    (forall i line,
       readlines content !! i = Some line -> inverted line = true ->
       (forall j l, readlines content !! j = Some l -> inverted l = true ->
                    j = i) ->
       filter is_inverted_issue es = [ Issue "a.py" (S i) msg_inverted None ]).
Proof.
  intros content w w1.
  assert (H1 : load (Path "a.py") w =
               (Ok ("a.py"%string, readlines content), w1))
    by (vm_compute; reflexivity).
  assert (H2 : existsb (valid 2024) (readlines content) = false)
    by (vm_compute; reflexivity).
  refine (conj H1 (conj H2 _)).
  exact (C2_one_inverted_issue_per_inverted_line 2024 (Path "a.py") false
           w w1 "a.py" (readlines content) H1 H2).
Defined.

(** C2 as it is stated fails: two lines with inverted ranges, in a file
    without a valid line, give two inverted-range issues. *)
Lemma C2_counterexample :
  ~ (forall (thisYear : Z) (path : string) (lines : list text)
            (line pre rest : text) (g : caps),
       In line lines ->
       search CheckDouble line = Some (pre, g, rest) ->
       int_of (default [] (group g 2)) < int_of (default [] (group g 1)) ->
       existsb (valid thisYear) lines = false ->
       exists x,
         filter is_inverted_issue (issues_of thisYear path lines) = [x] /\
         i_fix x = None).
Proof.
  intros H.
  specialize (H 2024 "a.py"%string
    [ txt "# Copyright (c) 2022-2019, NVIDIA CORPORATION";
      txt "# Copyright (c) 2021-2018, NVIDIA CORPORATION" ]
    (txt "# Copyright (c) 2022-2019, NVIDIA CORPORATION")
    (txt "# ") (txt "")
    [(2%nat, txt "2019"); (1%nat, txt "2022")]).
  destruct H as (x & Hx & _).
  - left. reflexivity.
  - vm_compute. reflexivity.
  - vm_compute. reflexivity.
  - vm_compute. reflexivity.
  - vm_compute in Hx. discriminate.
Qed.

Lemma stale_end_line_issue (thisYear : Z) (path : string) (n : nat)
    (line : text) (s e : Z) :
  getCopyrightYears line = Some (s, e) -> e < thisYear ->
  In (Issue path n msg_not_current
        (Some (replaceCurrentYear line s thisYear)))
     (line_issues thisYear path n line).
Proof.
  intros Hy He. unfold line_issues, fix_of. rewrite Hy.
  replace (e <? thisYear) with true by (symmetry; apply Z.ltb_lt; lia).
  rewrite orb_true_r. apply in_or_app. right. left. reflexivity.
Qed.

Lemma early_start_line_issue (thisYear : Z) (path : string) (n : nat)
    (line : text) (s e : Z) :
  getCopyrightYears line = Some (s, e) -> thisYear < s -> thisYear <= e ->
  In (Issue path n msg_not_current
        (Some (replaceCurrentYear line thisYear e)))
     (line_issues thisYear path n line).
Proof.
  intros Hy Hs He. unfold line_issues, fix_of. rewrite Hy.
  replace (e <? thisYear) with false by (symmetry; apply Z.ltb_ge; lia).
  replace (thisYear <? s) with true by (symmetry; apply Z.ltb_lt; lia).
  cbn [orb]. apply in_or_app. right. left. reflexivity.
Qed.

Lemma scan_lines_errs (thisYear : Z) (path : string) (lines : list text) :
  errs (scan_lines thisYear path lines) = issues_from thisYear path 0 lines.
Proof. unfold scan_lines. rewrite scan_fold. reflexivity. Qed.

Lemma issues_of_not_valid (thisYear : Z) (path : string) (lines : list text)
    (x : issue) :
  existsb (valid thisYear) lines = false ->
  In x (issues_from thisYear path 0 lines) ->
  In x (issues_of thisYear path lines).
Proof.
  intros Hv Hx. rewrite issues_of_eq, Hv.
  destruct (existsb matched lines) eqn:Hm; [exact Hx|].
  rewrite issues_from_unmatched in Hx by exact Hm. destruct Hx.
Qed.

(** C3.  A line whose end year is before the current year gives a
    year-not-current issue at its line number, with a replacement: the
    line with each header rewritten to the range from its start year to
    the current year.  The scan collects the issue, and [checkCopyright]
    returns it unless a line of the file is valid.  The line
    [Copyright (c) 2019, NVIDIA CORPORATION] in 2024 gives one issue, and
    its replacement is [Copyright (c) 2019-2024, NVIDIA CORPORATION]. *)
Theorem C3_stale_end_year_is_extended
    (thisYear : Z) (f : file_arg) (update : bool) (w w1 : world)
    (path : string) (lines : list text) (i : nat) (line : text) (s e : Z) :
  load f w = (Ok (path, lines), w1) ->
  lines !! i = Some line ->
  getCopyrightYears line = Some (s, e) ->
  e < thisYear -> thisYear <= 9999 ->
  let r := replaceCurrentYear line s thisYear in
  let x := Issue path (S i) msg_not_current (Some r) in
  In x (errs (scan_lines thisYear path lines)) /\
  (existsb (valid thisYear) lines = false ->
   exists es w', checkCopyright thisYear f update w = (Ok es, w') /\
                 In x es) /\
  getCopyrightYears r = Some (s, thisYear) /\
  Rewritten (canonical s thisYear) line r /\
  issues_of 2024 path [ txt "Copyright (c) 2019, NVIDIA CORPORATION" ] =
  [ Issue path 1 msg_not_current
      (Some (txt "Copyright (c) 2019-2024, NVIDIA CORPORATION")) ].
Proof.
  intros Hload Hl Hy He Hmax r x.
  destruct (getCopyrightYears_range line s e Hy) as [Hs He'].
  assert (Hx : In x (issues_from thisYear path 0 lines)).
  { apply (In_issues_from thisYear path lines 0 i line x Hl).
    apply (stale_end_line_issue thisYear path _ line s e); assumption. }
  split; [rewrite scan_lines_errs; exact Hx|]. split.
  { intros Hv. rewrite (checkCopyright_loaded _ _ _ _ _ _ _ Hload).
    eexists _, _. split; [reflexivity|].
    apply issues_of_not_valid; assumption. }
  split.
  { apply getCopyrightYears_replaceCurrentYear; [congruence | lia | lia]. }
  split; [apply replaceCurrentYear_Rewritten|].
  vm_compute. reflexivity.
Qed.

Lemma C3_witness :
  let blob := txt "# Copyright (c) 2019, NVIDIA CORPORATION
import os
" in
  let f := Diff "a.py" blob in
  let w := one_file "a.py" blob in
  let w1 := {| fs := fs w; log := [EvBlob "a.py" utf_8] |} in
  let line := txt "# Copyright (c) 2019, NVIDIA CORPORATION
" in
  let r := replaceCurrentYear line 2019 2024 in
  let x := Issue "a.py" 1 msg_not_current (Some r) in
  load f w = (Ok ("a.py"%string, splitlines blob), w1) /\
  splitlines blob !! 0%nat = Some line /\
  getCopyrightYears line = Some (2019, 2019) /\
  2019 < 2024 /\ 2024 <= 9999 /\
  In x (errs (scan_lines 2024 "a.py" (splitlines blob))) /\
  (existsb (valid 2024) (splitlines blob) = false ->
   exists es w', checkCopyright 2024 f true w = (Ok es, w') /\ In x es) /\
  getCopyrightYears r = Some (2019, 2024) /\
  Rewritten (canonical 2019 2024) line r /\
  issues_of 2024 "a.py" [ txt "Copyright (c) 2019, NVIDIA CORPORATION" ] =
  [ Issue "a.py" 1 msg_not_current
      (Some (txt "Copyright (c) 2019-2024, NVIDIA CORPORATION")) ].
Proof.
  intros blob f w w1 line r x.
  assert (H1 : load f w = (Ok ("a.py"%string, splitlines blob), w1))
    by (vm_compute; reflexivity).
  assert (H2 : splitlines blob !! 0%nat = Some line)
    by (vm_compute; reflexivity).
  assert (H3 : getCopyrightYears line = Some (2019, 2019))
    by (vm_compute; reflexivity).
  assert (H4 : 2019 < 2024) by lia.
  assert (H5 : 2024 <= 9999) by lia.
  refine (conj H1 (conj H2 (conj H3 (conj H4 (conj H5 _))))).
  exact (C3_stale_end_year_is_extended 2024 f true w w1 "a.py"
           (splitlines blob) 0 line 2019 2019 H1 H2 H3 H4 H5).
Defined.

(** C4, as the code has it.  A line whose start year is after the
    current year, and whose end year is not before it, gives a
    year-not-current issue whose replacement is the line with each header
    rewritten to the range from the current year to its end year. *)
Theorem C4_early_start_year_is_lowered
    (thisYear : Z) (f : file_arg) (update : bool) (w w1 : world)
    (path : string) (lines : list text) (i : nat) (line : text) (s e : Z) :
  load f w = (Ok (path, lines), w1) ->
  lines !! i = Some line ->
  getCopyrightYears line = Some (s, e) ->
  thisYear < s -> thisYear <= e -> 1 <= thisYear ->
  let r := replaceCurrentYear line thisYear e in
  let x := Issue path (S i) msg_not_current (Some r) in
  In x (errs (scan_lines thisYear path lines)) /\
  (existsb (valid thisYear) lines = false ->
   exists es w', checkCopyright thisYear f update w = (Ok es, w') /\
                 In x es) /\
  getCopyrightYears r = Some (thisYear, e) /\
  Rewritten (canonical thisYear e) line r.
Proof.
  intros Hload Hl Hy Hs He Hmin r x.
  destruct (getCopyrightYears_range line s e Hy) as [Hs' He'].
  assert (Hx : In x (issues_from thisYear path 0 lines)).
  { apply (In_issues_from thisYear path lines 0 i line x Hl).
    apply (early_start_line_issue thisYear path _ line s e); assumption. }
  split; [rewrite scan_lines_errs; exact Hx|]. split.
  { intros Hv. rewrite (checkCopyright_loaded _ _ _ _ _ _ _ Hload).
    eexists _, _. split; [reflexivity|].
    apply issues_of_not_valid; assumption. }
  split; [|apply replaceCurrentYear_Rewritten].
  apply getCopyrightYears_replaceCurrentYear; [congruence | lia | lia].
Qed.

Lemma C4_witness :
  let blob := txt "# Copyright (c) 2030-2031, NVIDIA CORPORATION
" in
  let f := Diff "a.py" blob in
  let w := one_file "a.py" blob in
  let w1 := {| fs := fs w; log := [EvBlob "a.py" utf_8] |} in
  let r := replaceCurrentYear blob 2024 2031 in
  let x := Issue "a.py" 1 msg_not_current (Some r) in
  load f w = (Ok ("a.py"%string, splitlines blob), w1) /\
  splitlines blob !! 0%nat = Some blob /\
  getCopyrightYears blob = Some (2030, 2031) /\
  2024 < 2030 /\ 2024 <= 2031 /\ 1 <= 2024 /\
  In x (errs (scan_lines 2024 "a.py" (splitlines blob))) /\
  (existsb (valid 2024) (splitlines blob) = false ->
   exists es w', checkCopyright 2024 f true w = (Ok es, w') /\ In x es) /\
  getCopyrightYears r = Some (2024, 2031) /\
  Rewritten (canonical 2024 2031) blob r.
Proof.
  intros blob f w w1 r x.
  assert (H1 : load f w = (Ok ("a.py"%string, splitlines blob), w1))
    by (vm_compute; reflexivity).
  assert (H2 : splitlines blob !! 0%nat = Some blob)
    by (vm_compute; reflexivity).
  assert (H3 : getCopyrightYears blob = Some (2030, 2031))
    by (vm_compute; reflexivity).
  assert (H4 : 2024 < 2030) by lia.
  assert (H5 : 2024 <= 2031) by lia.
  assert (H6 : 1 <= 2024) by lia.
  refine (conj H1 (conj H2 (conj H3 (conj H4 (conj H5 (conj H6 _)))))).
  exact (C4_early_start_year_is_lowered 2024 f true w w1 "a.py"
           (splitlines blob) 0 blob 2030 2031 H1 H2 H3 H4 H5 H6).
Defined.

(** C4 as it is stated fails on an inverted range around the current
    year: for [2030-2019] in 2024 the replacement has the range
    (2030, 2024), not (2024, 2019). *)
Lemma C4_counterexample :
  ~ (forall (thisYear : Z) (path : string) (line r : text) (s e : Z),
       getCopyrightYears line = Some (s, e) ->
       thisYear < s ->
       In (Issue path 1 msg_not_current (Some r))
          (issues_of thisYear path [line]) ->
       getCopyrightYears r = Some (thisYear, e)).
Proof.
  intros H.
  specialize (H 2024 "a.py"%string
    (txt "# Copyright (c) 2030-2019, NVIDIA CORPORATION")
    (txt "# Copyright (c) 2030-2024, NVIDIA CORPORATION")
    2030 2019).
  assert (E : getCopyrightYears
                (txt "# Copyright (c) 2030-2024, NVIDIA CORPORATION") =
              Some (2030, 2024)) by (vm_compute; reflexivity).
  rewrite E in H. discriminate H.
  - vm_compute. reflexivity.
  - lia.
  - vm_compute. right. left. reflexivity.
Qed.

(** ** Lines: splitting and joining *)

Lemma concat_lines_keepends (s : text) : concat (lines_keepends s) = s.
Proof.
  induction s as [|c s IH]; [reflexivity|]. cbn [lines_keepends].
  destruct (Ascii.eqb c nl).
  - cbn [concat app]. rewrite IH. reflexivity.
  - destruct (lines_keepends s) as [|l ls].
    + cbn in IH |- *. rewrite <- IH. reflexivity.
    + cbn [concat app] in IH |- *. rewrite IH. reflexivity.
Qed.


Lemma universal_newlines_id (s : text) :
  forallb not_cr s = true -> universal_newlines s = s.
Proof.
  induction s as [|c s IH]; [reflexivity|]. cbn [forallb universal_newlines].
  intros H. apply andb_true_iff in H. destruct H as [Hc Hs].
  unfold not_cr in Hc. apply negb_true_iff in Hc. rewrite Hc.
  f_equal. apply IH, Hs.
Qed.

Lemma lines_keepends_terminated (body rest : text) :
  forallb not_nl body = true ->
  lines_keepends (body ++ nl :: rest) = (body ++ [nl]) :: lines_keepends rest.
Proof.
  intros H. induction body as [|c body IH]; [reflexivity|].
  cbn [forallb] in H. apply andb_true_iff in H. destruct H as [Hc Hb].
  unfold not_nl in Hc. apply negb_true_iff in Hc.
  cbn [app lines_keepends]. rewrite Hc, (IH Hb). reflexivity.
Qed.

Lemma lines_keepends_unterminated (l : text) :
  unterminated l -> lines_keepends l = [l].
Proof.
  intros [Hne H]. induction l as [|c l IH]; [congruence|].
  cbn [forallb] in H. apply andb_true_iff in H. destruct H as [Hc Hl].
  unfold not_nl in Hc. apply negb_true_iff in Hc.
  cbn [lines_keepends]. rewrite Hc.
  destruct l as [|c' l]; [reflexivity|].
  rewrite IH; [reflexivity | discriminate | exact Hl].
Qed.

Lemma lines_keepends_concat (L : list text) :
  wf_lines L -> lines_keepends (concat L) = L.
Proof.
  induction L as [|l L IH]; [reflexivity|]. cbn [wf_lines concat].
  intros [[(body & -> & Hb) HL]|[-> Hl]].
  - rewrite <- app_assoc. cbn [app].
    rewrite lines_keepends_terminated by exact Hb. rewrite (IH HL).
    reflexivity.
  - cbn [concat]. rewrite app_nil_r. apply lines_keepends_unterminated, Hl.
Qed.

Lemma wf_lines_keepends (s : text) : wf_lines (lines_keepends s).
Proof.
  induction s as [|c s IH]; [exact I|]. cbn [lines_keepends].
  destruct (Ascii.eqb c nl) eqn:Ec.
  - apply Ascii.eqb_eq in Ec. subst c. left. split; [|exact IH].
    exists []. split; reflexivity.
  - assert (Hc : not_nl c = true) by (unfold not_nl; rewrite Ec; reflexivity).
    destruct (lines_keepends s) as [|l ls].
    + right. split; [reflexivity|]. split; [discriminate|].
      cbn. rewrite Hc. reflexivity.
    + cbn [wf_lines] in IH |- *.
      destruct IH as [[(body & -> & Hb) Hls]|[-> [Hne Hl]]].
      * left. split; [|exact Hls]. exists (c :: body).
        split; [reflexivity|]. cbn. rewrite Hc. exact Hb.
      * right. split; [reflexivity|]. split; [discriminate|].
        cbn. rewrite Hc. exact Hl.
Qed.

Lemma universal_newlines_no_cr (s : text) :
  forallb not_cr (universal_newlines s) = true.
Proof.
  remember (length s) as n eqn:Hn. revert s Hn.
  induction n as [n IH] using lt_wf_ind. intros s Hn.
  destruct s as [|c s]; [reflexivity|]. cbn [universal_newlines].
  destruct (Ascii.eqb c cr) eqn:Ec.
  - cbn [forallb]. change (not_cr nl) with true. cbn [andb].
    destruct s as [|c' s']; [reflexivity|].
    destruct (Ascii.eqb c' nl).
    + apply (IH (length s')); simpl in *; [lia | reflexivity].
    + apply (IH (length (c' :: s'))); simpl in *; [lia | reflexivity].
  - cbn [forallb]. unfold not_cr at 1. rewrite Ec. cbn [negb andb].
    apply (IH (length s)); simpl in *; [lia | reflexivity].
Qed.

(** Reading back what was written: lines that are well formed and free
    of carriage returns are read as they are. *)
Lemma readlines_concat (L : list text) :
  wf_lines L -> forallb not_cr (concat L) = true ->
  readlines (concat L) = L.
Proof.
  intros HL Hcr. unfold readlines.
  rewrite universal_newlines_id by exact Hcr.
  apply lines_keepends_concat, HL.
Qed.

Lemma readlines_wf (content : text) : wf_lines (readlines content).
Proof. apply wf_lines_keepends. Qed.

Lemma readlines_no_cr (content : text) :
  forallb not_cr (concat (readlines content)) = true.
Proof.
  unfold readlines. rewrite concat_lines_keepends.
  apply universal_newlines_no_cr.
Qed.


(** ** The shape of a rewritten line *)

Lemma Rewritten_nil (c out : text) : Rewritten c [] out -> out = [].
Proof.
  intros H. remember [] as s eqn:Es.
  destruct H as [|M rest out g HM Hocc H|x s out H1 H2 H].
  - reflexivity.
  - apply app_eq_nil in Es. destruct Es as [-> _]. congruence.
  - discriminate.
Qed.

Lemma Rewritten_forallb (P : ascii -> bool) (c s out : text) :
  forallb P c = true -> Rewritten c s out ->
  forallb P s = true -> forallb P out = true.
Proof.
  intros Hc H. induction H as [|M rest out g HM Hocc H IH|x s out H1 H2 H IH];
    intros Hs.
  - reflexivity.
  - rewrite forallb_app in Hs |- *. apply andb_true_iff in Hs.
    destruct Hs as [_ Hs]. rewrite Hc, (IH Hs). reflexivity.
  - cbn [forallb] in Hs |- *. apply andb_true_iff in Hs.
    destruct Hs as [Hx Hs]. rewrite Hx, (IH Hs). reflexivity.
Qed.

Lemma Rewritten_nonempty (c s out : text) :
  c <> [] -> Rewritten c s out -> s <> [] -> out <> [].
Proof.
  intros Hc H Hs. destruct H as [|M rest out g HM Hocc H|x s out H1 H2 H].
  - congruence.
  - destruct c; [congruence | discriminate].
  - discriminate.
Qed.

Lemma brk_not_nl (u : text) :
  forallb not_brk u = true -> forallb not_nl u = true.
Proof.
  induction u as [|x u IH]; [reflexivity|]. cbn [forallb]. intros H.
  apply andb_true_iff in H. destruct H as [Hx H].
  apply andb_true_iff in Hx. destruct Hx as [Hx _].
  rewrite Hx. apply IH, H.
Qed.

Lemma brk_not_cr (u : text) :
  forallb not_brk u = true -> forallb not_cr u = true.
Proof.
  induction u as [|x u IH]; [reflexivity|]. cbn [forallb]. intros H.
  apply andb_true_iff in H. destruct H as [Hx H].
  apply andb_true_iff in Hx. destruct Hx as [_ Hx].
  rewrite Hx. apply IH, H.
Qed.

Lemma Rewritten_terminated (c s out : text) :
  forallb not_nl c = true -> Rewritten c s out ->
  terminated s -> terminated out.
Proof.
  intros Hc H. induction H as [|M rest out g HM Hocc H IH|x s out H1 H2 H IH];
    intros (body & E & Hb).
  - destruct body; discriminate.
  - apply occurrence_span in Hocc. destruct Hocc as [(_ & _ & HMb) _].
    apply brk_not_nl in HMb.
    assert (Hrest : terminated rest).
    { apply app_eq_app in E. destruct E as [l [[E1 E2]|[E1 E2]]].
      - destruct l as [|y l].
        + cbn in E2. subst rest. exists []. split; reflexivity.
        + exfalso. injection E2 as <- E2.
          apply eq_sym, app_eq_nil in E2. destruct E2 as [-> ->].
          subst M. rewrite forallb_app in HMb. cbn in HMb.
          rewrite andb_false_r in HMb. discriminate.
      - exists l. split; [exact E2|]. subst body.
        rewrite forallb_app in Hb. apply andb_true_iff in Hb. apply Hb. }
    destruct (IH Hrest) as (ob & -> & Hob).
    exists (c ++ ob). split; [apply app_assoc|].
    rewrite forallb_app, Hc, Hob. reflexivity.
  - destruct body as [|y body].
    + injection E as -> ->. apply Rewritten_nil in H. subst out.
      exists []. split; reflexivity.
    + injection E as <- E. cbn [forallb] in Hb.
      apply andb_true_iff in Hb. destruct Hb as [Hx Hb].
      destruct IH as (ob & -> & Hob); [exists body; split; assumption|].
      exists (x :: ob). split; [reflexivity|]. cbn. rewrite Hx, Hob.
      reflexivity.
Qed.

Lemma canonical_plain (a b : Z) :
  0 <= a <= 9999 -> 0 <= b <= 9999 ->
  forallb not_brk (canonical a b) = true.
Proof.
  intros Ha Hb.
  apply (double_span_header _ _ _ (canonical_double_span a b Ha Hb)).
Qed.

(** Rewriting a line keeps it a line: its terminator stays where it is
    and no carriage return appears. *)
Lemma replaceCurrentYear_line (line : text) (a b : Z) :
  0 <= a <= 9999 -> 0 <= b <= 9999 ->
  (terminated line -> terminated (replaceCurrentYear line a b)) /\
  (unterminated line -> unterminated (replaceCurrentYear line a b)) /\
  (forallb not_cr line = true ->
   forallb not_cr (replaceCurrentYear line a b) = true).
Proof.
  intros Ha Hb.
  pose proof (replaceCurrentYear_Rewritten line a b) as HR.
  pose proof (canonical_plain a b Ha Hb) as Hc.
  split; [|split].
  - apply (Rewritten_terminated _ _ _ (brk_not_nl _ Hc) HR).
  - intros [Hne Hl]. split.
    + apply (Rewritten_nonempty _ _ _ (canonical_cop_nonempty a b) HR Hne).
    + apply (Rewritten_forallb not_nl _ _ _ (brk_not_nl _ Hc) HR Hl).
  - apply (Rewritten_forallb not_cr _ _ _ (brk_not_cr _ Hc) HR).
Qed.

(** The relation leaves no choice: a line has one rewriting. *)
Lemma occurrence_determined (s rest rest' : text) (g g' : caps) :
  match_at CheckSimple s = Some (g, rest) \/
  match_at CheckDouble s = Some (g, rest) ->
  match_at CheckSimple s = Some (g', rest') \/
  match_at CheckDouble s = Some (g', rest') ->
  rest = rest'.
Proof.
  rewrite match_at_CheckSimple, match_at_CheckDouble.
  intros [H1|H1] [H2|H2]; try congruence.
  - apply simple_not_double in H1. congruence.
  - apply double_not_simple in H1. congruence.
Qed.

Lemma Rewritten_functional (c s out1 out2 : text) :
  Rewritten c s out1 -> Rewritten c s out2 -> out1 = out2.
Proof.
  intros H1. revert out2.
  induction H1 as [|M rest out g HM Hocc H IH|x s out N1 N2 H IH];
    intros out2 H2.
  - apply Rewritten_nil in H2. congruence.
  - remember (M ++ rest) as s0 eqn:Es.
    destruct H2 as [|M' rest' out' g' HM' Hocc' H'|x s out' N1 N2 H'].
    + apply eq_sym, app_eq_nil in Es. destruct Es as [-> _]. congruence.
    + pose proof (occurrence_determined _ _ _ _ _ Hocc Hocc') as ->.
      f_equal. apply IH, H'.
    + destruct Hocc; congruence.
  - remember (x :: s) as s0 eqn:Es.
    destruct H2 as [|M' rest' out' g' HM' Hocc' H'|x' s' out' N1' N2' H'].
    + discriminate.
    + destruct Hocc'; congruence.
    + injection Es as -> ->. f_equal. apply IH, H'.
Qed.

(** C10.  [replaceCurrentYear] with years between 0 and 9999 rewrites a
    line from left to right: wherever one of the two patterns matches,
    the match is replaced by
    [Copyright (c) START-END, NVIDIA CORPORATION] with the four digits of
    each year, whatever the form of the header was; every other character
    is kept.  A line that matches neither pattern is returned as it is. *)
Theorem C10_replaceCurrentYear_canonical_text
    (line : text) (start end_ : Z) :
  0 <= start <= 9999 -> 0 <= end_ <= 9999 ->
  let c := txt "Copyright (c) " ++ four_digit_text start ++ txt "-" ++
           four_digit_text end_ ++ txt ", NVIDIA CORPORATION" in
  Rewritten c line (replaceCurrentYear line start end_) /\
  (forall out, Rewritten c line out ->
               out = replaceCurrentYear line start end_) /\
  (search CheckSimple line = None -> search CheckDouble line = None ->
   replaceCurrentYear line start end_ = line) /\
  four_digits (four_digit_text start) /\
  four_digits (four_digit_text end_) /\
  int_of (four_digit_text start) = start /\
  int_of (four_digit_text end_) = end_.
Proof.
  intros Hs He c.
  assert (Ec : c = canonical start end_).
  { unfold c, canonical. rewrite !format_04d_four by assumption.
    reflexivity. }
  assert (HR : Rewritten c line (replaceCurrentYear line start end_)).
  { rewrite Ec. apply replaceCurrentYear_Rewritten. }
  split; [exact HR|]. split.
  { intros out Hout. apply (Rewritten_functional c line); assumption. }
  split; [apply replaceCurrentYear_no_match|].
  split; [apply four_digit_text_digits, Hs|].
  split; [apply four_digit_text_digits, He|].
  split; apply int_of_four_digit_text; assumption.
Qed.

Lemma C10_witness :
  let line := txt "# Copyright 2019 NVIDIA Corporation. All rights reserved." in
  let c := txt "Copyright (c) " ++ four_digit_text 2019 ++ txt "-" ++
           four_digit_text 2024 ++ txt ", NVIDIA CORPORATION" in
  0 <= 2019 <= 9999 /\ 0 <= 2024 <= 9999 /\
  replaceCurrentYear line 2019 2024 =
    txt "# Copyright (c) 2019-2024, NVIDIA CORPORATION. All rights reserved." /\
  Rewritten c line (replaceCurrentYear line 2019 2024).
Proof.
  intros line c.
  assert (H1 : 0 <= 2019 <= 9999) by lia.
  assert (H2 : 0 <= 2024 <= 9999) by lia.
  refine (conj H1 (conj H2 (conj _ _))).
  - vm_compute. reflexivity.
  - exact (proj1 (C10_replaceCurrentYear_canonical_text line 2019 2024 H1 H2)).
Defined.

(** ** The fixable issues of a file and the lines they rewrite *)

Lemma load_inv (f : file_arg) (w w1 : world) (path : string)
    (lines : list text) :
  load f w = (Ok (path, lines), w1) ->
  fs w1 = fs w /\
  ((f = Path path /\ log w1 = log w ++ [EvRead path utf_8] /\
    exists content, fs w !! path = Some content /\
                    lines = readlines content) \/
   (exists blob, f = Diff path blob /\
                 log w1 = log w ++ [EvBlob path utf_8] /\
                 lines = splitlines blob)).
Proof.
  destruct f as [p|p blob]; cbn [load].
  - unfold bind, read_lines, ret.
    destruct (fs w !! p) as [content|] eqn:E; [|discriminate].
    intros [= <- <- <-]. cbn. split; [reflexivity|]. left.
    split; [reflexivity|]. split; [reflexivity|]. exists content. auto.
  - unfold bind, emit, ret. intros [= <- <- <-]. cbn.
    split; [reflexivity|]. right. exists blob. auto.
Qed.

Lemma In_filter_fixable (l : list issue) (x : issue) :
  In x (filter fixable l) <-> In x l /\ fixable x.
Proof.
  rewrite <- !list_elem_of_In, list_elem_of_filter. tauto.
Qed.


Lemma fix_issue_In (thisYear : Z) (path : string) (n i : nat)
    (lines : list text) (line r : text) :
  lines !! i = Some line -> fix_of thisYear line = Some r ->
  In (Issue path (S (n + i)) msg_not_current (Some r))
     (issues_from thisYear path n lines).
Proof.
  intros Hl Hf. apply (In_issues_from thisYear path lines n i line); [exact Hl|].
  assert (H : In (Issue path (S (n + i)) msg_not_current (Some r))
                (filter fixable (line_issues thisYear path (S (n + i)) line))).
  { rewrite fixable_line_issues, Hf. left. reflexivity. }
  apply In_filter_fixable in H. apply H.
Qed.





(** ** Running the fix twice *)

Lemma patch_line_cases (thisYear : Z) (line : text) :
  0 <= thisYear <= 9999 ->
  patch_line thisYear line = line \/
  exists a b, 0 <= a <= 9999 /\ 0 <= b <= 9999 /\
              patch_line thisYear line = replaceCurrentYear line a b.
Proof.
  intros Hy. unfold patch_line, fix_of.
  destruct (getCopyrightYears line) as [[s e]|] eqn:E; [|left; reflexivity].
  destruct (getCopyrightYears_range line s e E) as [Hs He].
  destruct (e <? thisYear).
  - right. exists s, thisYear. auto.
  - destruct (thisYear <? s); [|left; reflexivity].
    right. exists thisYear, e. auto.
Qed.

Lemma wf_lines_map (g : text -> text) (L : list text) :
  (forall l, terminated l -> terminated (g l)) ->
  (forall l, unterminated l -> unterminated (g l)) ->
  wf_lines L -> wf_lines (map g L).
Proof.
  intros Ht Hu. induction L as [|l L IH]; [trivial|].
  cbn [wf_lines map]. intros [[Hl HL]|[-> Hl]].
  - left. split; [apply Ht, Hl | apply IH, HL].
  - right. split; [reflexivity | apply Hu, Hl].
Qed.

Lemma forallb_concat_map (P : ascii -> bool) (g : text -> text)
    (L : list text) :
  (forall l, forallb P l = true -> forallb P (g l) = true) ->
  forallb P (concat L) = true -> forallb P (concat (map g L)) = true.
Proof.
  intros Hg. induction L as [|l L IH]; [trivial|].
  cbn [concat map]. rewrite !forallb_app. intros H.
  apply andb_true_iff in H. destruct H as [Hl HL].
  rewrite (Hg l Hl), (IH HL). reflexivity.
Qed.

(** The lines the fix writes are read back as they were written. *)
Lemma readlines_patched (thisYear : Z) (content : text) :
  0 <= thisYear <= 9999 ->
  readlines (concat (map (patch_line thisYear) (readlines content))) =
  map (patch_line thisYear) (readlines content).
Proof.
  intros Hy. apply readlines_concat.
  - apply wf_lines_map; [| |apply readlines_wf]; intros l Hl;
      destruct (patch_line_cases thisYear l Hy)
        as [->|(a & b & Ha & Hb & ->)]; try exact Hl;
      apply (replaceCurrentYear_line l a b Ha Hb); exact Hl.
  - apply forallb_concat_map; [|apply readlines_no_cr]. intros l Hl.
    destruct (patch_line_cases thisYear l Hy)
      as [->|(a & b & Ha & Hb & ->)]; [exact Hl|].
    apply (replaceCurrentYear_line l a b Ha Hb); exact Hl.
Qed.

(** A line with a header becomes valid by the fix, unless its years are
    in the wrong order around the current year. *)
Lemma patch_line_valid (thisYear : Z) (line : text) (s e : Z) :
  0 <= thisYear <= 9999 ->
  getCopyrightYears line = Some (s, e) ->
  ~ (e < thisYear < s) ->
  valid thisYear line = false ->
  valid thisYear (patch_line thisYear line) = true.
Proof.
  intros Hy Hl Hns Hv.
  destruct (getCopyrightYears_range line s e Hl) as [Hs He].
  unfold valid in Hv. rewrite Hl in Hv.
  unfold patch_line, fix_of. rewrite Hl.
  destruct (e <? thisYear) eqn:E1.
  - apply Z.ltb_lt in E1. cbn [default]. unfold id, valid.
    rewrite getCopyrightYears_replaceCurrentYear by (congruence || lia).
    apply andb_true_iff. split; apply Z.leb_le; lia.
  - apply Z.ltb_ge in E1. destruct (thisYear <? s) eqn:E2.
    + apply Z.ltb_lt in E2. cbn [default]. unfold id, valid.
      rewrite getCopyrightYears_replaceCurrentYear by (congruence || lia).
      apply andb_true_iff. split; apply Z.leb_le; lia.
    + apply Z.ltb_ge in E2. apply andb_false_iff in Hv.
      destruct Hv as [Hv|Hv]; apply Z.leb_gt in Hv; lia.
Qed.

Lemma load_Path (p : string) (content : text) (w : world) :
  fs w !! p = Some content ->
  load (Path p) w =
  (Ok (p, readlines content),
   {| fs := fs w; log := log w ++ [EvRead p utf_8] |}).
Proof.
  intros H. cbn [load]. unfold bind, read_lines, ret. rewrite H.
  reflexivity.
Qed.

(** C5, as the code has it.  A file on disk one of whose lines carries
    a header, with years other than start > current year > end, is clean
    after one run with the fix: a second run reads it, reports no issue,
    prints nothing and writes nothing. *)
Theorem C5_second_run_reports_nothing
    (thisYear : Z) (p : string) (content : text) (w : world)
    (line : text) (s e : Z) :
  fs w !! p = Some content ->
  1 <= thisYear <= 9999 ->
  In line (readlines content) ->
  getCopyrightYears line = Some (s, e) ->
  ~ (e < thisYear < s) ->
  exists es1 w1,
    checkCopyright thisYear (Path p) true w = (Ok es1, w1) /\
    checkCopyright thisYear (Path p) true w1 =
      (Ok [], {| fs := fs w1; log := log w1 ++ [EvRead p utf_8] |}).
Proof.
  intros Hfs Hy HIn Hl Hns.
  set (L := readlines content).
  rewrite (checkCopyright_loaded _ _ _ _ _ _ _ (load_Path p content w Hfs)).
  eexists _, _. split; [reflexivity|].
  fold L. unfold writes. cbn [andb].
  assert (Hm : existsb matched L = true).
  { apply existsb_exists. exists line. split; [exact HIn|].
    unfold matched. rewrite Hl. reflexivity. }
  rewrite Hm, andb_true_r.
  destruct (existsb (valid thisYear) L) eqn:Hv; cbn [negb].
  - (* a line was valid: nothing was written *)
    rewrite (checkCopyright_loaded _ _ _ _ _ p L
               (load_Path p content
                  {| fs := fs w; log := log w ++ [EvRead p utf_8] |} Hfs)).
    rewrite issues_of_eq, Hv. unfold writes. rewrite Hv, andb_false_r.
    reflexivity.
  - (* the fix was written: it is read back, and has a valid line *)
    set (L' := map (patch_line thisYear) L).
    assert (Hfs' : fs (patched_world thisYear p L
                         {| fs := fs w; log := log w ++ [EvRead p utf_8] |})
                   !! p = Some (concat L')).
    { cbn [patched_world fs]. apply lookup_insert_eq. }
    rewrite (checkCopyright_loaded _ _ _ _ _ p (readlines (concat L'))
               (load_Path p (concat L')
                  (patched_world thisYear p L
                     {| fs := fs w; log := log w ++ [EvRead p utf_8] |})
                  Hfs')).
    unfold L', L. rewrite readlines_patched by lia. fold L. fold L'.
    assert (Hv' : existsb (valid thisYear) L' = true).
    { apply existsb_exists. exists (patch_line thisYear line).
      split; [apply in_map, HIn|].
      apply (patch_line_valid thisYear line s e); [lia | exact Hl | exact Hns|].
      destruct (valid thisYear line) eqn:E; [|reflexivity].
      assert (existsb (valid thisYear) L = true)
        by (apply existsb_exists; exists line; auto).
      congruence. }
    rewrite issues_of_eq, Hv'. unfold writes. rewrite Hv', andb_false_r.
    reflexivity.
Qed.

Lemma C5_witness :
  let content := txt "# Copyright (c) 2019, NVIDIA CORPORATION
import os
" in
  let w := one_file "a.py" content in
  let line := txt "# Copyright (c) 2019, NVIDIA CORPORATION
" in
  fs w !! "a.py"%string = Some content /\
  1 <= 2024 <= 9999 /\
  In line (readlines content) /\
  getCopyrightYears line = Some (2019, 2019) /\
  ~ (2019 < 2024 < 2019) /\
  exists es1 w1,
    checkCopyright 2024 (Path "a.py") true w = (Ok es1, w1) /\
    checkCopyright 2024 (Path "a.py") true w1 =
      (Ok [], {| fs := fs w1; log := log w1 ++ [EvRead "a.py" utf_8] |}).
Proof.
  intros content w line.
  assert (H1 : fs w !! "a.py"%string = Some content)
    by (vm_compute; reflexivity).
  assert (H2 : 1 <= 2024 <= 9999) by lia.
  assert (H3 : In line (readlines content))
    by (vm_compute; left; reflexivity).
  assert (H4 : getCopyrightYears line = Some (2019, 2019))
    by (vm_compute; reflexivity).
  assert (H5 : ~ (2019 < 2024 < 2019)) by lia.
  refine (conj H1 (conj H2 (conj H3 (conj H4 (conj H5 _))))).
  exact (C5_second_run_reports_nothing 2024 "a.py" content w line
           2019 2019 H1 H2 H3 H4 H5).
Defined.

(** C5 as it is stated fails on a file without a header: the second run
    reports the missing header again. *)
Lemma C5_counterexample :
  ~ (forall (thisYear : Z) (p : string) (content : text)
            (es1 es2 : list issue) (w1 w2 : world),
       checkCopyright thisYear (Path p) true (one_file p content) =
         (Ok es1, w1) ->
       checkCopyright thisYear (Path p) true w1 = (Ok es2, w2) ->
       es2 = [] /\ fs w2 = fs w1).
Proof.
  intros H.
  pose (content := txt "import os
").
  pose (r1 := checkCopyright 2024 (Path "a.py") true (one_file "a.py" content)).
  pose (r2 := checkCopyright 2024 (Path "a.py") true (snd r1)).
  specialize (H 2024 "a.py"%string content
                [ Issue "a.py" 0 msg_missing None ]
                [ Issue "a.py" 0 msg_missing None ] (snd r1) (snd r2)).
  destruct H as [H _].
  - vm_compute. reflexivity.
  - vm_compute. reflexivity.
  - discriminate H.
Qed.

(** Nor is every fixable file clean after one run: the range [2030-2019]
    in 2024 is rewritten to [2030-2024] by the first run, and the second
    run reports two issues and rewrites the line to [2024-2024]. *)
Lemma second_run_rewrites_again :
  let content := txt "# Copyright (c) 2030-2019, NVIDIA CORPORATION
" in
  let r1 := checkCopyright 2024 (Path "a.py") true (one_file "a.py" content) in
  let r2 := checkCopyright 2024 (Path "a.py") true (snd r1) in
  fs (snd r1) !! "a.py"%string =
    Some (txt "# Copyright (c) 2030-2024, NVIDIA CORPORATION
") /\
  fs (snd r2) !! "a.py"%string =
    Some (txt "# Copyright (c) 2024-2024, NVIDIA CORPORATION
") /\
  fst r2 =
    Ok [ Issue "a.py" 1 msg_inverted None;
         Issue "a.py" 1 msg_not_current
           (Some (txt "# Copyright (c) 2024-2024, NVIDIA CORPORATION
")) ].
Proof. vm_compute. repeat split; reflexivity. Qed.

(** ** The main function *)

Lemma checkThisFile_exists (exempt : list regex) (w : world) (f : file_arg) :
  checkThisFile exempt w f = true -> is_Some (fs w !! path_of f).
Proof.
  unfold checkThisFile. destruct (fs w !! path_of f); [eauto | discriminate].
Qed.

Lemma load_total (f : file_arg) (w : world) :
  is_Some (fs w !! path_of f) ->
  exists lines w1, load f w = (Ok (path_of f, lines), w1).
Proof.
  intros [content H]. destruct f as [p|p blob]; cbn [path_of] in H |- *.
  - rewrite (load_Path p content w H). eauto.
  - cbn [load]. unfold bind, emit, ret. eauto.
Qed.

(** [checkCopyright] on a file that exists returns its issues, and no
    file appears or disappears. *)
Lemma checkCopyright_total (thisYear : Z) (f : file_arg) (update : bool)
    (w : world) :
  is_Some (fs w !! path_of f) ->
  exists es w',
    checkCopyright thisYear f update w = (Ok es, w') /\
    dom (fs w') = dom (fs w).
Proof.
  intros Hex. destruct (load_total f w Hex) as (lines & w1 & Hload).
  rewrite (checkCopyright_loaded _ _ _ _ _ _ _ Hload).
  destruct (load_inv _ _ _ _ _ Hload) as [Hfs _].
  eexists _, _. split; [reflexivity|].
  destruct (writes thisYear update lines).
  - cbn [patched_world fs]. rewrite Hfs, dom_insert_L.
    apply elem_of_dom in Hex.
    apply subseteq_union_1_L, singleton_subseteq_l, Hex.
  - rewrite Hfs. reflexivity.
Qed.

Lemma check_all_total (E : env) (update : bool) (files : list file_arg)
    (acc : list issue) (w : world) :
  (forall f, In f files -> is_Some (fs w !! path_of f)) ->
  exists errors w', check_all E update files acc w = (Ok errors, w').
Proof.
  revert acc w. induction files as [|f files IH]; intros acc w Hex.
  - cbn. unfold ret. eauto.
  - cbn [check_all]. unfold bind at 1.
    destruct (checkCopyright_total (now_year E) f update w)
      as (es & w' & Hrun & Hdom); [apply Hex; left; reflexivity|].
    rewrite Hrun. apply IH. intros f' Hf'.
    apply elem_of_dom. rewrite Hdom. apply elem_of_dom, Hex.
    right. exact Hf'.
Qed.

Lemma In_filter_checkThisFile (exempt : list regex) (w : world)
    (l : list file_arg) (f : file_arg) :
  In f (List.filter (checkThisFile exempt w) l) ->
  is_Some (fs w !! path_of f).
Proof.
  intros H. apply filter_In in H. destruct H as [_ H].
  apply (checkThisFile_exists exempt w f H).
Qed.

(** The loop over the directories: with directories only it returns
    files that exist, after walks only; at the first argument that is no
    directory it raises, after walks only. *)
Lemma collect_dirs_spec (E : env) (exempt : list regex) (ds : list string)
    (files : list file_arg) (w : world) :
  (forall f, In f files -> is_Some (fs w !! path_of f)) ->
  exists r l,
    collect_dirs E exempt ds files w =
      (r, {| fs := fs w; log := log w ++ l |}) /\
    walk_events l /\
    match r with
    | Ok files' =>
        (forall d, In d ds -> isdir E d = true) /\
        (forall f, In f files' -> is_Some (fs w !! path_of f))
    | Raise e =>
        exists d, e = ValueError d /\ In d ds /\ isdir E d = false
    end.
Proof.
  revert files w. induction ds as [|d ds IH]; intros files w Hex.
  - exists (Ok files), []. cbn. unfold ret. rewrite app_nil_r.
    destruct w. split; [reflexivity|]. split; [constructor|].
    split; [intros d []|exact Hex].
  - cbn [collect_dirs]. destruct (isdir E d) eqn:Hd.
    + unfold bind at 1. unfold getAllFilesUnderDir, bind, emit.
      cbn [fs log].
      set (w1 := {| fs := fs w; log := log w ++ [EvWalk d] |}).
      set (more := List.filter (checkThisFile exempt w1)
                     (map Path (walk E d))).
      destruct (IH (files ++ more) w1) as (r & l & Hrun & Hl & Hr).
      { intros f Hf. apply in_app_or in Hf. destruct Hf as [Hf|Hf].
        - apply Hex, Hf.
        - apply (In_filter_checkThisFile exempt w1 _ f Hf). }
      exists r, (EvWalk d :: l). rewrite Hrun. cbn [w1 fs log].
      rewrite <- app_assoc. split; [reflexivity|].
      split; [constructor; [eauto | exact Hl]|].
      destruct r as [files'|e].
      * destruct Hr as [Hds Hfiles]. split; [|exact Hfiles].
        intros d' [<-|Hd']; [exact Hd | apply Hds, Hd'].
      * destruct Hr as (d' & -> & Hd' & Hnd). exists d'.
        split; [reflexivity|]. split; [right; exact Hd' | exact Hnd].
    + exists (Raise (ValueError d)), []. unfold raise.
      rewrite app_nil_r. destruct w. split; [reflexivity|].
      split; [constructor|]. exists d.
      split; [reflexivity|]. split; [left; reflexivity | exact Hd].
Qed.

Lemma bind_returns {A B : Type} (m : io A) (k : A -> io B) (a : A) (b : B) :
  (forall w, exists w', m w = (Ok a, w')) ->
  (forall w, exists w', k a w = (Ok b, w')) ->
  forall w, exists w', bind m k w = (Ok b, w').
Proof.
  intros Hm Hk w. unfold bind. destruct (Hm w) as [w1 ->]. apply Hk.
Qed.

Lemma print_returns (p : printed) (w : world) :
  exists w', print p w = (Ok tt, w').
Proof. unfold print, emit. eauto. Qed.

Lemma ret_returns {A : Type} (a : A) (w : world) :
  exists w', ret a w = (Ok a, w').
Proof. unfold ret. eauto. Qed.

Lemma print_issues_returns (l : list issue) (w : world) :
  exists w', print_issues l w = (Ok tt, w').
Proof.
  revert w. induction l as [|x l IH]; intros w; cbn [print_issues].
  - apply ret_returns.
  - apply (bind_returns _ _ tt tt); [apply print_returns | exact IH].
Qed.

Lemma report_status (errors : list issue) (w : world) :
  exists w',
    report errors w =
    (Ok (match errors with [] => 0 | _ :: _ => 1 end), w').
Proof.
  unfold report. destruct errors as [|e errors].
  - apply ret_returns.
  - cbn [length Nat.ltb Nat.leb]. revert w.
    apply (bind_returns _ _ tt 1).
    { intros w. destruct (existsb _ (e :: errors));
        [apply print_returns | apply ret_returns]. }
    apply (bind_returns _ _ tt 1); [apply print_issues_returns|].
    apply (bind_returns _ _ tt 1); [apply print_returns|].
    apply (bind_returns _ _ tt 1); [|apply ret_returns].
    intros w. destruct (length (filter fixable (e :: errors)));
      [apply ret_returns | apply print_returns].
Qed.

Lemma compile_all_None (E : env) (ps : list string) (p : string) :
  In p ps -> re_compile E p = None -> compile_all E ps = None.
Proof.
  induction ps as [|q ps IH]; intros HIn Hp; [destruct HIn|].
  cbn [compile_all]. destruct HIn as [->|HIn].
  - rewrite Hp. reflexivity.
  - destruct (re_compile E q); [|reflexivity].
    rewrite (IH HIn Hp). reflexivity.
Qed.

Lemma select_files_returns (E : env) (args : arguments)
    (exempt : list regex) (dirs : list string) (w : world) :
  git_modified_only args = true \/
  (forall d, In d dirs -> isdir E (abspath E d) = true) ->
  exists files w1,
    select_files E args exempt dirs w = (Ok files, w1) /\
    fs w1 = fs w /\
    (forall f, In f files -> is_Some (fs w1 !! path_of f)).
Proof.
  intros H. unfold select_files.
  destruct (git_modified_only args) eqn:Hg.
  - unfold bind, print, emit, ret. cbn [fs log].
    eexists _, _. split; [reflexivity|]. split; [reflexivity|].
    cbn [fs]. intros f Hf.
    apply (In_filter_checkThisFile exempt _ _ f Hf).
  - destruct H as [H|H]; [discriminate|].
    destruct (collect_dirs_spec E exempt (map (abspath E) dirs) [] w)
      as (r & l & Hrun & _ & Hr); [intros f []|].
    destruct r as [files|e].
    + destruct Hr as [_ Hfiles].
      exists files, {| fs := fs w; log := log w ++ l |}.
      split; [exact Hrun|]. split; [reflexivity | exact Hfiles].
    + destruct Hr as (d & _ & Hd & Hnd). apply in_map_iff in Hd.
      destruct Hd as (d0 & <- & Hd0). rewrite (H d0 Hd0) in Hnd.
      discriminate.
Qed.

(** The issues of a blob do not depend on the files: after a fix, a run
    on the same blob reports what the first run reported, until the fix
    is staged. *)
Lemma checkCopyright_blob_issues (thisYear : Z) (p : string) (blob : text)
    (update : bool) (w : world) :
  fst (checkCopyright thisYear (Diff p blob) update w) =
  Ok (issues_of thisYear p (splitlines blob)).
Proof.
  erewrite checkCopyright_loaded; [reflexivity|].
  cbn [load]. unfold bind, emit, ret. reflexivity.
Qed.

(** * Further properties of the code *)

(** ** The header patterns *)

(** X1.  The single-year pattern matches at the head of a text exactly
    when the text starts with [Copyright], spaces, an optional [(c)],
    spaces, four digits, an optional comma, spaces, [NVIDIA C] and
    [ORPORATION] or [orporation]; the match ends there, and group 1 is
    the four digits. *)
Theorem X1_CheckSimple_matches_single_year_headers
    (s : text) (g : caps) (r : text) :
  match_at CheckSimple s = Some (g, r) <->
  exists M d, s = M ++ r /\ g = [(1%nat, d)] /\ simple_span M d.
Proof.
  rewrite match_at_CheckSimple. split.
  - apply direct_simple_inv.
  - intros (M & d & -> & -> & H). apply direct_simple_intro, H.
Qed.

(** X2.  The year-range pattern matches at the head of a text exactly
    when the text starts with a header of the same form with two groups
    of four digits and a [-] between them; groups 1 and 2 are the two
    years.  No text starts with a match of both patterns. *)
Theorem X2_CheckDouble_matches_year_range_headers
    (s : text) (g : caps) (r : text) :
  (match_at CheckDouble s = Some (g, r) <->
   exists M d1 d2, s = M ++ r /\ g = [(2%nat, d2); (1%nat, d1)] /\
                   double_span M d1 d2) /\
  (match_at CheckSimple s = None \/ match_at CheckDouble s = None).
Proof.
  rewrite match_at_CheckSimple, match_at_CheckDouble. split.
  - split.
    + apply direct_double_inv.
    + intros (M & d1 & d2 & -> & -> & H). apply direct_double_intro, H.
  - destruct (direct_double s) as [[g' r']|] eqn:E; [|right; reflexivity].
    left. apply (double_not_simple s g' r' E).
Qed.

(** ** The years of a line *)

(** X3.  [getCopyrightYears] finds no years exactly when neither
    pattern matches anywhere in the line.  The years it finds are
    between 0 and 9999, and they are equal as soon as the single-year
    pattern matches somewhere in the line, even after a year range. *)
Theorem X3_getCopyrightYears_years (line : text) :
  (getCopyrightYears line = None <->
   search CheckSimple line = None /\ search CheckDouble line = None) /\
  (forall s e, getCopyrightYears line = Some (s, e) ->
     0 <= s <= 9999 /\ 0 <= e <= 9999 /\
     (search CheckSimple line <> None -> s = e)).
Proof.
  split.
  - unfold getCopyrightYears.
    destruct (search CheckSimple line) as [[[? ?] ?]|].
    { split; [discriminate | intros [H _]; discriminate]. }
    destruct (search CheckDouble line) as [[[? ?] ?]|].
    { split; [discriminate | intros [_ H]; discriminate]. }
    split; auto.
  - intros s e H.
    destruct (getCopyrightYears_range line s e H) as [Hs He].
    split; [exact Hs|]. split; [exact He|].
    unfold getCopyrightYears in H.
    destruct (search CheckSimple line) as [[[? ?] ?]|]; [|congruence].
    intros _. congruence.
Qed.

(** X4.  Writing years and reading them back: on a line with a header,
    the years of the line rewritten with two years between 0 and 9999
    are these two years. *)
Theorem X4_years_written_are_read_back (line : text) (a b : Z) :
  getCopyrightYears line <> None ->
  0 <= a <= 9999 -> 0 <= b <= 9999 ->
  getCopyrightYears (replaceCurrentYear line a b) = Some (a, b).
Proof. apply getCopyrightYears_replaceCurrentYear. Qed.

Lemma X4_witness :
  let line := txt "# Copyright 2019 NVIDIA Corporation" in
  getCopyrightYears line <> None /\
  0 <= 7 <= 9999 /\ 0 <= 2024 <= 9999 /\
  getCopyrightYears (replaceCurrentYear line 7 2024) = Some (7, 2024).
Proof.
  intros line.
  assert (H1 : getCopyrightYears line <> None)
    by (vm_compute; discriminate).
  assert (H2 : 0 <= 7 <= 9999) by lia.
  assert (H3 : 0 <= 2024 <= 9999) by lia.
  refine (conj H1 (conj H2 (conj H3 _))).
  exact (X4_years_written_are_read_back line 7 2024 H1 H2 H3).
Defined.

(** ** Rewriting a line more than once *)

Lemma Rewritten_again (c c' d1 d2 s o1 o2 : text) :
  double_span c d1 d2 ->
  Rewritten c s o1 -> Rewritten c' s o2 -> Rewritten c' o1 o2.
Proof.
  intros Hc H1.
  assert (Hcop : strip_lit (txt "Cop") c <> None)
    by (apply double_span_header in Hc; apply Hc).
  revert o2.
  induction H1 as [|M rest out g HM Hocc H IH|x s out N1 N2 H IH];
    intros o2 H2.
  - exact H2.
  - remember (M ++ rest) as s0 eqn:Es.
    destruct H2 as [|M' rest' out' g' HM' Hocc' H'|x s out' N1 N2 H'].
    + apply eq_sym, app_eq_nil in Es. destruct Es as [-> _]. congruence.
    + pose proof (occurrence_determined _ _ _ _ _ Hocc Hocc') as ->.
      apply (Rw_occ c' c out out' [(2%nat, d2); (1%nat, d1)]).
      * eapply header_span_nonempty, double_span_header, Hc.
      * right. rewrite match_at_CheckDouble.
        apply direct_double_intro, Hc.
      * apply IH, H'.
    + destruct Hocc; congruence.
  - remember (x :: s) as s0 eqn:Es.
    destruct H2 as [|M' rest' out' g' HM' Hocc' H'|x' s' out' N1' N2' H'].
    + discriminate.
    + destruct Hocc'; congruence.
    + injection Es as -> ->.
      pose proof (Rewritten_same_until_cop c s out Hcop H) as Hsame.
      apply Rw_keep.
      * rewrite match_at_CheckSimple in *.
        eapply spanning_stable; eauto using spanning_simple.
      * rewrite match_at_CheckDouble in *.
        eapply spanning_stable; eauto using spanning_double.
      * apply IH, H'.
Qed.

(** X5.  The last rewriting wins: a line rewritten with two years
    between 0 and 9999 and then with two other years is the line
    rewritten with the other years; in particular rewriting twice with
    the same years is rewriting once. *)
Theorem X5_replaceCurrentYear_last_years_win
    (line : text) (a b a' b' : Z) :
  0 <= a <= 9999 -> 0 <= b <= 9999 ->
  replaceCurrentYear (replaceCurrentYear line a b) a' b' =
  replaceCurrentYear line a' b'.
Proof.
  intros Ha Hb. symmetry.
  apply (Rewritten_functional (canonical a' b')
           (replaceCurrentYear line a b)).
  - apply (Rewritten_again (canonical a b) (canonical a' b')
             (four_digit_text a) (four_digit_text b) line).
    + apply (canonical_double_span a b Ha Hb).
    + apply replaceCurrentYear_Rewritten.
    + apply replaceCurrentYear_Rewritten.
  - apply replaceCurrentYear_Rewritten.
Qed.

Lemma X5_witness :
  let line := txt "/* Copyright 2019 NVIDIA Corporation */ // Copyright (c) 2001-2002, NVIDIA CORPORATION" in
  0 <= 2019 <= 9999 /\ 0 <= 2024 <= 9999 /\
  replaceCurrentYear (replaceCurrentYear line 2019 2024) 2020 2025 =
  replaceCurrentYear line 2020 2025.
Proof.
  intros line.
  assert (H1 : 0 <= 2019 <= 9999) by lia.
  assert (H2 : 0 <= 2024 <= 9999) by lia.
  refine (conj H1 (conj H2 _)).
  exact (X5_replaceCurrentYear_last_years_win line 2019 2024 2020 2025 H1 H2).
Defined.

(** X6.  Rewriting keeps a line a line: with years between 0 and 9999,
    a line that ends with its only newline still does, a last line
    without a newline stays non-empty and without one, and no carriage
    return appears. *)
Theorem X6_replaceCurrentYear_keeps_line_ends (line : text) (a b : Z) :
  0 <= a <= 9999 -> 0 <= b <= 9999 ->
  (terminated line -> terminated (replaceCurrentYear line a b)) /\
  (unterminated line -> unterminated (replaceCurrentYear line a b)) /\
  (forallb not_cr line = true ->
   forallb not_cr (replaceCurrentYear line a b) = true).
Proof. apply replaceCurrentYear_line. Qed.

Lemma X6_witness :
  let line := txt "# Copyright 2019 NVIDIA Corporation
" in
  0 <= 2019 <= 9999 /\ 0 <= 2024 <= 9999 /\ terminated line /\
  terminated (replaceCurrentYear line 2019 2024).
Proof.
  intros line.
  assert (H1 : 0 <= 2019 <= 9999) by lia.
  assert (H2 : 0 <= 2024 <= 9999) by lia.
  assert (H3 : terminated line).
  { exists (txt "# Copyright 2019 NVIDIA Corporation").
    split; reflexivity. }
  refine (conj H1 (conj H2 (conj H3 _))).
  exact (proj1 (X6_replaceCurrentYear_keeps_line_ends line 2019 2024 H1 H2)
           H3).
Defined.

(** ** The issues of a file *)

Lemma line_issues_inv (thisYear : Z) (path : string) (n : nat) (line : text)
    (x : issue) :
  In x (line_issues thisYear path n line) ->
  i_path x = path /\ i_line x = n /\
  ((i_msg x = msg_inverted /\ i_fix x = None /\ inverted line = true) \/
   (i_msg x = msg_not_current /\ i_fix x = fix_of thisYear line /\
    is_Some (fix_of thisYear line) /\ valid thisYear line = false)).
Proof.
  unfold line_issues, inverted, valid, fix_of.
  destruct (getCopyrightYears line) as [[s e]|]; [|intros []].
  intros H. apply in_app_or in H. destruct H as [H|H].
  - destruct (e <? s) eqn:E; [|destruct H]. destruct H as [<-|[]].
    cbn. split; [reflexivity|]. split; [reflexivity|]. left.
    split; [reflexivity|]. split; reflexivity.
  - destruct ((thisYear <? s) || (e <? thisYear)) eqn:E; [|destruct H].
    destruct H as [<-|[]]. cbn. split; [reflexivity|]. split; [reflexivity|].
    right. split; [reflexivity|]. split; [reflexivity|].
    rewrite (Z.leb_antisym thisYear s), (Z.leb_antisym e thisYear).
    destruct (e <? thisYear); [split; [eauto|]|].
    + rewrite andb_false_r. reflexivity.
    + rewrite orb_false_r in E. rewrite E. split; [eauto | reflexivity].
Qed.

Lemma issues_from_inv (thisYear : Z) (path : string) (n : nat)
    (lines : list text) (x : issue) :
  In x (issues_from thisYear path n lines) ->
  exists i line,
    lines !! i = Some line /\
    In x (line_issues thisYear path (S (n + i)) line).
Proof.
  revert n. induction lines as [|l ls IH]; intros n H; [destruct H|].
  cbn [issues_from] in H. apply in_app_or in H. destruct H as [H|H].
  - exists 0%nat, l. rewrite Nat.add_0_r. auto.
  - destruct (IH (S n) H) as (i & line & Hl & Hx).
    exists (S i), line. split; [exact Hl|].
    replace (S (n + S i)) with (S (S n + i)) by lia. exact Hx.
Qed.

Lemma StronglySorted_app {A : Type} (R : A -> A -> Prop) (l1 l2 : list A) :
  StronglySorted R l1 -> StronglySorted R l2 ->
  (forall x y, In x l1 -> In y l2 -> R x y) ->
  StronglySorted R (l1 ++ l2).
Proof.
  intros H1 H2 H. induction H1 as [|a l1 Hl1 IH Ha]; [exact H2|].
  cbn [app]. constructor.
  - apply IH. intros x y Hx Hy. apply H; [right; exact Hx | exact Hy].
  - apply Forall_forall. intros y Hy. apply list_elem_of_In in Hy.
    apply in_app_or in Hy.
    destruct Hy as [Hy|Hy].
    + rewrite Forall_forall in Ha. apply Ha, list_elem_of_In, Hy.
    + apply H; [left; reflexivity | exact Hy].
Qed.

Lemma line_issues_sorted (thisYear : Z) (path : string) (n : nat)
    (line : text) :
  StronglySorted le (map i_line (line_issues thisYear path n line)).
Proof.
  unfold line_issues. destruct (getCopyrightYears line) as [[s e]|];
    [|constructor].
  destruct (e <? s), ((thisYear <? s) || (e <? thisYear)); cbn;
    repeat constructor.
Qed.

Lemma issues_from_sorted (thisYear : Z) (path : string) (n : nat)
    (lines : list text) :
  StronglySorted le (map i_line (issues_from thisYear path n lines)).
Proof.
  revert n. induction lines as [|l ls IH]; intros n; [constructor|].
  cbn [issues_from]. rewrite map_app. apply StronglySorted_app.
  - apply line_issues_sorted.
  - apply IH.
  - intros a b Ha Hb. apply in_map_iff in Ha, Hb.
    destruct Ha as (x & <- & Hx). destruct Hb as (y & <- & Hy).
    apply line_issues_inv in Hx. destruct Hx as (_ & -> & _).
    apply issues_from_inv in Hy. destruct Hy as (i & line & _ & Hy).
    apply line_issues_inv in Hy. destruct Hy as (_ & -> & _). lia.
Qed.

(** X7.  The issues of a file name the file, come in the order of the
    lines, and carry line numbers of the file: 0 for the missing header,
    which then is the only issue, and the number of a line that has a
    header for every other issue. *)
Theorem X7_issues_are_in_line_order
    (thisYear : Z) (path : string) (lines : list text) :
  let es := issues_of thisYear path lines in
  StronglySorted le (map i_line es) /\
  (forall x, In x es ->
     i_path x = path /\
     ((i_line x = 0%nat /\ es = [ Issue path 0 msg_missing None ]) \/
      (exists line, lines !! (i_line x - 1)%nat = Some line /\
                    (1 <= i_line x <= length lines)%nat /\
                    matched line = true))).
Proof.
  intros es. unfold es. rewrite issues_of_eq.
  destruct (existsb (valid thisYear) lines).
  { split; [constructor | intros x []]. }
  destruct (existsb matched lines).
  - split; [apply issues_from_sorted|]. intros x Hx.
    apply issues_from_inv in Hx. destruct Hx as (i & line & Hl & Hx).
    pose proof (line_issues_inv _ _ _ _ _ Hx) as (Hp & Hn & _).
    split; [exact Hp|]. right. exists line. rewrite Hn.
    replace (S (0 + i) - 1)%nat with i by lia.
    split; [exact Hl|]. split.
    + apply lookup_lt_Some in Hl. lia.
    + unfold matched. unfold line_issues in Hx.
      destruct (getCopyrightYears line); [reflexivity | destruct Hx].
  - split; [repeat constructor|]. intros x [<-|[]].
    split; [reflexivity|]. left. auto.
Qed.

(** X8.  An issue carries a replacement exactly when it is a
    year-not-current issue: the missing header and the inverted range
    never have one, a year that is not current always has one. *)
Theorem X8_replacement_iff_year_not_current
    (thisYear : Z) (path : string) (lines : list text) (x : issue) :
  In x (issues_of thisYear path lines) ->
  (is_Some (i_fix x) <-> i_msg x = msg_not_current).
Proof.
  rewrite issues_of_eq.
  destruct (existsb (valid thisYear) lines); [intros []|].
  destruct (existsb matched lines).
  - intros Hx. apply issues_from_inv in Hx.
    destruct Hx as (i & line & _ & Hx). apply line_issues_inv in Hx.
    destruct Hx as (_ & _ & [(Hm & Hf & _)|(Hm & Hf & Hs & _)]).
    + rewrite Hm, Hf. split; [intros [? ?]; discriminate | discriminate].
    + rewrite Hm, Hf. split; [reflexivity | intros _; exact Hs].
  - intros [<-|[]]. cbn. split; [intros [? ?]; discriminate | discriminate].
Qed.

Lemma X8_witness :
  let lines := [ txt "# Copyright (c) 2022-2019, NVIDIA CORPORATION" ] in
  let x := Issue "a.py" 1 msg_inverted None in
  In x (issues_of 2024 "a.py" lines) /\
  (is_Some (i_fix x) <-> i_msg x = msg_not_current).
Proof.
  intros lines x.
  assert (H : In x (issues_of 2024 "a.py" lines))
    by (vm_compute; left; reflexivity).
  exact (conj H (X8_replacement_iff_year_not_current 2024 "a.py" lines x H)).
Defined.

(** X9.  A line whose years are in the wrong order never includes the
    current year: besides the inverted-range issue, for which a manual
    fix is asked, it always gets a year-not-current issue with a
    replacement, and the years of the replacement are not the years of
    the line. *)
Theorem X9_inverted_line_is_also_not_current
    (thisYear : Z) (path : string) (lines : list text) (i : nat)
    (line : text) (s e : Z) :
  0 <= thisYear <= 9999 ->
  lines !! i = Some line ->
  getCopyrightYears line = Some (s, e) -> e < s ->
  valid thisYear line = false /\
  exists r,
    fix_of thisYear line = Some r /\
    getCopyrightYears r <> getCopyrightYears line /\
    (existsb (valid thisYear) lines = false ->
     In (Issue path (S i) msg_inverted None)
        (issues_of thisYear path lines) /\
     In (Issue path (S i) msg_not_current (Some r))
        (issues_of thisYear path lines)).
Proof.
  intros Hy Hl Hline Hinv.
  destruct (getCopyrightYears_range line s e Hline) as [Hs He].
  assert (Hv : valid thisYear line = false).
  { unfold valid. rewrite Hline. apply andb_false_iff.
    destruct (Z_le_gt_dec s thisYear);
      [right; apply Z.leb_gt; lia | left; apply Z.leb_gt; lia]. }
  split; [exact Hv|].
  assert (Hr : exists r, fix_of thisYear line = Some r /\
                         getCopyrightYears r <> getCopyrightYears line).
  { unfold fix_of. rewrite Hline. destruct (e <? thisYear) eqn:E1.
    - apply Z.ltb_lt in E1. eexists. split; [reflexivity|].
      rewrite getCopyrightYears_replaceCurrentYear by (congruence || lia).
      rewrite ?Hline. intros [= H]. lia.
    - apply Z.ltb_ge in E1.
      replace (thisYear <? s) with true by (symmetry; apply Z.ltb_lt; lia).
      eexists. split; [reflexivity|].
      rewrite getCopyrightYears_replaceCurrentYear by (congruence || lia).
      rewrite ?Hline. intros [= H]. lia. }
  destruct Hr as (r & Hr & Hne). exists r.
  split; [exact Hr|]. split; [exact Hne|]. intros Hnv.
  split; apply issues_of_not_valid; try exact Hnv.
  - apply (In_issues_from thisYear path lines 0 i line _ Hl).
    unfold line_issues. rewrite Hline.
    replace (e <? s) with true by (symmetry; apply Z.ltb_lt; lia).
    apply in_or_app. left. left. reflexivity.
  - apply (fix_issue_In thisYear path 0 i lines line r Hl Hr).
Qed.

Lemma X9_witness :
  let line := txt "# Copyright (c) 2022-2019, NVIDIA CORPORATION" in
  0 <= 2024 <= 9999 /\
  [line] !! 0%nat = Some line /\
  getCopyrightYears line = Some (2022, 2019) /\ 2019 < 2022 /\
  valid 2024 line = false.
Proof.
  intros line.
  assert (H1 : 0 <= 2024 <= 9999) by lia.
  assert (H2 : [line] !! 0%nat = Some line) by reflexivity.
  assert (H3 : getCopyrightYears line = Some (2022, 2019))
    by (vm_compute; reflexivity).
  assert (H4 : 2019 < 2022) by lia.
  refine (conj H1 (conj H2 (conj H3 (conj H4 _)))).
  exact (proj1 (X9_inverted_line_is_also_not_current 2024 "a.py" [line] 0
                  line 2022 2019 H1 H2 H3 H4)).
Defined.

(** ** One check, and the files *)

Lemma load_path (f : file_arg) (w w1 : world) (path : string)
    (lines : list text) :
  load f w = (Ok (path, lines), w1) -> path = path_of f.
Proof.
  intros H. destruct (load_inv _ _ _ _ _ H) as [_ [(-> & _)|(b & -> & _)]];
    reflexivity.
Qed.

(** [checkCopyright] on a file that exists: it returns, no file appears
    or disappears, no other file changes, and no file changes at all when
    the fix is not asked for. *)
Lemma checkCopyright_frame (thisYear : Z) (f : file_arg) (update : bool)
    (w : world) :
  is_Some (fs w !! path_of f) ->
  exists es w',
    checkCopyright thisYear f update w = (Ok es, w') /\
    dom (fs w') = dom (fs w) /\
    (forall p, p <> path_of f -> fs w' !! p = fs w !! p) /\
    (update = false -> fs w' = fs w).
Proof.
  intros Hex. destruct (load_total f w Hex) as (lines & w1 & Hload).
  rewrite (checkCopyright_loaded _ _ _ _ _ _ _ Hload).
  destruct (load_inv _ _ _ _ _ Hload) as [Hfs _].
  eexists _, _. split; [reflexivity|].
  destruct (writes thisYear update lines) eqn:Hw.
  - cbn [patched_world fs]. rewrite Hfs. split; [|split].
    + rewrite dom_insert_L. apply elem_of_dom in Hex.
      apply subseteq_union_1_L, singleton_subseteq_l, Hex.
    + intros p Hp. apply lookup_insert_ne. congruence.
    + intros ->. discriminate Hw.
  - rewrite Hfs. auto.
Qed.

(** X10.  The assignment to [lines[lineNum - 1]] is always within the
    list: [checkCopyright] never raises [IndexError].  When it returns,
    it has read the file once and has written it at most once, after the
    line that announces the change, and the issues it returns are those
    that a run without the fix returns. *)
Theorem X10_checkCopyright_index_in_range
    (thisYear : Z) (f : file_arg) (update : bool) (w : world) :
  match checkCopyright thisYear f update w with
  | (Ok es, w') =>
      fst (checkCopyright thisYear f false w) = Ok es /\
      exists rd,
        (rd = EvRead (path_of f) utf_8 \/ rd = EvBlob (path_of f) utf_8) /\
        (log w' = log w ++ [rd] /\ fs w' = fs w \/
         update = true /\
         log w' = log w ++ [rd;
                    EvPrint (PChanging (path_of f)
                               (map i_line (filter fixable es)));
                    EvWrite (path_of f) utf_8])
  | (Raise e, _) => e <> IndexError
  end.
Proof.
  destruct (load f w) as [[[path lines]|e] w1] eqn:Hload.
  - pose proof (load_path _ _ _ _ _ Hload) as ->.
    rewrite !(checkCopyright_loaded _ _ _ _ _ _ _ Hload).
    split; [reflexivity|].
    destruct (load_inv _ _ _ _ _ Hload) as [Hfs1 Hkind].
    assert (Hrd : exists rd,
      (rd = EvRead (path_of f) utf_8 \/ rd = EvBlob (path_of f) utf_8) /\
      log w1 = log w ++ [rd]).
    { destruct Hkind as [(_ & Hl & _)|(b & _ & Hl & _)]; eauto. }
    destruct Hrd as (rd & Hrd & Hlog). exists rd. split; [exact Hrd|].
    destruct (writes thisYear update lines) eqn:Hw.
    + right. unfold writes in Hw. destruct update; [|discriminate].
      split; [reflexivity|]. cbn [patched_world log].
      rewrite Hlog, <- app_assoc. reflexivity.
    + left. auto.
  - unfold checkCopyright, bind. rewrite Hload.
    destruct f as [p|p blob]; [|discriminate Hload].
    cbn [load] in Hload. unfold bind, read_lines in Hload.
    destruct (fs w !! p); [discriminate|].
    injection Hload as <- _. discriminate.
Qed.

(** ** The whole run, and the files *)

Lemma checkThisFile_fs (exempt : list regex) (w1 w2 : world) (f : file_arg) :
  fs w1 = fs w2 -> checkThisFile exempt w1 f = checkThisFile exempt w2 f.
Proof. intros H. unfold checkThisFile. rewrite H. reflexivity. Qed.

Lemma checkThisFile_path (exempt : list regex) (w : world) (f : file_arg) :
  checkThisFile exempt w f = checkThisFile exempt w (Path (path_of f)).
Proof. reflexivity. Qed.

(** The files the loop over the directories returns pass
    [checkThisFile]. *)
Lemma collect_dirs_checked (E : env) (exempt : list regex) (ds : list string)
    (files files' : list file_arg) (w w' : world) :
  collect_dirs E exempt ds files w = (Ok files', w') ->
  (forall f, In f files -> checkThisFile exempt w f = true) ->
  forall f, In f files' -> checkThisFile exempt w f = true.
Proof.
  revert files w. induction ds as [|d ds IH]; intros files w Hrun Hfiles.
  - cbn in Hrun. injection Hrun as <- <-. exact Hfiles.
  - cbn [collect_dirs] in Hrun. destruct (isdir E d); [|discriminate].
    unfold bind at 1 in Hrun.
    unfold getAllFilesUnderDir, bind, emit in Hrun. cbn [fs log] in Hrun.
    set (w1 := {| fs := fs w; log := log w ++ [EvWalk d] |}) in *.
    intros f Hf.
    rewrite (checkThisFile_fs exempt w w1 f eq_refl).
    apply (IH _ w1 Hrun); [|exact Hf].
    intros f' Hf'. apply in_app_or in Hf'. destruct Hf' as [Hf'|Hf'].
    + rewrite <- (checkThisFile_fs exempt w w1 f' eq_refl).
      apply Hfiles, Hf'.
    + apply filter_In in Hf'. apply Hf'.
Qed.

(** The selection of files: it changes no file; it returns files that
    pass [checkThisFile], or raises [ValueError] for an argument that is
    no directory, and this without [--git-modified-only] only. *)
Lemma select_files_spec (E : env) (args : arguments) (exempt : list regex)
    (dirs : list string) (w : world) :
  exists r w1,
    select_files E args exempt dirs w = (r, w1) /\ fs w1 = fs w /\
    match r with
    | Ok files => forall f, In f files -> checkThisFile exempt w f = true
    | Raise e =>
        git_modified_only args = false /\
        exists d, e = ValueError d /\ In d (map (abspath E) dirs) /\
                  isdir E d = false
    end.
Proof.
  unfold select_files. destruct (git_modified_only args).
  - unfold bind, print, emit, ret. cbn [fs log].
    eexists _, _. split; [reflexivity|]. split; [reflexivity|].
    intros f Hf. apply filter_In in Hf. destruct Hf as [_ Hf].
    rewrite <- Hf. apply checkThisFile_fs. reflexivity.
  - destruct (collect_dirs_spec E exempt (map (abspath E) dirs) [] w)
      as (r & l & Hrun & _ & Hr); [intros f []|].
    exists r, {| fs := fs w; log := log w ++ l |}.
    split; [exact Hrun|]. split; [reflexivity|].
    destruct r as [files|e].
    + apply (collect_dirs_checked _ _ _ _ _ _ _ Hrun). intros f [].
    + split; [reflexivity | exact Hr].
Qed.

Lemma check_all_frame (E : env) (update : bool) (files : list file_arg)
    (acc : list issue) (w : world) :
  (forall f, In f files -> is_Some (fs w !! path_of f)) ->
  exists errors w',
    check_all E update files acc w = (Ok errors, w') /\
    dom (fs w') = dom (fs w) /\
    (forall p, (forall f, In f files -> path_of f <> p) ->
               fs w' !! p = fs w !! p) /\
    (update = false -> fs w' = fs w).
Proof.
  revert acc w. induction files as [|f files IH]; intros acc w Hex.
  - cbn. unfold ret. eexists _, _. split; [reflexivity|]. auto.
  - cbn [check_all]. unfold bind at 1.
    destruct (checkCopyright_frame (now_year E) f update w)
      as (es & w1 & Hrun & Hdom & Hother & Hdry); [apply Hex; left; auto|].
    rewrite Hrun.
    destruct (IH (acc ++ es) w1) as (errors & w' & Hrest & Hdom' & Hother' & Hdry').
    { intros f' Hf'. apply elem_of_dom. rewrite Hdom.
      apply elem_of_dom, Hex. right. exact Hf'. }
    exists errors, w'. split; [exact Hrest|]. split; [congruence|]. split.
    + intros p Hp. rewrite Hother'.
      * apply Hother. intros ->. apply (Hp f); [left|]; reflexivity.
      * intros f' Hf'. apply Hp. right. exact Hf'.
    + intros Hu. rewrite (Hdry' Hu). apply Hdry, Hu.
Qed.

Lemma bind_keeps_fs {A B : Type} (m : io A) (k : A -> io B) :
  (forall w, fs (snd (m w)) = fs w) ->
  (forall a w, fs (snd (k a w)) = fs w) ->
  forall w, fs (snd (bind m k w)) = fs w.
Proof.
  intros Hm Hk w. unfold bind. specialize (Hm w).
  destruct (m w) as [[a|e] w1]; cbn [snd] in Hm.
  - rewrite Hk. exact Hm.
  - exact Hm.
Qed.

Lemma print_issues_keeps_fs (l : list issue) (w : world) :
  fs (snd (print_issues l w)) = fs w.
Proof.
  revert w. induction l as [|x l IH]; intros w; [reflexivity|].
  cbn [print_issues]. apply bind_keeps_fs; [reflexivity|].
  intros _. exact IH.
Qed.

Lemma report_keeps_fs (errors : list issue) (w : world) :
  fs (snd (report errors w)) = fs w.
Proof.
  unfold report. destruct (0 <? length errors)%nat; [|reflexivity].
  revert w. apply bind_keeps_fs.
  { intros w. destruct (existsb _ errors); reflexivity. }
  intros _. apply bind_keeps_fs; [apply print_issues_keeps_fs|].
  intros _. apply bind_keeps_fs; [reflexivity|].
  intros _. apply bind_keeps_fs; [|reflexivity].
  intros w. destruct (0 <? length (filter fixable errors))%nat; reflexivity.
Qed.

(** What the main function does to the files. *)
Lemma main_frame (E : env) (args : arguments) (dirs : list string)
    (w : world) :
  let r := checkCopyright_main E args dirs w in
  dom (fs (snd r)) = dom (fs w) /\
  (update_current_year args = false -> fs (snd r) = fs w) /\
  (forall p,
     (forall exempt, compile_all E (ExemptFiles E) = Some exempt ->
                     checkThisFile exempt w (Path p) = false) ->
     fs (snd r) !! p = fs w !! p).
Proof.
  unfold checkCopyright_main.
  destruct (compile_all E (ExemptFiles E)) as [exempt|];
    [|cbn; split; [|split]; auto].
  destruct (select_files_spec E args exempt dirs w)
    as (r & w1 & Hsel & Hfs1 & Hr).
  cbv zeta. unfold bind. rewrite Hsel. destruct r as [files|e].
  2: { cbn [fst snd]. rewrite Hfs1. split; [|split]; auto. }
  destruct (check_all_frame E (update_current_year args) files [] w1)
    as (errors & w2 & Hcheck & Hdom & Hother & Hdry).
  { intros f Hf. apply (checkThisFile_exists exempt w1 f).
    rewrite (checkThisFile_fs exempt w1 w f Hfs1). apply Hr, Hf. }
  rewrite Hcheck.
  pose proof (report_keeps_fs errors w2) as Hrep.
  destruct (report_status errors w2) as (w3 & Hstat).
  rewrite Hstat in Hrep |- *. cbn [fst snd] in Hrep |- *. rewrite Hrep.
  split; [rewrite Hdom, Hfs1; reflexivity|]. split.
  - intros Hu. rewrite (Hdry Hu). exact Hfs1.
  - intros p Hp. rewrite Hother, Hfs1; [reflexivity|].
    intros f Hf Hpath. specialize (Hr f Hf).
    rewrite checkThisFile_path, Hpath, (Hp exempt eq_refl) in Hr.
    discriminate.
Qed.

(** X11.  Without [--update-current-year] a run changes no file,
    however it ends. *)
Theorem X11_run_without_fix_changes_no_file
    (E : env) (args : arguments) (dirs : list string) (w : world) :
  update_current_year args = false ->
  fs (snd (checkCopyright_main E args dirs w)) = fs w.
Proof. apply main_frame. Qed.

Lemma X11_witness :
  let w := one_file "src/a.py"
             (txt "# Copyright (c) 2019, NVIDIA CORPORATION
") in
  let args := {| update_current_year := false; git_modified_only := false |} in
  update_current_year args = false /\
  fst (checkCopyright_main example_env args ["src"%string] w) = Ok 1 /\
  fs (snd (checkCopyright_main example_env args ["src"%string] w)) = fs w.
Proof.
  intros w args.
  assert (H1 : update_current_year args = false) by reflexivity.
  refine (conj H1 (conj _ _)).
  - vm_compute. reflexivity.
  - exact (X11_run_without_fix_changes_no_file example_env args
             ["src"%string] w H1).
Defined.

(** X12.  A run creates and deletes no file, and changes only files
    that pass [checkThisFile] before the run: a file that is exempt, or
    empty, or whose name matches none of [FilesToCheck], is left as it
    is, with or without the fix. *)
Theorem X12_run_changes_only_checked_files
    (E : env) (args : arguments) (dirs : list string) (w : world) :
  dom (fs (snd (checkCopyright_main E args dirs w))) = dom (fs w) /\
  (forall p,
     (forall exempt, compile_all E (ExemptFiles E) = Some exempt ->
                     checkThisFile exempt w (Path p) = false) ->
     fs (snd (checkCopyright_main E args dirs w)) !! p = fs w !! p).
Proof.
  destruct (main_frame E args dirs w) as (H1 & _ & H2). auto.
Qed.

(** ** The files that are checked *)

Lemma search_is_Some (r : regex) (s : text) :
  is_Some (search r s) <->
  exists pre t, s = pre ++ t /\ is_Some (match_at r t).
Proof.
  split.
  - intros [[[pre g] rest] H]. destruct (search_Some _ _ _ _ _ H) as (t & -> & Ht).
    exists pre, t. split; [reflexivity|]. rewrite Ht. eauto.
  - intros (pre & t & -> & Ht). induction pre as [|x pre IH].
    + destruct Ht as [[g rest] Ht]. cbn [app].
      rewrite (search_here _ _ _ _ Ht). eauto.
    + cbn [app search]. destruct (match_at r (x :: pre ++ t)) as [[g rest]|];
        [eauto|].
      destruct IH as [[[pre' g] rest] ->]. eauto.
Qed.

Lemma in_words_Seq (L1 L2 : list text) (l : text) :
  In l (flat_map (fun a => map (fun b => a ++ b) L2) L1) <->
  exists a b, In a L1 /\ In b L2 /\ l = a ++ b.
Proof.
  rewrite in_flat_map. split.
  - intros (a & Ha & Hl). apply in_map_iff in Hl. destruct Hl as (b & <- & Hb).
    eauto.
  - intros (a & b & Ha & Hb & ->). exists a. split; [exact Ha|].
    apply in_map_iff. eauto.
Qed.

(** A pattern with [words] matches when one of them starts the text and
    the rest of the pattern accepts what follows; [acc] says what the
    continuation accepts, whatever the groups are. *)
Lemma run_words {A : Type} (r : regex) :
  forall (L : list text), words r = Some L ->
  forall (acc : text -> Prop) (k : text -> caps -> option A),
    (forall s g, is_Some (k s g) <-> acc s) ->
    forall s g,
      is_Some (run r s g k) <->
      exists l rest, In l L /\ s = l ++ rest /\ acc rest.
Proof.
  induction r as [c| | | | |r1 IH1 r2 IH2|r1 IH1 r2 IH2| | |n r1 IH1];
    intros L HL acc k Hk s g; cbn [words] in HL; try discriminate.
  - injection HL as <-. cbn [run]. split.
    + destruct s as [|x s]; [intros [? [=]]|].
      destruct (Ascii.eqb x c) eqn:E; [|intros [? [=]]].
      apply Ascii.eqb_eq in E. subst x. intros H. apply Hk in H.
      exists [c], s. split; [left; reflexivity|]. auto.
    + intros (l & rest & [<-|[]] & -> & Hacc). cbn [app].
      rewrite Ascii.eqb_refl. apply Hk, Hacc.
  - injection HL as <-. cbn [run]. rewrite Hk. split.
    + intros H. exists [], s. split; [left; reflexivity|]. auto.
    + intros (l & rest & [<-|[]] & -> & Hacc). exact Hacc.
  - destruct (words r1) as [L1|]; [|discriminate].
    destruct (words r2) as [L2|]; [|discriminate]. injection HL as <-.
    cbn [run].
    rewrite (IH1 L1 eq_refl
               (fun s' => exists l rest, In l L2 /\ s' = l ++ rest /\ acc rest)).
    2: { intros s' g'. apply (IH2 L2 eq_refl acc k Hk). }
    split.
    + intros (a & s' & Ha & -> & b & rest & Hb & -> & Hacc).
      exists (a ++ b), rest. split; [apply in_words_Seq; eauto|].
      rewrite <- app_assoc. auto.
    + intros (l & rest & Hl & -> & Hacc). apply in_words_Seq in Hl.
      destruct Hl as (a & b & Ha & Hb & ->).
      exists a, (b ++ rest). split; [exact Ha|].
      rewrite <- app_assoc. split; [reflexivity|]. eauto.
  - destruct (words r1) as [L1|]; [|discriminate].
    destruct (words r2) as [L2|]; [|discriminate]. injection HL as <-.
    cbn [run].
    pose proof (IH1 L1 eq_refl acc k Hk s g) as H1.
    pose proof (IH2 L2 eq_refl acc k Hk s g) as H2.
    destruct (run r1 s g k) as [a|].
    + split; [|eauto]. intros _.
      destruct (proj1 H1 (ex_intro _ a eq_refl)) as (l & rest & Hl & Hs & Hacc).
      exists l, rest. split; [apply in_or_app; left; exact Hl|]. auto.
    + rewrite H2. split.
      * intros (l & rest & Hl & Hs & Hacc). exists l, rest.
        split; [apply in_or_app; right; exact Hl|]. auto.
      * intros (l & rest & Hl & Hs & Hacc). apply in_app_or in Hl.
        destruct Hl as [Hl|Hl]; [|eauto].
        destruct (proj2 H1 (ex_intro _ l (ex_intro _ rest (conj Hl (conj Hs Hacc)))))
          as [? [=]].
  - cbn [run]. apply (IH1 L HL acc). intros s' g'. apply Hk.
Qed.

Lemma match_at_words_eos (r : regex) :
  forall (L : list text), words_eos r = Some L ->
  forall s,
    is_Some (match_at r s) <->
    exists l, In l L /\ (s = l \/ s = l ++ [nl]).
Proof.
  unfold match_at. generalize (@nil (nat * text)).
  induction r as [| | | | |r1 _ r2 IH2| | | |]; intros g L HL s;
    try discriminate.
  assert (Hend : forall s' g', is_Some (run (Seq Eos Eps) s' g'
                   (fun s'' g'' => Some (g'', s''))) <-> (s' = [] \/ s' = [nl])).
  { intros s' g'. cbn [run]. destruct s' as [|x [|y s']].
    - split; [auto | eauto].
    - destruct (Ascii.eqb x nl) eqn:E.
      + apply Ascii.eqb_eq in E. subst x. split; [auto | eauto].
      + split; [intros [? [=]]|]. intros [[=]|[= ->]].
        rewrite Ascii.eqb_refl in E. discriminate.
    - split; [intros [? [=]] | intros [[=]|[=]]]. }
  assert (Hseq : forall L1 L2, words r1 = Some L1 -> words_eos r2 = Some L2 ->
            is_Some (run (Seq r1 r2) s g (fun s' g' => Some (g', s'))) <->
            exists l, In l (flat_map (fun a => map (fun b => a ++ b) L2) L1) /\
                      (s = l \/ s = l ++ [nl])).
  { intros L1 L2 H1 H2. cbn [run].
    rewrite (run_words r1 L1 H1
               (fun s' => exists l, In l L2 /\ (s' = l \/ s' = l ++ [nl]))).
    2: { intros s' g'. apply (IH2 g' L2 H2). }
    split.
    - intros (a & rest & Ha & -> & b & Hb & Hrest).
      exists (a ++ b). split; [apply in_words_Seq; eauto|].
      destruct Hrest as [->| ->]; [left | right; rewrite <- app_assoc];
        reflexivity.
    - intros (l & Hl & Hs). apply in_words_Seq in Hl.
      destruct Hl as (a & b & Ha & Hb & ->).
      destruct Hs as [->| ->].
      + exists a, b. split; [exact Ha|]. split; [reflexivity|].
        exists b. auto.
      + exists a, (b ++ [nl]). rewrite <- app_assoc.
        split; [exact Ha|]. split; [reflexivity|]. exists b. auto. }
  destruct r1; try (cbn [words_eos] in HL;
    destruct (words _) as [L1|] eqn:H1 in HL; [|discriminate];
    destruct (words_eos r2) as [L2|] eqn:H2 in HL; [|discriminate];
    injection HL as <-; apply (Hseq L1 L2 H1 H2)).
  destruct r2; cbn [words_eos words] in HL; try discriminate.
  injection HL as <-. rewrite Hend. split.
  - intros [->| ->]; exists []; split; try (left; reflexivity); auto.
  - intros (l & [<-|[]] & Hs). exact Hs.
Qed.

Lemma searches_words_eos (r : regex) (L : list text) (p : string) :
  words_eos r = Some L ->
  searches r p = true <->
  exists l, In l L /\
    (l `suffix_of` txt p \/ (l ++ [nl]) `suffix_of` txt p).
Proof.
  intros HL. unfold searches.
  assert (H : is_Some (search r (txt p)) <->
              exists l, In l L /\
                (l `suffix_of` txt p \/ (l ++ [nl]) `suffix_of` txt p)).
  { rewrite search_is_Some. split.
    - intros (pre & t & Hp & Ht).
      apply (match_at_words_eos r L HL) in Ht. destruct Ht as (l & Hl & Ht).
      exists l. split; [exact Hl|].
      destruct Ht as [->| ->]; [left | right]; exists pre; exact Hp.
    - intros (l & Hl & [[pre Hp]|[pre Hp]]).
      + exists pre, l. split; [exact Hp|].
        apply (match_at_words_eos r L HL). eauto.
      + exists pre, (l ++ [nl]). split; [exact Hp|].
        apply (match_at_words_eos r L HL). eauto. }
  rewrite <- H. destruct (search r (txt p)).
  - split; eauto.
  - split; [discriminate | intros [? [=]]].
Qed.

Lemma existsb_searches_words (rs : list regex) (p : string) :
  Forall (fun r => is_Some (words_eos r)) rs ->
  existsb (fun r => searches r p) rs = true <->
  exists l, In l (flat_map (fun r => default [] (words_eos r)) rs) /\
    (l `suffix_of` txt p \/ (l ++ [nl]) `suffix_of` txt p).
Proof.
  intros Hrs. rewrite existsb_exists. split.
  - intros (r & Hr & Hs). rewrite Forall_forall in Hrs.
    destruct (Hrs r ltac:(apply list_elem_of_In; exact Hr)) as [L HL].
    apply (searches_words_eos r L p HL) in Hs. destruct Hs as (l & Hl & Hs).
    exists l. split; [|exact Hs]. apply in_flat_map. exists r.
    split; [exact Hr|]. rewrite HL. exact Hl.
  - intros (l & Hl & Hs). apply in_flat_map in Hl.
    destruct Hl as (r & Hr & Hl). exists r. split; [exact Hr|].
    rewrite Forall_forall in Hrs.
    destruct (Hrs r ltac:(apply list_elem_of_In; exact Hr)) as [L HL].
    rewrite HL in Hl. apply (searches_words_eos r L p HL). eauto.
Qed.

(** X14.  The files that are checked: [checkThisFile] accepts a file
    exactly when it exists and is not empty, none of the exemption
    patterns is found in its name, and the name ends with one of the
    fifteen endings of [FilesToCheck]; since [$] also matches before a
    last newline, a name that ends with such an ending and a newline is
    accepted as well. *)
Theorem X14_checkThisFile_accepts_names_by_their_ending
    (exempt : list regex) (w : world) (f : file_arg) :
  checkThisFile exempt w f = true <->
  (exists content, fs w !! path_of f = Some content /\ content <> []) /\
  (forall r, In r exempt -> searches r (path_of f) = false) /\
  exists e, In e checked_endings /\
    (txt e `suffix_of` txt (path_of f) \/
     (txt e ++ [nl]) `suffix_of` txt (path_of f)).
Proof.
  assert (Hkinds : existsb (fun r => searches r (path_of f)) FilesToCheck = true
            <-> exists e, In e checked_endings /\
                  (txt e `suffix_of` txt (path_of f) \/
                   (txt e ++ [nl]) `suffix_of` txt (path_of f))).
  { rewrite existsb_searches_words.
    2: { repeat constructor; eexists; reflexivity. }
    change (flat_map (fun r => default [] (words_eos r)) FilesToCheck)
      with (map txt checked_endings).
    split.
    - intros (l & Hl & Hs). apply in_map_iff in Hl.
      destruct Hl as (e & <- & He). eauto.
    - intros (e & He & Hs). exists (txt e). split; [|exact Hs].
      apply in_map, He. }
  assert (Hex : existsb (fun r => searches r (path_of f)) exempt = false <->
                forall r, In r exempt -> searches r (path_of f) = false).
  { split.
    - intros H r Hr. destruct (searches r (path_of f)) eqn:E; [|reflexivity].
      rewrite <- H. symmetry. apply existsb_exists. eauto.
    - intros H. destruct (existsb _ exempt) eqn:E; [|reflexivity].
      apply existsb_exists in E. destruct E as (r & Hr & Hs).
      rewrite (H r Hr) in Hs. discriminate. }
  unfold checkThisFile. cbv zeta.
  destruct (fs w !! path_of f) as [content|].
  - destruct content as [|c content]; cbn [length Nat.eqb].
    + split; [discriminate|]. intros [(? & [= <-] & Hne) _]. contradiction.
    + destruct (existsb _ exempt) eqn:E.
      * split; [discriminate|]. intros (_ & H & _). apply Hex in H.
        discriminate.
      * rewrite Hkinds. split.
        -- intros H. split; [eauto|]. split; [apply Hex; reflexivity|exact H].
        -- intros (_ & _ & H). exact H.
  - split; [discriminate|]. intros [(? & [=] & _) _].
Qed.

(** ** A staged blob and the file on disk *)

Lemma newline_only_lines (s : text) :
  newline_only s = true ->
  splitlines s = lines_keepends s /\ universal_newlines s = s.
Proof.
  unfold newline_only. induction s as [|c s IH]; [split; reflexivity|].
  cbn [forallb]. intros H. apply andb_true_iff in H. destruct H as [Hc Hs].
  destruct (IH Hs) as [IH1 IH2].
  cbn [splitlines lines_keepends universal_newlines].
  destruct (Ascii.eqb c nl) eqn:Enl.
  - apply Ascii.eqb_eq in Enl. subst c. cbn. rewrite IH1, IH2.
    split; reflexivity.
  - cbn [orb] in Hc. apply negb_true_iff, orb_false_iff in Hc.
    destruct Hc as [Hcr Hbrk]. rewrite Hcr, Hbrk, IH1, IH2.
    split; reflexivity.
Qed.

(** X15.  A staged blob and a path are checked alike: when the blob is
    the content of the file and its only line boundary is the newline,
    the check of the [git.Diff] and the check of the path return the
    same issues and leave the same files.  (Other boundaries are read
    differently: [splitlines] ends a line at a form feed, [readlines]
    does not.) *)
Theorem X15_blob_and_path_are_checked_alike
    (thisYear : Z) (p : string) (content : text) (update : bool)
    (w : world) :
  fs w !! p = Some content ->
  newline_only content = true ->
  fst (checkCopyright thisYear (Diff p content) update w) =
  fst (checkCopyright thisYear (Path p) update w) /\
  fs (snd (checkCopyright thisYear (Diff p content) update w)) =
  fs (snd (checkCopyright thisYear (Path p) update w)).
Proof.
  intros Hfs Hnl. destruct (newline_only_lines content Hnl) as [H1 H2].
  rewrite (checkCopyright_loaded thisYear (Path p) update w _ _ _
             (load_Path p content w Hfs)).
  assert (Hload : load (Diff p content) w =
            (Ok (p, readlines content),
             {| fs := fs w; log := log w ++ [EvBlob p utf_8] |})).
  { unfold readlines. rewrite H2, <- H1. reflexivity. }
  rewrite (checkCopyright_loaded thisYear (Diff p content) update w _ _ _
             Hload).
  split; [reflexivity|].
  destruct (writes thisYear update (readlines content)); reflexivity.
Qed.

Lemma X15_witness :
  let content := txt "# Copyright (c) 2019, NVIDIA CORPORATION
x = 1
" in
  let w := one_file "a.py" content in
  fs w !! "a.py"%string = Some content /\
  newline_only content = true /\
  fst (checkCopyright 2022 (Diff "a.py" content) true w) =
  fst (checkCopyright 2022 (Path "a.py") true w) /\
  fs (snd (checkCopyright 2022 (Diff "a.py" content) true w)) =
  fs (snd (checkCopyright 2022 (Path "a.py") true w)).
Proof.
  intros content w.
  assert (H1 : fs w !! "a.py"%string = Some content) by reflexivity.
  assert (H2 : newline_only content = true) by reflexivity.
  refine (conj H1 (conj H2 _)).
  exact (X15_blob_and_path_are_checked_alike 2022 "a.py" content true w H1 H2).
Defined.

(** ** The target branch *)

Lemma lstrip_spec (chars s : text) :
  exists pre,
    s = pre ++ lstrip chars s /\
    forallb (fun c => existsb (Ascii.eqb c) chars) pre = true /\
    match lstrip chars s with
    | [] => True
    | c :: _ => existsb (Ascii.eqb c) chars = false
    end.
Proof.
  induction s as [|c s IH].
  - exists []. repeat split.
  - cbn [lstrip]. destruct (existsb (Ascii.eqb c) chars) eqn:E.
    + destruct IH as (pre & Hs & Hpre & Hhd). exists (c :: pre).
      split; [cbn [app]; rewrite <- Hs; reflexivity|].
      split; [cbn [forallb]; rewrite E; exact Hpre | exact Hhd].
    + exists []. repeat split. exact E.
Qed.

(** X16.  The target branch that [modifiedFiles] falls back to without
    [TARGET_BRANCH]: from [heads/branch-...] the call of [lstrip] leaves
    the name of the branch, [branch-...]; [lstrip] removes characters,
    not a prefix, so that what [git describe] prints for a tag,
    [tags/branch-...], is left whole, and in general the result is what
    is printed without its leading characters among [h e a d s /]; with
    [TARGET_BRANCH] set nothing is stripped. *)
Theorem X16_target_branch_strips_leading_characters
    (described v b : text) :
  target_branch None (txt "heads/branch-" ++ v) = txt "branch-" ++ v /\
  target_branch None (txt "tags/branch-" ++ v) = txt "tags/branch-" ++ v /\
  target_branch (Some b) described = b /\
  exists pre,
    described = pre ++ target_branch None described /\
    (forall c, In c pre -> In c (txt "heads/")) /\
    (forall c rest, target_branch None described = c :: rest ->
                    ~ In c (txt "heads/")).
Proof.
  split; [reflexivity|]. split; [reflexivity|]. split; [reflexivity|].
  unfold target_branch.
  destruct (lstrip_spec (txt "heads/") described) as (pre & Hs & Hpre & Hhd).
  exists pre. split; [exact Hs|]. split.
  - intros c Hc. rewrite forallb_forall in Hpre.
    specialize (Hpre c Hc). apply existsb_exists in Hpre.
    destruct Hpre as (x & Hx & E). apply Ascii.eqb_eq in E. subst x.
    exact Hx.
  - intros c rest E Hc. rewrite E in Hhd.
    assert (Ht : existsb (Ascii.eqb c) (txt "heads/") = true).
    { apply existsb_exists. exists c. split; [exact Hc|].
      apply Ascii.eqb_refl. }
    congruence.
Qed.

(** ** The docstrings of the index classes *)

Lemma list_index_Some (x : string) (l : list string) (i : nat) :
  Conf.list_index x l = Some i ->
  exists rest, l = take i l ++ x :: rest /\ ~ In x (take i l).
Proof.
  revert i. induction l as [|y l IH]; intros i; cbn [Conf.list_index];
    [discriminate|].
  destruct (String.eqb y x) eqn:E.
  - apply String.eqb_eq in E. subst y. intros [= <-]. exists l.
    split; [reflexivity | intros []].
  - destruct (Conf.list_index x l) as [j|]; [|discriminate].
    intros [= <-]. destruct (IH j eq_refl) as (rest & Hl & Hno).
    exists rest. cbn [take app]. split; [f_equal; exact Hl|].
    intros [->|H]; [|exact (Hno H)].
    rewrite String.eqb_refl in E. discriminate.
Qed.

Lemma list_index_None (x : string) (l : list string) :
  Conf.list_index x l = None <-> ~ In x l.
Proof.
  induction l as [|y l IH]; cbn [Conf.list_index].
  - split; [intros _ [] | reflexivity].
  - destruct (String.eqb y x) eqn:E.
    + apply String.eqb_eq in E. subst y.
      split; [discriminate|]. intros H. exfalso. apply H. left. reflexivity.
    + destruct (Conf.list_index x l) as [j|].
      * split; [discriminate|]. intros H. exfalso.
        assert (Hin : In x l).
        { destruct (in_dec string_dec x l) as [Hin|Hin]; [exact Hin|].
          apply IH in Hin. discriminate. }
        apply H. right. exact Hin.
      * split; [|reflexivity]. intros _ [->|H].
        -- rewrite String.eqb_refl in E. discriminate.
        -- apply (proj1 IH eq_refl), H.
Qed.

Lemma listed_class (name : string) :
  In name Conf.index_classes ->
  existsb (String.eqb name) Conf.index_classes = true.
Proof.
  intros H. apply existsb_exists. exists name. split; [exact H|].
  apply String.eqb_refl.
Qed.

(** X17.  The docstring of one of the nine index classes is cut at its
    first line [.. rubric:: Attributes]: the lines before it are kept,
    that line and all that follows are dropped; a docstring without that
    line is not left alone, the handler raises [ValueError]. *)
Theorem X17_docstring_is_cut_at_the_attributes
    (name : string) (lines : list string) :
  In name Conf.index_classes ->
  match Conf.process_class_docstrings "class" name lines with
  | Ok kept =>
      exists dropped,
        lines = kept ++ Conf.rubric_attributes :: dropped /\
        ~ In Conf.rubric_attributes kept
  | Raise e =>
      e = ValueError Conf.rubric_attributes /\
      ~ In Conf.rubric_attributes lines
  end.
Proof.
  intros Hname. unfold Conf.process_class_docstrings.
  rewrite (listed_class name Hname). cbn [String.eqb Ascii.eqb Bool.eqb].
  destruct (Conf.list_index Conf.rubric_attributes lines) as [i|] eqn:E.
  - apply list_index_Some, E.
  - split; [reflexivity | apply list_index_None, E].
Qed.

Lemma X17_witness :
  In "cudf.MultiIndex"%string Conf.index_classes /\
  match Conf.process_class_docstrings "class" "cudf.MultiIndex"
          [ "A multi-level index."; ".. rubric:: Attributes"; "None";
            ".. rubric:: Methods" ]%string with
  | Ok kept =>
      exists dropped,
        [ "A multi-level index."; ".. rubric:: Attributes"; "None";
          ".. rubric:: Methods" ]%string =
        kept ++ Conf.rubric_attributes :: dropped /\
        ~ In Conf.rubric_attributes kept
  | Raise e =>
      e = ValueError Conf.rubric_attributes /\
      ~ In Conf.rubric_attributes
          [ "A multi-level index."; ".. rubric:: Attributes"; "None";
            ".. rubric:: Methods" ]%string
  end.
Proof.
  assert (H : In "cudf.MultiIndex"%string Conf.index_classes).
  { unfold Conf.index_classes. simpl. tauto. }
  refine (conj H _).
  exact (X17_docstring_is_cut_at_the_attributes "cudf.MultiIndex"
           [ "A multi-level index."; ".. rubric:: Attributes"; "None";
             ".. rubric:: Methods" ]%string H).
Defined.

(** X18.  The handler cannot run twice on the docstring of an index
    class: what a first run leaves has no line
    [.. rubric:: Attributes], and a second run on it raises
    [ValueError]. *)
Theorem X18_second_pass_over_a_docstring_raises
    (name : string) (lines kept : list string) :
  In name Conf.index_classes ->
  Conf.process_class_docstrings "class" name lines = Ok kept ->
  Conf.process_class_docstrings "class" name kept =
  Raise (ValueError Conf.rubric_attributes).
Proof.
  intros Hname. unfold Conf.process_class_docstrings.
  rewrite (listed_class name Hname). cbn [String.eqb Ascii.eqb Bool.eqb].
  destruct (Conf.list_index Conf.rubric_attributes lines) as [i|] eqn:E;
    [|discriminate].
  intros [= <-]. destruct (list_index_Some _ _ _ E) as (rest & _ & Hno).
  apply list_index_None in Hno. rewrite Hno. reflexivity.
Qed.

Lemma X18_witness :
  In "cudf.RangeIndex"%string Conf.index_classes /\
  Conf.process_class_docstrings "class" "cudf.RangeIndex"
    [ "An index of a range."; ".. rubric:: Attributes"; "None" ]%string =
  Ok [ "An index of a range."%string ] /\
  Conf.process_class_docstrings "class" "cudf.RangeIndex"
    [ "An index of a range."%string ] =
  Raise (ValueError Conf.rubric_attributes).
Proof.
  assert (H1 : In "cudf.RangeIndex"%string Conf.index_classes).
  { unfold Conf.index_classes. simpl. tauto. }
  assert (H2 : Conf.process_class_docstrings "class" "cudf.RangeIndex"
                 [ "An index of a range."; ".. rubric:: Attributes";
                   "None" ]%string =
               Ok [ "An index of a range."%string ]) by reflexivity.
  refine (conj H1 (conj H2 _)).
  exact (X18_second_pass_over_a_docstring_raises "cudf.RangeIndex" _ _ H1 H2).
Defined.

(** ** Years of five digits *)

Lemma digit_char_is_digit (d : Z) :
  0 <= d <= 9 -> is_digit (digit_char d) = true.
Proof.
  intros H.
  assert (E : d = 0 \/ d = 1 \/ d = 2 \/ d = 3 \/ d = 4 \/ d = 5 \/ d = 6 \/
              d = 7 \/ d = 8 \/ d = 9) by lia.
  repeat (destruct E as [->|E]; [reflexivity|]). subst d. reflexivity.
Qed.

Lemma dec_digits_digits (fuel : nat) :
  forall (n : Z) (acc : text),
    0 <= n -> forallb is_digit acc = true ->
    forallb is_digit (dec_digits fuel n acc) = true.
Proof.
  induction fuel as [|fuel IH]; intros n acc Hn Hacc; [exact Hacc|].
  cbn [dec_digits].
  assert (Hacc' : forallb is_digit (digit_char (n mod 10) :: acc) = true).
  { cbn [forallb]. rewrite digit_char_is_digit, Hacc; [reflexivity|].
    pose proof (Z.mod_pos_bound n 10). lia. }
  destruct (n / 10 =? 0); [exact Hacc'|].
  apply IH; [|exact Hacc']. apply Z.div_pos; lia.
Qed.

Lemma dec_digits_length (fuel : nat) :
  forall (n : Z) (acc : text),
    (length acc <= length (dec_digits fuel n acc))%nat.
Proof.
  induction fuel as [|fuel IH]; intros n acc; [reflexivity|].
  cbn [dec_digits]. destruct (n / 10 =? 0).
  - cbn [length]. lia.
  - specialize (IH (n / 10) (digit_char (n mod 10) :: acc)).
    cbn [length] in IH. lia.
Qed.

Lemma dec_digits_step (fuel : nat) (n : Z) (acc : text) :
  10 <= n ->
  dec_digits (S fuel) n acc =
  dec_digits fuel (n / 10) (digit_char (n mod 10) :: acc).
Proof.
  intros H. cbn [dec_digits].
  assert (E : (n / 10 =? 0) = false).
  { apply Z.eqb_neq. pose proof (Z.div_le_mono 10 n 10). 
    change (10 / 10) with 1 in *. lia. }
  rewrite E. reflexivity.
Qed.

(** A year from 10000 on is written with five digits or more. *)
Lemma format_04d_long (n : Z) :
  10000 <= n ->
  exists d x ds,
    format_04d n = d ++ x :: ds /\ four_digits d /\
    is_digit x = true /\ forallb is_digit ds = true.
Proof.
  intros Hn.
  assert (Hdig : forallb is_digit (str_of_nonneg n) = true).
  { apply dec_digits_digits; [lia | reflexivity]. }
  assert (Hlen : (5 <= length (str_of_nonneg n))%nat).
  { unfold str_of_nonneg.
    assert (Hlog : 13 <= Z.log2 n).
    { change 13 with (Z.log2 10000). apply Z.log2_le_mono. exact Hn. }
    destruct (Z.to_nat (Z.log2 n)) as [|[|[|[|f]]]] eqn:Ef; try lia.
    assert (H1 : 1000 <= n / 10).
    { change 1000 with (10000 / 10). apply Z.div_le_mono; lia. }
    assert (H2 : 100 <= n / 10 / 10).
    { change 100 with (1000 / 10). apply Z.div_le_mono; lia. }
    assert (H3 : 10 <= n / 10 / 10 / 10).
    { change 10 with (100 / 10) at 1. apply Z.div_le_mono; lia. }
    rewrite !dec_digits_step by lia.
    cbn [dec_digits]. destruct (_ =? 0); [cbn [length]; lia|].
    match goal with
    | |- (_ <= length (dec_digits ?f ?m ?acc))%nat =>
        pose proof (dec_digits_length f m acc) as Hl
    end.
    cbn [length] in Hl. lia. }
  unfold format_04d, zfill.
  assert (E : (n <? 0) = false) by (apply Z.ltb_ge; lia). rewrite E.
  replace (4 - length (str_of_nonneg n))%nat with O by lia. cbn [repeat app].
  destruct (str_of_nonneg n) as [|d1 [|d2 [|d3 [|d4 [|x ds]]]]];
    cbn [length] in Hlen; try lia.
  cbn [forallb] in Hdig.
  repeat (apply andb_true_iff in Hdig;
          let H := fresh "Hd" in destruct Hdig as [H Hdig]).
  exists [d1; d2; d3; d4], x, ds. split; [reflexivity|].
  split; [|split; assumption].
  split; [reflexivity|]. cbn [forallb]. rewrite Hd, Hd0, Hd1, Hd2.
  reflexivity.
Qed.

Lemma digits_plain (d : text) :
  forallb is_digit d = true -> forallb plain d = true.
Proof.
  induction d as [|x d IH]; [reflexivity|]. cbn [forallb]. intros H.
  apply andb_true_iff in H. destruct H as [Hx H].
  rewrite (digit_plain _ Hx). apply IH, H.
Qed.

Lemma digit_not (x c : ascii) :
  is_digit x = true -> is_digit c = false -> Ascii.eqb x c = false.
Proof.
  intros Hx Hc. destruct (Ascii.eqb x c) eqn:E; [|reflexivity].
  apply Ascii.eqb_eq in E. subst x. congruence.
Qed.

(** The text written with a year of five digits is no header for the
    patterns, though it has the shape of a span. *)
Lemma canonical_long (a b : Z) :
  0 <= a <= 9999 -> 10000 <= b ->
  header_span (canonical a b) /\
  (forall X, direct_simple (canonical a b ++ X) = None) /\
  (forall X, direct_double (canonical a b ++ X) = None).
Proof.
  intros Ha Hb.
  destruct (format_04d_long b Hb) as (d & x & ds & Hfb & Hd & Hx & Hds).
  pose proof (four_digit_text_digits a Ha) as Hfa.
  assert (Hc : canonical a b =
            head_text 1 true 1 ++ four_digit_text a ++ txt "-" ++
            d ++ x :: ds ++ txt ", NVIDIA CORPORATION").
  { unfold canonical. rewrite (format_04d_four a Ha), Hfb.
    rewrite <- !app_assoc. reflexivity. }
  split; [|split].
  - assert (Hform : canonical a b =
              "C"%char ::
              (txt "opyright (c) " ++ four_digit_text a ++ txt "-" ++
               d ++ x :: ds ++ txt ", NVIDIA ") ++ "C"%char :: corp true).
    { rewrite Hc. unfold head_text. cbn [spaces repeat opt_text].
      unfold four_digit_text.
      repeat (rewrite <- ?app_assoc; cbn [app txt list_ascii_of_string]).
      reflexivity. }
    rewrite Hform. apply header_span_form; [cbn; discriminate|].
    rewrite !forallb_app. cbn [forallb].
    rewrite (forallb_digits_plain _ Hfa), (forallb_digits_plain _ Hd),
      (digit_plain _ Hx).
    rewrite forallb_app, (digits_plain _ Hds). reflexivity.
  - intros X. rewrite Hc. unfold direct_simple. rewrite <- !app_assoc.
    rewrite (d_head_intro 1 true 1 _ _ Hfa). reflexivity.
  - intros X. rewrite Hc. unfold direct_double. rewrite <- !app_assoc.
    rewrite (d_head_intro 1 true 1 _ _ Hfa), strip_lit_app.
    rewrite (digits4_app _ _ Hd).
    assert (Ht : forall Y, d_tail (x :: Y) = None).
    { intros Y. unfold d_tail, opt_lit.
      cbn [strip_lit txt list_ascii_of_string].
      rewrite (digit_not x "," Hx eq_refl). cbn [skip_sp].
      rewrite (digit_not x sp Hx eq_refl).
      cbn [strip_lit txt list_ascii_of_string].
      rewrite (digit_not x "N" Hx eq_refl). reflexivity. }
    cbn [app]. rewrite Ht. reflexivity.
Qed.

(** After every header has been replaced by a text that is no header,
    none is left. *)
Lemma Rewritten_unmatched (c s out : text) :
  header_span c ->
  (forall X, direct_simple (c ++ X) = None) ->
  (forall X, direct_double (c ++ X) = None) ->
  Rewritten c s out ->
  search CheckSimple out = None /\ search CheckDouble out = None.
Proof.
  intros Hc HS HD H.
  assert (Hcop : strip_lit (txt "Cop") c <> None) by apply Hc.
  induction H as [|M rest out g HM Hocc H IH|x s out H1 H2 H IH].
  - split; reflexivity.
  - destruct IH as [IH1 IH2]. split.
    + apply (search_over_span CheckSimple direct_simple);
        [apply match_at_CheckSimple | apply spanning_simple | exact Hc
        | apply HS | exact IH1].
    + apply (search_over_span CheckDouble direct_double);
        [apply match_at_CheckDouble | apply spanning_double | exact Hc
        | apply HD | exact IH2].
  - destruct IH as [IH1 IH2].
    pose proof (Rewritten_same_until_cop c s out Hcop H) as Hsame.
    assert (N1 : match_at CheckSimple (x :: out) = None).
    { rewrite match_at_CheckSimple in *.
      eapply spanning_stable; eauto using spanning_simple. }
    assert (N2 : match_at CheckDouble (x :: out) = None).
    { rewrite match_at_CheckDouble in *.
      eapply spanning_stable; eauto using spanning_double. }
    split; apply search_skip_None; assumption.
Qed.

(** X19.  The check breaks from the year 10000 on, as the comment above
    the patterns says: the patterns read years of four digits, so that
    no line is valid for such a current year, and the line that
    [replaceCurrentYear] writes with it, whatever the line was, carries
    no header that [getCopyrightYears] recognises. *)
Theorem X19_year_10000_breaks_the_check
    (thisYear : Z) (line : text) (start : Z) :
  10000 <= thisYear -> 0 <= start <= 9999 ->
  valid thisYear line = false /\
  getCopyrightYears (replaceCurrentYear line start thisYear) = None.
Proof.
  intros Hy Ha. split.
  - unfold valid. destruct (getCopyrightYears line) as [[s e]|] eqn:E;
      [|reflexivity].
    apply getCopyrightYears_range in E. apply andb_false_iff. right.
    apply Z.leb_gt. lia.
  - destruct (canonical_long start thisYear Ha Hy) as (Hc & HS & HD).
    destruct (Rewritten_unmatched _ _ _ Hc HS HD
                (replaceCurrentYear_Rewritten line start thisYear))
      as [H1 H2].
    unfold getCopyrightYears. rewrite H1, H2. reflexivity.
Qed.

Lemma X19_witness :
  let line := txt "# Copyright (c) 2019-2022, NVIDIA CORPORATION" in
  10000 <= 10000 /\ 0 <= 2019 <= 9999 /\
  replaceCurrentYear line 2019 10000 =
    txt "# Copyright (c) 2019-10000, NVIDIA CORPORATION" /\
  valid 10000 line = false /\
  getCopyrightYears (replaceCurrentYear line 2019 10000) = None.
Proof.
  intros line.
  assert (H1 : 10000 <= 10000) by lia.
  assert (H0 : 0 <= 2019 <= 9999) by lia.
  assert (H2 : replaceCurrentYear line 2019 10000 =
               txt "# Copyright (c) 2019-10000, NVIDIA CORPORATION").
  { vm_compute. reflexivity. }
  refine (conj H1 (conj H0 (conj H2 _))).
  exact (X19_year_10000_breaks_the_check 10000 line 2019 H1 H0).
Defined.

(** ** The issues of a run *)

Lemma lines_of_lookup (w w' : world) (f : file_arg) :
  fs w' !! path_of f = fs w !! path_of f -> lines_of w' f = lines_of w f.
Proof.
  destruct f as [p|p blob]; cbn [lines_of path_of]; [|reflexivity].
  intros ->. reflexivity.
Qed.

Lemma checkCopyright_lines_of (thisYear : Z) (f : file_arg) (update : bool)
    (w : world) :
  is_Some (fs w !! path_of f) ->
  fst (checkCopyright thisYear f update w) =
  Ok (issues_of thisYear (path_of f) (lines_of w f)).
Proof.
  intros Hex. destruct (load_total f w Hex) as (lines & w1 & Hload).
  rewrite (checkCopyright_loaded _ _ _ _ _ _ _ Hload). cbn [fst].
  destruct (load_inv _ _ _ _ _ Hload)
    as [_ [(-> & _ & content & Hfs & ->)|(blob & -> & _ & ->)]].
  - cbn [lines_of path_of] in *. rewrite Hfs. reflexivity.
  - reflexivity.
Qed.

Lemma check_all_issues (E : env) (update : bool) (files : list file_arg) :
  forall (acc : list issue) (w : world),
    (forall f, In f files -> is_Some (fs w !! path_of f)) ->
    update = false \/ NoDup (map path_of files) ->
    fst (check_all E update files acc w) =
    Ok (acc ++ flat_map (fun f => issues_of (now_year E) (path_of f)
                                    (lines_of w f)) files).
Proof.
  induction files as [|f files IH]; intros acc w Hex Hdup.
  - cbn. rewrite app_nil_r. reflexivity.
  - cbn [check_all flat_map]. unfold bind at 1.
    pose proof (checkCopyright_lines_of (now_year E) f update w) as Hes.
    destruct (checkCopyright_frame (now_year E) f update w)
      as (es & w1 & Hrun & Hdom & Hother & Hdry); [apply Hex; left; auto|].
    rewrite Hrun in Hes |- *. cbn [fst] in Hes.
    injection (Hes ltac:(apply Hex; left; reflexivity)) as ->.
    rewrite IH.
    + rewrite <- app_assoc. do 3 f_equal.
      rewrite !flat_map_concat_map. f_equal. apply map_ext_in.
      intros f' Hf'. f_equal. apply lines_of_lookup.
      destruct Hdup as [Hu|Hnd].
      * rewrite (Hdry Hu). reflexivity.
      * apply Hother. cbn [map] in Hnd. apply NoDup_cons in Hnd.
        destruct Hnd as [Hnot _]. intros Heq. apply Hnot.
        rewrite <- Heq. apply list_elem_of_In, in_map, Hf'.
    + intros f' Hf'. apply elem_of_dom. rewrite Hdom.
      apply elem_of_dom, Hex. right. exact Hf'.
    + destruct Hdup as [Hu|Hnd]; [left; exact Hu|]. right.
      cbn [map] in Hnd. apply NoDup_cons in Hnd. apply Hnd.
Qed.

(** X20.  The issues of a run are those of its files, one file after
    the other: the loop over the files returns, for each file in turn,
    the issues of the lines the file had before the run.  The fix of one
    file does not reach the check of another; this needs the files to
    have different paths when the fix is on, a file checked twice being
    read the second time as the first check left it. *)
Theorem X20_issues_of_a_run_are_those_of_its_files
    (E : env) (update : bool) (files : list file_arg) (w : world) :
  (forall f, In f files -> is_Some (fs w !! path_of f)) ->
  update = false \/ NoDup (map path_of files) ->
  fst (check_all E update files [] w) =
  Ok (flat_map (fun f => issues_of (now_year E) (path_of f) (lines_of w f))
        files).
Proof. intros Hex Hdup. apply (check_all_issues E update files [] w Hex Hdup). Qed.

Lemma X20_witness :
  let w := {| fs := {[ "a.py"%string :=
                         txt "# Copyright (c) 2019, NVIDIA CORPORATION
";
                       "b.py"%string := txt "x = 1
" ]};
              log := [] |} in
  let files := [Path "a.py"; Path "b.py"] in
  (forall f, In f files -> is_Some (fs w !! path_of f)) /\
  (true = false \/ NoDup (map path_of files)) /\
  fst (check_all example_env true files [] w) =
  Ok (flat_map (fun f => issues_of (now_year example_env) (path_of f)
                           (lines_of w f)) files).
Proof.
  intros w files.
  assert (H1 : forall f, In f files -> is_Some (fs w !! path_of f)).
  { intros f [<-|[<-|[]]]; eexists; reflexivity. }
  assert (H2 : true = false \/ NoDup (map path_of files)).
  { right. apply (bool_decide_unpack _). vm_compute. exact I. }
  refine (conj H1 (conj H2 _)).
  exact (X20_issues_of_a_run_are_those_of_its_files example_env true files w
           H1 H2).
Defined.

(** * The main function: exit status and arguments *)

(** ** The files that are selected *)

Lemma world_eta (w : world) : {| fs := fs w; log := log w ++ [] |} = w.
Proof. destruct w. cbn. rewrite app_nil_r. reflexivity. Qed.

(** The loop over the directories, when all of them are directories:
    each is walked, in the order given, and the files that pass
    [checkThisFile] are added. *)
Lemma collect_dirs_walks (E : env) (exempt : list regex) (ds : list string) :
  forall (files : list file_arg) (w : world),
    (forall d, In d ds -> isdir E d = true) ->
    collect_dirs E exempt ds files w =
    (Ok (files ++ flat_map (fun d => List.filter (checkThisFile exempt w)
                                       (map Path (walk E d))) ds),
     {| fs := fs w; log := log w ++ map EvWalk ds |}).
Proof.
  induction ds as [|d ds IH]; intros files w Hds.
  - cbn. unfold ret. rewrite app_nil_r, world_eta. reflexivity.
  - cbn [collect_dirs]. rewrite (Hds d) by (left; reflexivity).
    unfold bind at 1. unfold getAllFilesUnderDir, bind, emit.
    cbn [fs log]. rewrite IH by (intros d' Hd'; apply Hds; right; exact Hd').
    cbn [fs log flat_map map]. rewrite <- !app_assoc. reflexivity.
Qed.



(** The files [select_files] returns are the [selected] ones. *)
Lemma select_files_selected (E : env) (args : arguments)
    (exempt : list regex) (dirs : list string) (w w1 : world)
    (files : list file_arg) :
  select_files E args exempt dirs w = (Ok files, w1) ->
  files = selected E args exempt dirs w /\ fs w1 = fs w.
Proof.
  unfold select_files, selected. destruct (git_modified_only args).
  - unfold bind, print, emit, ret. cbn [fs log]. intros [= <- <-].
    split; reflexivity.
  - intros Hrun.
    destruct (collect_dirs_spec E exempt (map (abspath E) dirs) [] w)
      as (r & l & Hrun' & _ & Hr); [intros f []|].
    rewrite Hrun in Hrun'. injection Hrun' as <- ->.
    destruct Hr as [Hdirs _].
    rewrite (collect_dirs_walks E exempt _ [] w Hdirs) in Hrun.
    injection Hrun as <- _. split; reflexivity.
Qed.

(** ** The issues that are found *)

Lemma checkCopyright_Ok_inv (thisYear : Z) (f : file_arg) (update : bool)
    (w w' : world) (es : list issue) :
  checkCopyright thisYear f update w = (Ok es, w') ->
  es = issues_of thisYear (path_of f) (lines_of w f) /\
  (es = [] -> fs w' = fs w).
Proof.
  destruct (load f w) as [[[path lines]|e] w1] eqn:Hload.
  - rewrite (checkCopyright_loaded _ _ _ _ _ _ _ Hload).
    destruct (load_inv _ _ _ _ _ Hload) as [Hfs Hkind].
    assert (Hl : path = path_of f /\ lines = lines_of w f).
    { destruct Hkind as [(-> & _ & content & Hc & ->)|(blob & -> & _ & ->)].
      - cbn [path_of lines_of]. rewrite Hc. split; reflexivity.
      - split; reflexivity. }
    destruct Hl as [-> ->]. intros [= <- <-]. split; [reflexivity|].
    intros Hes. destruct (writes thisYear update (lines_of w f)) eqn:Hw;
      [|exact Hfs].
    exfalso. unfold writes in Hw.
    apply andb_true_iff in Hw. destruct Hw as [Hw Hm].
    apply andb_true_iff in Hw. destruct Hw as [_ Hv].
    apply negb_true_iff in Hv.
    apply (fixable_issues_of_nonempty thisYear (path_of f) _ Hv Hm).
    rewrite Hes. reflexivity.
  - unfold checkCopyright, bind. rewrite Hload. discriminate.
Qed.

(** The loop over the files has no issue to return exactly when no file
    has one, each file being taken as it was before the loop: as long as
    no issue is found, nothing is written. *)
Lemma check_all_no_issue (E : env) (update : bool) (files : list file_arg) :
  forall (acc : list issue) (w w' : world) (errors : list issue),
    check_all E update files acc w = (Ok errors, w') ->
    errors = [] <->
    acc = [] /\
    forall f, In f files ->
      issues_of (now_year E) (path_of f) (lines_of w f) = [].
Proof.
  induction files as [|f files IH]; intros acc w w' errors Hrun.
  - cbn in Hrun. unfold ret in Hrun. injection Hrun as <- _.
    split; [intros ->; split; [reflexivity | intros f []] | intros [-> _]];
      reflexivity.
  - cbn [check_all] in Hrun. unfold bind at 1 in Hrun.
    destruct (checkCopyright (now_year E) f update w) as [[es|e] w1] eqn:Hc;
      [|discriminate].
    destruct (checkCopyright_Ok_inv _ _ _ _ _ _ Hc) as [Hes Hsame].
    rewrite (IH _ _ _ _ Hrun). split.
    + intros [Happ Hrest]. apply app_eq_nil in Happ.
      destruct Happ as [-> Hnil]. split; [reflexivity|].
      intros f' [<-|Hf']; [rewrite <- Hes; exact Hnil|].
      rewrite <- (Hrest f' Hf'). f_equal. symmetry.
      apply lines_of_lookup. rewrite (Hsame Hnil). reflexivity.
    + intros [-> Hall].
      assert (Hnil : es = []) by (rewrite Hes; apply Hall; left; reflexivity).
      split; [rewrite Hnil; reflexivity|].
      intros f' Hf'. rewrite <- (Hall f' (or_intror Hf')). f_equal.
      apply lines_of_lookup. rewrite (Hsame Hnil). reflexivity.
Qed.

(** C8, as the code has it.  When an exemption pattern does not
    compile, the main function prints the error and returns 1, and
    nothing else happens.  Otherwise an exception raised while the files
    are selected or checked is not caught; and when the selection and
    the checks return, the files checked are the [selected] ones, the
    checks return no issue exactly when no selected file has an issue,
    each file being taken as it was before the run, and the main
    function returns 0 when they return none, 1 when they return one. *)
Theorem C8_exit_status_of_main
    (E : env) (args : arguments) (dirs : list string) (w : world) :
  (forall p, In p (ExemptFiles E) -> re_compile E p = None ->
     checkCopyright_main E args dirs w =
     (Ok 1, {| fs := fs w; log := log w ++ [EvPrint PRegexError] |})) /\
  (forall exempt e w1,
     compile_all E (ExemptFiles E) = Some exempt ->
     select_files E args exempt dirs w = (Raise e, w1) ->
     checkCopyright_main E args dirs w = (Raise e, w1)) /\
  (forall exempt files w1 e w2,
     compile_all E (ExemptFiles E) = Some exempt ->
     select_files E args exempt dirs w = (Ok files, w1) ->
     check_all E (update_current_year args) files [] w1 = (Raise e, w2) ->
     checkCopyright_main E args dirs w = (Raise e, w2)) /\
  (forall exempt files w1 errors w2,
     compile_all E (ExemptFiles E) = Some exempt ->
     select_files E args exempt dirs w = (Ok files, w1) ->
     check_all E (update_current_year args) files [] w1 = (Ok errors, w2) ->
     files = selected E args exempt dirs w /\
     (errors = [] <->
      forall f, In f files ->
        issues_of (now_year E) (path_of f) (lines_of w f) = []) /\
     exists w3,
       checkCopyright_main E args dirs w =
         (Ok (match errors with [] => 0 | _ :: _ => 1 end), w3) /\
       exit_status (fst (checkCopyright_main E args dirs w)) =
         match errors with [] => 0 | _ :: _ => 1 end).
Proof.
  split; [|split; [|split]].
  - intros p HIn Hp. unfold checkCopyright_main.
    rewrite (compile_all_None E _ p HIn Hp). reflexivity.
  - intros exempt e w1 Hc Hsel. unfold checkCopyright_main.
    rewrite Hc. unfold bind. rewrite Hsel. reflexivity.
  - intros exempt files w1 e w2 Hc Hsel Hcheck. unfold checkCopyright_main.
    rewrite Hc. unfold bind. rewrite Hsel, Hcheck. reflexivity.
  - intros exempt files w1 errors w2 Hc Hsel Hcheck.
    destruct (select_files_selected _ _ _ _ _ _ _ Hsel) as [Hfiles Hfs].
    split; [exact Hfiles|]. split.
    + rewrite (check_all_no_issue _ _ _ _ _ _ _ Hcheck). split.
      * intros [_ H] f Hf. rewrite <- (H f Hf). f_equal. symmetry.
        apply lines_of_lookup. rewrite Hfs. reflexivity.
      * intros H. split; [reflexivity|]. intros f Hf.
        rewrite <- (H f Hf). f_equal.
        apply lines_of_lookup. rewrite Hfs. reflexivity.
    + destruct (report_status errors w2) as (w3 & Hrep). exists w3.
      assert (Hmain : checkCopyright_main E args dirs w =
                (Ok (match errors with [] => 0 | _ :: _ => 1 end), w3)).
      { unfold checkCopyright_main. rewrite Hc. unfold bind.
        rewrite Hsel, Hcheck. exact Hrep. }
      split; [exact Hmain|]. rewrite Hmain. reflexivity.
Qed.

Lemma C8_witness :
  let w := one_file "src/a.py"
             (txt "# Copyright (c) 2019, NVIDIA CORPORATION
") in
  let args := {| update_current_year := false; git_modified_only := false |} in
  (In "("%string (ExemptFiles broken_env) /\
   re_compile broken_env "(" = None /\
   checkCopyright_main broken_env args ["src"%string] w =
     (Ok 1, {| fs := fs w; log := log w ++ [EvPrint PRegexError] |})) /\
  (exists exempt files w1 errors w2,
     compile_all example_env (ExemptFiles example_env) = Some exempt /\
     select_files example_env args exempt ["src"%string] w = (Ok files, w1) /\
     check_all example_env (update_current_year args) files [] w1 =
       (Ok errors, w2) /\
     files = [Path "src/a.py"] /\
     errors <> [] /\
     exit_status (fst (checkCopyright_main example_env args ["src"%string] w))
       = 1).
Proof.
  intros w args.
  pose proof (C8_exit_status_of_main broken_env args ["src"%string] w)
    as [Hbroken _].
  pose proof (C8_exit_status_of_main example_env args ["src"%string] w)
    as (_ & _ & _ & Hok).
  split.
  - assert (H1 : In "("%string (ExemptFiles broken_env))
      by (left; reflexivity).
    assert (H2 : re_compile broken_env "(" = None)
      by (vm_compute; reflexivity).
    exact (conj H1 (conj H2 (Hbroken "("%string H1 H2))).
  - pose (exempt := match compile_all example_env (ExemptFiles example_env)
                    with Some x => x | None => [] end).
    pose (s := select_files example_env args exempt ["src"%string] w).
    pose (files := match fst s with Ok x => x | Raise _ => [] end).
    pose (c := check_all example_env (update_current_year args) files []
                 (snd s)).
    pose (errors := match fst c with Ok x => x | Raise _ => [] end).
    assert (Hc : compile_all example_env (ExemptFiles example_env) =
                 Some exempt) by (vm_compute; reflexivity).
    assert (Hs : select_files example_env args exempt ["src"%string] w =
                 (Ok files, snd s)) by (vm_compute; reflexivity).
    assert (Hk : check_all example_env (update_current_year args) files []
                   (snd s) = (Ok errors, snd c)) by (vm_compute; reflexivity).
    exists exempt, files, (snd s), errors, (snd c).
    refine (conj Hc (conj Hs (conj Hk _))).
    destruct (Hok exempt files (snd s) errors (snd c) Hc Hs Hk)
      as (Hfiles & _ & w3 & _ & Hstatus).
    split; [rewrite Hfiles; vm_compute; reflexivity|].
    split; [vm_compute; discriminate|].
    rewrite Hstatus. vm_compute. reflexivity.
Defined.

(** C8 as it is stated fails for a run that fixes what it finds: with
    [--update-current-year], on a file whose header stops in 2019, the
    run rewrites the header, after which no selected file has an issue
    left, and yet it returns 1. *)
Lemma C8_counterexample :
  ~ (forall (E : env) (args : arguments) (dirs : list string) (w : world)
            (exempt : list regex),
       compile_all E (ExemptFiles E) = Some exempt ->
       (forall f,
          In f (selected E args exempt dirs
                  (snd (checkCopyright_main E args dirs w))) ->
          issues_of (now_year E) (path_of f)
            (lines_of (snd (checkCopyright_main E args dirs w)) f) = []) ->
       fst (checkCopyright_main E args dirs w) = Ok 0).
Proof.
  intros H.
  pose (exempt := match compile_all example_env (ExemptFiles example_env)
                  with Some x => x | None => [] end).
  specialize (H example_env
    {| update_current_year := true; git_modified_only := false |}
    ["src"%string]
    (one_file "src/a.py" (txt "# Copyright (c) 2019, NVIDIA CORPORATION
"))
    exempt).
  assert (Hrun : fst (checkCopyright_main example_env
    {| update_current_year := true; git_modified_only := false |}
    ["src"%string]
    (one_file "src/a.py" (txt "# Copyright (c) 2019, NVIDIA CORPORATION
"))) = Ok 1) by (vm_compute; reflexivity).
  rewrite Hrun in H. discriminate H.
  - vm_compute. reflexivity.
  - intros f Hf. vm_compute in Hf. destruct Hf as [<-|[]].
    vm_compute. reflexivity.
Qed.



